(** * IKEA supply-chain simulation: a shallow embedding of [ikea_simulation.js]

    The development follows the source file function by function.
    JavaScript numbers are idealised as real numbers; the one place where
    the program manufactures a non-number ([undefined + x]) is modelled by
    the three-valued type [jsval].  JavaScript objects that the program
    enumerates with [Object.keys] are association lists in insertion order;
    objects that are only indexed are finite maps.  Where rounding decides
    what the program does, in [calculateDistance] between antipodal points,
    the function is modelled a second time on binary64 numbers, in
    [Doubles]. *)

From Stdlib Require Import Reals Lra Lia ZArith List String.
From Stdlib Require Floats.
From stdpp Require Import gmap strings.

#[local] Open Scope R_scope.
#[local] Open Scope string_scope.
#[local] Open Scope list_scope.

(** ** Numbers *)

(** [Math.floor]. *)
Definition floor (x : R) : Z := Int_part x.

(** [Math.round]: nearest integer, ties towards plus infinity. *)
Definition round (x : R) : Z := Int_part (x + 1 / 2).

(** The truncation [new Date(number)] applies to its time value. *)
Definition trunc (x : R) : Z :=
  if Rle_dec 0 x then Int_part x else (- Int_part (- x))%Z.

(** The values an emissions slot can hold: a property that was never
    written reads as [undefined]; [undefined + x] is [NaN]. *)
Inductive jsval : Type :=
| Undefined
| Num (x : R)
| NaN.

(** The binary [+] of JavaScript on these values (no strings occur). *)
Definition js_add (a b : jsval) : jsval :=
  match a, b with
  | Num x, Num y => Num (x + y)
  | _, _ => NaN
  end.

(** [Math.atan2 y x] on real arguments. *)
Definition atan2 (y x : R) : R :=
  if Rlt_dec 0 x then atan (y / x)
  else if Rlt_dec x 0 then
         (if Rle_dec 0 y then atan (y / x) + PI else atan (y / x) - PI)
       else if Rlt_dec 0 y then PI / 2
            else if Rlt_dec y 0 then - (PI / 2) else 0.

(** ** Geo utility *)

(** [calculateDistance] on real numbers, with the total square root of the
    reals and no rounding.  In the program's binary64 arithmetic the term
    [a] can round to a number just above 1, and the function returns [NaN]
    there; that case is [Doubles.calculateDistance] below. *)
Definition calculateDistance (lat1 lon1 lat2 lon2 : R) : R :=
  let R_ := 6371 in
  let dLat := (lat2 - lat1) * PI / 180 in
  let dLon := (lon2 - lon1) * PI / 180 in
  let a := sin (dLat / 2) * sin (dLat / 2) +
           cos (lat1 * PI / 180) * cos (lat2 * PI / 180) *
           sin (dLon / 2) * sin (dLon / 2) in
  let c := 2 * atan2 (sqrt a) (sqrt (sqrt (1 - a))) in
  R_ * c.

(** The haversine formula as the specification words it:
    [R * 2 * atan2(sqrt a, sqrt (1 - a))]. *)
Definition haversine_spec (lat1 lon1 lat2 lon2 : R) : R :=
  let a := sin ((lat2 - lat1) * PI / 180 / 2) * sin ((lat2 - lat1) * PI / 180 / 2) +
           cos (lat1 * PI / 180) * cos (lat2 * PI / 180) *
           (sin ((lon2 - lon1) * PI / 180 / 2) * sin ((lon2 - lon1) * PI / 180 / 2)) in
  6371 * (2 * atan2 (sqrt a) (sqrt (1 - a))).

(** An example host calendar: the month (0 to 11) of a time value read in
    UTC, by the usual days-to-civil-date computation.  It instantiates the
    [getMonth] parameter of the simulation in the closed examples. *)
Definition utcMonth (t : Z) : Z :=
  let z := (t / 86400000 + 719468)%Z in
  let doe := (z mod 146097)%Z in
  let yoe := ((doe - doe / 1460 + doe / 36524 - doe / 146096) / 365)%Z in
  let doy := (doe - (365 * yoe + yoe / 4 - yoe / 100))%Z in
  let mp := ((5 * doy + 2) / 153)%Z in
  if (mp <? 10)%Z then (mp + 2)%Z else (mp - 10)%Z.

(** ** JavaScript objects in insertion order

    [Object.keys] lists the own string keys in insertion order; assigning to
    a present key keeps its place, assigning to an absent one appends. *)
Definition obj (V : Type) : Type := list (string * V).

Fixpoint oget {V} (k : string) (o : obj V) : option V :=
  match o with
  | [] => None
  | (k', v) :: o' => if decide (k' = k) then Some v else oget k o'
  end.

Fixpoint oset {V} (k : string) (v : V) (o : obj V) : obj V :=
  match o with
  | [] => [(k, v)]
  | (k', v') :: o' =>
      if decide (k' = k) then (k', v) :: o' else (k', v') :: oset k v o'
  end.

(** [Object.keys], for objects none of whose keys is written like an array
    index (such keys would come first, in ascending order): the keys in
    insertion order. *)
Definition okeys {V} (o : obj V) : list string := map fst o.

(** Reading a slot of an emissions accumulator. *)
Definition getv (acc : gmap string jsval) (k : string) : jsval :=
  default Undefined (acc !! k).

(** ** Data model *)

(** An entry of [nodesData]: the static definition of a node. *)
Record NodeData := {
  type : string;
  initial_stock : R;
  coords : R * R
}.

(** An entry of [nodeState]. *)
Record NodeState := {
  stock : R;
  capacity : R;
  production_rate : R;
  sales_rate : R;
  inbound_rate : R;
  outbound_rate : R
}.

(** An entry of [routesData]; [route_capacity] is the route's [capacity]. *)
Record Route := {
  from : string;
  to : string;
  vehicle : string;
  route_capacity : R;
  speed : R;
  emission : R;
  frequency : R
}.

(** An entry of [movingMarkers]; [marker] is the marker's position.  The
    entry's copy of its key and [lastStartTime], a wall-clock stamp that is
    written and never read, are left out. *)
Record Vehicle := {
  marker : R * R;
  vehicleType : string;
  routeCoords : list (R * R);
  duration : R;
  distance : R;
  isMoving : bool;
  currentPosition : nat;
  animationId : option positive
}.

(** [scenarioComparison]. *)
Record Comparison := {
  baseline : list Z;
  green_rail : list Z;
  local_source : list Z
}.

(** The data held by the two charts: the bar chart's single data set and
    the line chart's labels and three data sets. *)
Record Charts := {
  co2Chart : list jsval;
  labels : list Z;
  dataset0 : list jsval;
  dataset1 : list jsval;
  dataset2 : list jsval
}.

(** The callbacks the program hands to [setTimeout]. *)
Inductive Callback : Type :=
| ArrivalCb (toNode : string) (shipmentSize : R)
| AnimateCb (routeId : string) (stepDuration : R)
| ArrivalResetCb (routeId : string).

Record Timer := {
  timer_id : positive;
  timer_delay : R;
  timer_cb : Callback
}.

(** The [ikeaSimulation] object together with the closure variable
    [theMap], the host's [window[mapId]], the pending timers and the number
    of pending animation-frame requests. *)
Record Sim := {
  isPlaying : bool;
  simulationSpeed : R;
  currentScenario : string;
  startDate : Z;
  currentDate : Z;
  simulationTime : R;
  nodeState : obj NodeState;
  routesData : obj Route;
  nodesData : gmap string NodeData;
  routeCoordinates : gmap string (list (R * R));
  movingMarkers : gmap string Vehicle;
  co2Data : obj (gmap string jsval);
  scenarioComparison : Comparison;
  charts : Charts;
  theMap : bool;
  windowMap : bool;
  timers : list Timer;
  nextTimer : positive;
  frames : nat
}.

(** Field assignments on the simulation object. *)
Definition set_isPlaying (v : bool) (s : Sim) : Sim :=
  {| isPlaying := v; simulationSpeed := simulationSpeed s;
     currentScenario := currentScenario s; startDate := startDate s;
     currentDate := currentDate s; simulationTime := simulationTime s;
     nodeState := nodeState s; routesData := routesData s;
     nodesData := nodesData s; routeCoordinates := routeCoordinates s;
     movingMarkers := movingMarkers s; co2Data := co2Data s;
     scenarioComparison := scenarioComparison s; charts := charts s;
     theMap := theMap s; windowMap := windowMap s; timers := timers s;
     nextTimer := nextTimer s; frames := frames s |}.

Definition set_simulationSpeed (v : R) (s : Sim) : Sim :=
  {| isPlaying := isPlaying s; simulationSpeed := v;
     currentScenario := currentScenario s; startDate := startDate s;
     currentDate := currentDate s; simulationTime := simulationTime s;
     nodeState := nodeState s; routesData := routesData s;
     nodesData := nodesData s; routeCoordinates := routeCoordinates s;
     movingMarkers := movingMarkers s; co2Data := co2Data s;
     scenarioComparison := scenarioComparison s; charts := charts s;
     theMap := theMap s; windowMap := windowMap s; timers := timers s;
     nextTimer := nextTimer s; frames := frames s |}.

Definition set_currentScenario (v : string) (s : Sim) : Sim :=
  {| isPlaying := isPlaying s; simulationSpeed := simulationSpeed s;
     currentScenario := v; startDate := startDate s;
     currentDate := currentDate s; simulationTime := simulationTime s;
     nodeState := nodeState s; routesData := routesData s;
     nodesData := nodesData s; routeCoordinates := routeCoordinates s;
     movingMarkers := movingMarkers s; co2Data := co2Data s;
     scenarioComparison := scenarioComparison s; charts := charts s;
     theMap := theMap s; windowMap := windowMap s; timers := timers s;
     nextTimer := nextTimer s; frames := frames s |}.

Definition set_currentDate (v : Z) (s : Sim) : Sim :=
  {| isPlaying := isPlaying s; simulationSpeed := simulationSpeed s;
     currentScenario := currentScenario s; startDate := startDate s;
     currentDate := v; simulationTime := simulationTime s;
     nodeState := nodeState s; routesData := routesData s;
     nodesData := nodesData s; routeCoordinates := routeCoordinates s;
     movingMarkers := movingMarkers s; co2Data := co2Data s;
     scenarioComparison := scenarioComparison s; charts := charts s;
     theMap := theMap s; windowMap := windowMap s; timers := timers s;
     nextTimer := nextTimer s; frames := frames s |}.

Definition set_simulationTime (v : R) (s : Sim) : Sim :=
  {| isPlaying := isPlaying s; simulationSpeed := simulationSpeed s;
     currentScenario := currentScenario s; startDate := startDate s;
     currentDate := currentDate s; simulationTime := v;
     nodeState := nodeState s; routesData := routesData s;
     nodesData := nodesData s; routeCoordinates := routeCoordinates s;
     movingMarkers := movingMarkers s; co2Data := co2Data s;
     scenarioComparison := scenarioComparison s; charts := charts s;
     theMap := theMap s; windowMap := windowMap s; timers := timers s;
     nextTimer := nextTimer s; frames := frames s |}.

Definition set_nodeState (v : obj NodeState) (s : Sim) : Sim :=
  {| isPlaying := isPlaying s; simulationSpeed := simulationSpeed s;
     currentScenario := currentScenario s; startDate := startDate s;
     currentDate := currentDate s; simulationTime := simulationTime s;
     nodeState := v; routesData := routesData s; nodesData := nodesData s;
     routeCoordinates := routeCoordinates s;
     movingMarkers := movingMarkers s; co2Data := co2Data s;
     scenarioComparison := scenarioComparison s; charts := charts s;
     theMap := theMap s; windowMap := windowMap s; timers := timers s;
     nextTimer := nextTimer s; frames := frames s |}.

Definition set_movingMarkers (v : gmap string Vehicle) (s : Sim) : Sim :=
  {| isPlaying := isPlaying s; simulationSpeed := simulationSpeed s;
     currentScenario := currentScenario s; startDate := startDate s;
     currentDate := currentDate s; simulationTime := simulationTime s;
     nodeState := nodeState s; routesData := routesData s;
     nodesData := nodesData s; routeCoordinates := routeCoordinates s;
     movingMarkers := v; co2Data := co2Data s;
     scenarioComparison := scenarioComparison s; charts := charts s;
     theMap := theMap s; windowMap := windowMap s; timers := timers s;
     nextTimer := nextTimer s; frames := frames s |}.

Definition set_co2Data (v : obj (gmap string jsval)) (s : Sim) : Sim :=
  {| isPlaying := isPlaying s; simulationSpeed := simulationSpeed s;
     currentScenario := currentScenario s; startDate := startDate s;
     currentDate := currentDate s; simulationTime := simulationTime s;
     nodeState := nodeState s; routesData := routesData s;
     nodesData := nodesData s; routeCoordinates := routeCoordinates s;
     movingMarkers := movingMarkers s; co2Data := v;
     scenarioComparison := scenarioComparison s; charts := charts s;
     theMap := theMap s; windowMap := windowMap s; timers := timers s;
     nextTimer := nextTimer s; frames := frames s |}.

Definition set_scenarioComparison (v : Comparison) (s : Sim) : Sim :=
  {| isPlaying := isPlaying s; simulationSpeed := simulationSpeed s;
     currentScenario := currentScenario s; startDate := startDate s;
     currentDate := currentDate s; simulationTime := simulationTime s;
     nodeState := nodeState s; routesData := routesData s;
     nodesData := nodesData s; routeCoordinates := routeCoordinates s;
     movingMarkers := movingMarkers s; co2Data := co2Data s;
     scenarioComparison := v; charts := charts s; theMap := theMap s;
     windowMap := windowMap s; timers := timers s; nextTimer := nextTimer s;
     frames := frames s |}.

Definition set_charts (v : Charts) (s : Sim) : Sim :=
  {| isPlaying := isPlaying s; simulationSpeed := simulationSpeed s;
     currentScenario := currentScenario s; startDate := startDate s;
     currentDate := currentDate s; simulationTime := simulationTime s;
     nodeState := nodeState s; routesData := routesData s;
     nodesData := nodesData s; routeCoordinates := routeCoordinates s;
     movingMarkers := movingMarkers s; co2Data := co2Data s;
     scenarioComparison := scenarioComparison s; charts := v;
     theMap := theMap s; windowMap := windowMap s; timers := timers s;
     nextTimer := nextTimer s; frames := frames s |}.

Definition set_theMap (v : bool) (s : Sim) : Sim :=
  {| isPlaying := isPlaying s; simulationSpeed := simulationSpeed s;
     currentScenario := currentScenario s; startDate := startDate s;
     currentDate := currentDate s; simulationTime := simulationTime s;
     nodeState := nodeState s; routesData := routesData s;
     nodesData := nodesData s; routeCoordinates := routeCoordinates s;
     movingMarkers := movingMarkers s; co2Data := co2Data s;
     scenarioComparison := scenarioComparison s; charts := charts s;
     theMap := v; windowMap := windowMap s; timers := timers s;
     nextTimer := nextTimer s; frames := frames s |}.

Definition set_windowMap (v : bool) (s : Sim) : Sim :=
  {| isPlaying := isPlaying s; simulationSpeed := simulationSpeed s;
     currentScenario := currentScenario s; startDate := startDate s;
     currentDate := currentDate s; simulationTime := simulationTime s;
     nodeState := nodeState s; routesData := routesData s;
     nodesData := nodesData s; routeCoordinates := routeCoordinates s;
     movingMarkers := movingMarkers s; co2Data := co2Data s;
     scenarioComparison := scenarioComparison s; charts := charts s;
     theMap := theMap s; windowMap := v; timers := timers s;
     nextTimer := nextTimer s; frames := frames s |}.

Definition set_timers (v : list Timer) (s : Sim) : Sim :=
  {| isPlaying := isPlaying s; simulationSpeed := simulationSpeed s;
     currentScenario := currentScenario s; startDate := startDate s;
     currentDate := currentDate s; simulationTime := simulationTime s;
     nodeState := nodeState s; routesData := routesData s;
     nodesData := nodesData s; routeCoordinates := routeCoordinates s;
     movingMarkers := movingMarkers s; co2Data := co2Data s;
     scenarioComparison := scenarioComparison s; charts := charts s;
     theMap := theMap s; windowMap := windowMap s; timers := v;
     nextTimer := nextTimer s; frames := frames s |}.

Definition set_nextTimer (v : positive) (s : Sim) : Sim :=
  {| isPlaying := isPlaying s; simulationSpeed := simulationSpeed s;
     currentScenario := currentScenario s; startDate := startDate s;
     currentDate := currentDate s; simulationTime := simulationTime s;
     nodeState := nodeState s; routesData := routesData s;
     nodesData := nodesData s; routeCoordinates := routeCoordinates s;
     movingMarkers := movingMarkers s; co2Data := co2Data s;
     scenarioComparison := scenarioComparison s; charts := charts s;
     theMap := theMap s; windowMap := windowMap s; timers := timers s;
     nextTimer := v; frames := frames s |}.

Definition set_frames (v : nat) (s : Sim) : Sim :=
  {| isPlaying := isPlaying s; simulationSpeed := simulationSpeed s;
     currentScenario := currentScenario s; startDate := startDate s;
     currentDate := currentDate s; simulationTime := simulationTime s;
     nodeState := nodeState s; routesData := routesData s;
     nodesData := nodesData s; routeCoordinates := routeCoordinates s;
     movingMarkers := movingMarkers s; co2Data := co2Data s;
     scenarioComparison := scenarioComparison s; charts := charts s;
     theMap := theMap s; windowMap := windowMap s; timers := timers s;
     nextTimer := nextTimer s; frames := v |}.

(** Field assignments on a node-state entry. *)
Definition set_stock (v : R) (n : NodeState) : NodeState :=
  {| stock := v; capacity := capacity n;
     production_rate := production_rate n; sales_rate := sales_rate n;
     inbound_rate := inbound_rate n; outbound_rate := outbound_rate n |}.

Definition set_production_rate (v : R) (n : NodeState) : NodeState :=
  {| stock := stock n; capacity := capacity n;
     production_rate := v; sales_rate := sales_rate n;
     inbound_rate := inbound_rate n; outbound_rate := outbound_rate n |}.

Definition set_sales_rate (v : R) (n : NodeState) : NodeState :=
  {| stock := stock n; capacity := capacity n;
     production_rate := production_rate n; sales_rate := v;
     inbound_rate := inbound_rate n; outbound_rate := outbound_rate n |}.

Definition set_inbound_rate (v : R) (n : NodeState) : NodeState :=
  {| stock := stock n; capacity := capacity n;
     production_rate := production_rate n; sales_rate := sales_rate n;
     inbound_rate := v; outbound_rate := outbound_rate n |}.

Definition set_outbound_rate (v : R) (n : NodeState) : NodeState :=
  {| stock := stock n; capacity := capacity n;
     production_rate := production_rate n; sales_rate := sales_rate n;
     inbound_rate := inbound_rate n; outbound_rate := v |}.

(** Field assignments on a moving-marker entry. *)
Definition set_marker (v : R * R) (x : Vehicle) : Vehicle :=
  {| marker := v; vehicleType := vehicleType x;
     routeCoords := routeCoords x; duration := duration x;
     distance := distance x; isMoving := isMoving x;
     currentPosition := currentPosition x; animationId := animationId x |}.

Definition set_isMoving (v : bool) (x : Vehicle) : Vehicle :=
  {| marker := marker x; vehicleType := vehicleType x;
     routeCoords := routeCoords x; duration := duration x;
     distance := distance x; isMoving := v;
     currentPosition := currentPosition x; animationId := animationId x |}.

Definition set_currentPosition (v : nat) (x : Vehicle) : Vehicle :=
  {| marker := marker x; vehicleType := vehicleType x;
     routeCoords := routeCoords x; duration := duration x;
     distance := distance x; isMoving := isMoving x;
     currentPosition := v; animationId := animationId x |}.

Definition set_animationId (v : option positive) (x : Vehicle) : Vehicle :=
  {| marker := marker x; vehicleType := vehicleType x;
     routeCoords := routeCoords x; duration := duration x;
     distance := distance x; isMoving := isMoving x;
     currentPosition := currentPosition x; animationId := v |}.

(** ** Effects

    A method of the simulation object is a state transformer that either
    completes with a value or throws (a [TypeError] from reading a property
    of [undefined]); the mutations made before a throw persist. *)
Definition M (A : Type) : Type := Sim -> option A * Sim.

#[export] Instance M_ret : MRet M := fun A a s => (Some a, s).

#[export] Instance M_bind : MBind M := fun A B k m s =>
  match m s with
  | (Some a, s') => k a s'
  | (None, s') => (None, s')
  end.

Definition gets {A} (f : Sim -> A) : M A := fun s => (Some (f s), s).

Definition modify (f : Sim -> Sim) : M unit := fun s => (Some tt, f s).

(** Reading a property of a possibly undefined object. *)
Definition prop_of {A} (o : option A) : M A := fun s =>
  match o with
  | Some a => (Some a, s)
  | None => (None, s)
  end.

(** [try { body } catch (error) { handler }]. *)
Definition try_catch (body handler : M unit) : M unit := fun s =>
  match body s with
  | (Some _, s') => (Some tt, s')
  | (None, s') => handler s'
  end.

(** [keys.forEach(f)]. *)
Fixpoint forEach (ks : list string) (f : string -> M unit) : M unit :=
  match ks with
  | [] => mret tt
  | k :: ks' => f k ;; forEach ks' f
  end.

(** [this.nodeState[nodeId].field = ...]: an in-place assignment to one
    field of a node-state entry. *)
Definition assignNode (nodeId : string) (f : NodeState -> NodeState) : M unit :=
  node ← gets (fun s => oget nodeId (nodeState s)) ≫= prop_of;
  modify (fun s => set_nodeState (oset nodeId (f node) (nodeState s)) s).

(** The same for an entry of [movingMarkers]. *)
Definition assignVehicle (routeId : string) (f : Vehicle -> Vehicle) : M unit :=
  v ← gets (fun s => movingMarkers s !! routeId) ≫= prop_of;
  modify (fun s => set_movingMarkers (<[routeId := f v]> (movingMarkers s)) s).

(** [setTimeout(cb, delay)], returning the handle. *)
Definition setTimeout (cb : Callback) (delay : R) : M positive := fun s =>
  let id := nextTimer s in
  (Some id,
   set_nextTimer (Pos.succ id)
     (set_timers (timers s ++ [{| timer_id := id; timer_delay := delay;
                                  timer_cb := cb |}]) s)).

(** [clearTimeout(id)]. *)
Definition clearTimeout (id : positive) : M unit :=
  modify (fun s =>
    set_timers (filter (fun t => timer_id t ≠ id) (timers s)) s).

(** [requestAnimationFrame(() => this.simulationStep())]. *)
Definition requestAnimationFrame : M unit :=
  modify (fun s => set_frames (S (frames s)) s).

(** ** The simulation object *)

(** A fresh emissions accumulator [{ truck: 0, rail: 0, air: 0 }]. *)
Definition zeroEmissions : gmap string jsval :=
  {[ "truck" := Num 0; "rail" := Num 0; "air" := Num 0 ]}.

Definition emptyComparison : Comparison :=
  {| baseline := []; green_rail := []; local_source := [] |}.

(** The object literal [ikeaSimulation] after [initCharts], with the start
    date [t0] and the host's map lookup [w]. *)
Definition ikeaSimulation (t0 : Z) (w : bool) : Sim :=
  {| isPlaying := false;
     simulationSpeed := 1;
     currentScenario := "baseline";
     startDate := t0;
     currentDate := t0;
     simulationTime := 0;
     nodeState := [];
     routesData := [];
     nodesData := ∅;
     routeCoordinates := ∅;
     movingMarkers := ∅;
     co2Data := [("baseline", zeroEmissions); ("green_rail", zeroEmissions);
                 ("local_source", zeroEmissions)];
     scenarioComparison := emptyComparison;
     charts := {| co2Chart := [Num 0; Num 0; Num 0]; labels := [];
                  dataset0 := []; dataset1 := []; dataset2 := [] |};
     theMap := w;
     windowMap := w;
     timers := [];
     nextTimer := 1%positive;
     frames := 0 |}.

(** *** Vehicle animator *)

Definition onVehicleArrival (routeId : string) : M unit :=
  vehicle ← gets (fun s => movingMarkers s !! routeId);
  match vehicle with
  | Some _ =>
      assignVehicle routeId (set_isMoving false) ;;
      _ ← setTimeout (ArrivalResetCb routeId) 3000;
      mret tt
  | None => mret tt
  end.

Definition resetVehiclePosition (routeId : string) : M unit :=
  vehicle ← gets (fun s => movingMarkers s !! routeId);
  match vehicle with
  | Some v =>
      match animationId v with
      | Some id =>
          clearTimeout id ;;
          assignVehicle routeId (set_animationId None)
      | None => mret tt
      end ;;
      coords ← gets (fun s => routeCoordinates s !! routeId);
      match coords with
      | Some (c0 :: _) => assignVehicle routeId (set_marker c0)
      | _ => mret tt
      end ;;
      assignVehicle routeId (set_isMoving false) ;;
      assignVehicle routeId (set_currentPosition 0%nat)
  | None => mret tt
  end.

(** The closure [animate] of [startVehicleMovement]; [vehicle] is the
    entry of [movingMarkers] under [routeId]. *)
Definition animate (routeId : string) (stepDuration : R) : M unit :=
  vehicle ← gets (fun s => movingMarkers s !! routeId) ≫= prop_of;
  if negb (isMoving vehicle) then mret tt
  else
    assignVehicle routeId (set_currentPosition (S (currentPosition vehicle))) ;;
    vehicle ← gets (fun s => movingMarkers s !! routeId) ≫= prop_of;
    if (length (routeCoords vehicle) <=? currentPosition vehicle)%nat then
      onVehicleArrival routeId
    else
      nextCoord ← prop_of (routeCoords vehicle !! currentPosition vehicle);
      assignVehicle routeId (set_marker nextCoord) ;;
      id ← setTimeout (AnimateCb routeId stepDuration) stepDuration;
      assignVehicle routeId (set_animationId (Some id)).

Definition startVehicleMovement (routeId : string) : M unit :=
  vehicle ← gets (fun s => movingMarkers s !! routeId);
  match vehicle with
  | Some v =>
      if negb (isMoving v) && (1 <? length (routeCoords v))%nat then
        assignVehicle routeId (set_isMoving true) ;;
        assignVehicle routeId (set_currentPosition 0%nat) ;;
        let stepDuration := duration v / INR (length (routeCoords v) - 1) in
        animate routeId stepDuration
      else mret tt
  | None => mret tt
  end.

(** *** Display and charts *)

(** [updateDisplay] only writes text into the page. *)
Definition updateDisplay : M unit := mret tt.

(** The sum [acc.truck + acc.rail + acc.air]. *)
Definition totalEmissions (acc : gmap string jsval) : jsval :=
  js_add (js_add (getv acc "truck") (getv acc "rail")) (getv acc "air").

Definition updateCharts : M unit :=
  sc ← gets currentScenario;
  acc ← gets (fun s => oget sc (co2Data s)) ≫= prop_of;
  modify (fun s => set_charts
    {| co2Chart := [getv acc "truck"; getv acc "rail"; getv acc "air"];
       labels := labels (charts s); dataset0 := dataset0 (charts s);
       dataset1 := dataset1 (charts s); dataset2 := dataset2 (charts s) |} s) ;;
  timeLabel ← gets (fun s => round (simulationTime s / 86400));
  cmp ← gets scenarioComparison;
  if bool_decide (timeLabel ∈ baseline cmp) then mret tt
  else
    modify (set_scenarioComparison
      {| baseline := baseline cmp ++ [timeLabel];
         green_rail := green_rail cmp ++ [timeLabel];
         local_source := local_source cmp ++ [timeLabel] |}) ;;
    modify (fun s => set_charts
      {| co2Chart := co2Chart (charts s);
         labels := labels (charts s) ++ [timeLabel];
         dataset0 := dataset0 (charts s); dataset1 := dataset1 (charts s);
         dataset2 := dataset2 (charts s) |} s) ;;
    b ← gets (fun s => oget "baseline" (co2Data s)) ≫= prop_of;
    modify (fun s => set_charts
      {| co2Chart := co2Chart (charts s); labels := labels (charts s);
         dataset0 := dataset0 (charts s) ++ [totalEmissions b];
         dataset1 := dataset1 (charts s); dataset2 := dataset2 (charts s) |} s) ;;
    g ← gets (fun s => oget "green_rail" (co2Data s)) ≫= prop_of;
    modify (fun s => set_charts
      {| co2Chart := co2Chart (charts s); labels := labels (charts s);
         dataset0 := dataset0 (charts s);
         dataset1 := dataset1 (charts s) ++ [totalEmissions g];
         dataset2 := dataset2 (charts s) |} s) ;;
    l ← gets (fun s => oget "local_source" (co2Data s)) ≫= prop_of;
    modify (fun s => set_charts
      {| co2Chart := co2Chart (charts s); labels := labels (charts s);
         dataset0 := dataset0 (charts s); dataset1 := dataset1 (charts s);
         dataset2 := dataset2 (charts s) ++ [totalEmissions l] |} s).

(** *** Reset *)

Definition stopSimulation : M unit := mret tt.

(** The body of the loop over [Object.keys(this.nodeState)] in
    [resetSimulation]. *)
Definition resetNode (nodeId : string) : M unit :=
  _ ← gets (fun s => oget nodeId (nodeState s)) ≫= prop_of;
  data ← gets (fun s => nodesData s !! nodeId) ≫= prop_of;
  assignNode nodeId (set_stock (initial_stock data)) ;;
  assignNode nodeId (set_inbound_rate 0) ;;
  assignNode nodeId (set_outbound_rate 0).

(** The body of the loop over [Object.keys(this.co2Data)]. *)
Definition resetScenario (scenario : string) : M unit :=
  modify (fun s => set_co2Data (oset scenario zeroEmissions (co2Data s)) s).

Definition resetSimulation : M unit :=
  stopSimulation ;;
  modify (fun s => set_currentDate (startDate s) s) ;;
  modify (set_simulationTime 0) ;;
  modify (set_isPlaying false) ;;
  nodeIds ← gets (fun s => okeys (nodeState s));
  forEach nodeIds resetNode ;;
  scenarios ← gets (fun s => okeys (co2Data s));
  forEach scenarios resetScenario ;;
  modify (set_scenarioComparison emptyComparison) ;;
  updateDisplay ;;
  updateCharts.

(** *** Seasonality, node updates, shipments and the tick *)

Section Simulation.

(** A [Date] is its time value in milliseconds.  [getMonth] is the host's
    [Date.prototype.getMonth] (months 0 to 11 in the local time zone). *)
Variable getMonth : Z -> Z.

Definition getSeasonalityMultiplier (date : Z) : R :=
  let month := (getMonth date + 1)%Z in
  if ((month =? 8) || (month =? 9))%Z then 1.8
  else if (month =? 1)%Z then 1.3
  else if ((month =? 6) || (month =? 7))%Z then 0.8
  else 1.0.

Definition updateScenarioRates (nodeId : string) : M unit :=
  assignNode nodeId (set_inbound_rate 0) ;;
  assignNode nodeId (set_outbound_rate 0) ;;
  sc ← gets currentScenario;
  if decide (sc = "green_rail") then
    (if decide (nodeId = "N2_ROM") then mret tt else mret tt)
  else if decide (sc = "local_source") then
    (if decide (nodeId = "N1_SWE")
     then assignNode nodeId (set_production_rate 0) else mret tt) ;;
    (if decide (nodeId = "N5_FAC")
     then assignNode nodeId (fun n => set_production_rate (production_rate n * 1.5) n)
     else mret tt)
  else mret tt.

(** The body of the loop over [Object.keys(this.nodeState)] in
    [updateNodeStates]. *)
Definition updateNode (multiplier : R) (nodeId : string) : M unit :=
  data ← gets (fun s => nodesData s !! nodeId) ≫= prop_of;
  (if decide (type data = "manufacturing") then
     assignNode nodeId (set_production_rate (50 * multiplier)) ;;
     assignNode nodeId (fun node =>
       set_stock (Rmin (capacity node)
                       (stock node + production_rate node / 3600)) node)
   else mret tt) ;;
  data ← gets (fun s => nodesData s !! nodeId) ≫= prop_of;
  (if decide (type data = "retail") then
     assignNode nodeId (set_sales_rate (20 * multiplier)) ;;
     assignNode nodeId (fun node =>
       set_stock (Rmax 0 (stock node - sales_rate node / 3600)) node)
   else mret tt) ;;
  updateScenarioRates nodeId.

Definition updateNodeStates : M unit :=
  multiplier ← gets (fun s => getSeasonalityMultiplier (currentDate s));
  nodeIds ← gets (fun s => okeys (nodeState s));
  forEach nodeIds (updateNode multiplier).

(** The deferred effect of a shipment: the callback given to [setTimeout]
    in [processShipments]. *)
Definition shipmentArrival (toNode : string) (shipmentSize : R) : M unit :=
  assignNode toNode (fun node =>
    set_stock (Rmin (capacity node) (stock node + shipmentSize)) node) ;;
  assignNode toNode (fun node =>
    set_inbound_rate (inbound_rate node + shipmentSize) node).

(** The body of the loop over [Object.keys(this.routesData)] in
    [processShipments]. *)
Definition processRoute (routeId : string) : M unit :=
  route ← gets (fun s => oget routeId (routesData s)) ≫= prop_of;
  let fromNode := from route in
  let toNode := to route in
  source ← gets (fun s => oget fromNode (nodeState s)) ≫= prop_of;
  if Rlt_dec (route_capacity route * 0.8) (stock source) then
    let shipmentSize := Rmin (route_capacity route) (stock source) in
    a ← gets (fun s => nodesData s !! fromNode) ≫= prop_of;
    b ← gets (fun s => nodesData s !! toNode) ≫= prop_of;
    let distance :=
      calculateDistance (coords a).1 (coords a).2 (coords b).1 (coords b).2 in
    let emissions := shipmentSize * distance * emission route in
    sc ← gets currentScenario;
    acc ← gets (fun s => oget sc (co2Data s)) ≫= prop_of;
    modify (fun s => set_co2Data
      (oset sc (<[vehicle route :=
                    js_add (getv acc (vehicle route)) (Num emissions)]> acc)
            (co2Data s)) s) ;;
    assignNode fromNode (fun node => set_stock (stock node - shipmentSize) node) ;;
    assignNode fromNode (fun node =>
      set_outbound_rate (outbound_rate node + shipmentSize) node) ;;
    _ ← setTimeout (ArrivalCb toNode shipmentSize)
                   (distance / speed route * 3600000);
    mret tt
  else mret tt.

Definition processShipments : M unit :=
  routeIds ← gets (fun s => okeys (routesData s));
  forEach routeIds processRoute.

Definition simulationStep : M unit :=
  try_catch
    (playing ← gets isPlaying;
     if negb playing then mret tt
     else
       ready ← gets theMap;
       (if negb ready then modify (fun s => set_theMap (windowMap s) s)
        else mret tt) ;;
       ready ← gets theMap;
       if negb ready then mret tt
       else
         deltaTime ← gets (fun s => 1 / 60 * simulationSpeed s);
         modify (fun s => set_simulationTime (simulationTime s + deltaTime) s) ;;
         modify (fun s => set_currentDate
           (trunc (IZR (startDate s) + simulationTime s * 1000)) s) ;;
         updateNodeStates ;;
         processShipments ;;
         updateDisplay ;;
         time ← gets simulationTime;
         (if (Z.rem (floor time) 60 =? 0)%Z then updateCharts else mret tt) ;;
         requestAnimationFrame)
    (modify (set_isPlaying false)).

Definition startSimulation : M unit := simulationStep.

Definition toggleSimulation : M unit :=
  modify (fun s => set_isPlaying (negb (isPlaying s)) s) ;;
  playing ← gets isPlaying;
  if (playing : bool) then startSimulation else stopSimulation.

(** *** The event loop *)

(** Running a timer's callback. *)
Definition runCallback (cb : Callback) : M unit :=
  match cb with
  | ArrivalCb toNode shipmentSize => shipmentArrival toNode shipmentSize
  | AnimateCb routeId stepDuration => animate routeId stepDuration
  | ArrivalResetCb routeId =>
      vehicle ← gets (fun s => movingMarkers s !! routeId);
      match vehicle with
      | Some _ => resetVehiclePosition routeId
      | None => mret tt
      end
  end.

(** The timer with handle [id] expires: it leaves the queue and its
    callback runs. *)
Definition fireTimer (id : positive) : M unit :=
  pending ← gets timers;
  match find (fun t => bool_decide (timer_id t = id)) pending with
  | Some t => clearTimeout id ;; runCallback (timer_cb t)
  | None => mret tt
  end.

(** What can happen to the simulation: a pending animation frame or timer
    runs, the user presses a control (play/pause, the speed slider, the
    scenario selector, reset), or a method is called directly. *)
Inductive Event : Type :=
| Frame
| TimerFires (id : positive)
| Toggle
| SetSpeed (v : R)
| SetScenario (sc : string)
| MapLoaded
| CallUpdateNodeStates
| CallProcessShipments
| CallSimulationStep
| CallStartVehicleMovement (routeId : string)
| ResetButton.

Definition handle (e : Event) : M unit :=
  match e with
  | Frame =>
      n ← gets frames;
      match n with
      | O => mret tt
      | S n' => modify (set_frames n') ;; simulationStep
      end
  | TimerFires id => fireTimer id
  | Toggle => toggleSimulation
  | SetSpeed v => modify (set_simulationSpeed v)
  | SetScenario sc => modify (set_currentScenario sc)
  | MapLoaded => modify (set_windowMap true)
  | CallUpdateNodeStates => updateNodeStates
  | CallProcessShipments => processShipments
  | CallSimulationStep => simulationStep
  | CallStartVehicleMovement routeId => startVehicleMovement routeId
  | ResetButton => resetSimulation
  end.

(** The state after a sequence of events (an exception that escapes a
    callback ends that callback only). *)
Definition run (es : list Event) (s : Sim) : Sim :=
  fold_left (fun st e => (handle e st).2) es s.

End Simulation.

(** *** Route length *)

(** The loop of [calculateRouteDistance]: [total] is [totalDistance],
    [prev] is [coords[i-1]] and [rest] holds [coords[i]] onwards.  The legs
    are added from left to right, as the loop adds them; nothing below
    regroups the sum. *)
Fixpoint routeLegs (total : R) (prev : R * R) (rest : list (R * R)) : R :=
  match rest with
  | [] => total
  | next :: rest' =>
      routeLegs (total + calculateDistance prev.1 prev.2 next.1 next.2)
                next rest'
  end.

Definition calculateRouteDistance (coords : list (R * R)) : R :=
  match coords with
  | [] => 0
  | first :: rest => routeLegs 0 first rest
  end.

(** *** Creating a vehicle marker *)

(** [createMovingMarker]: the result is the marker's position, or [None]
    for [null].  [leaflet] tells whether the calls into the map library in
    the [try] block return normally.  (A step scheduled earlier refers to
    the entry it was started for; the model finds the entry by its route,
    which is the same thing as long as no marker is created for a route
    that has a step pending.) *)
Definition createMovingMarker (leaflet : bool) (routeId vehicleType : string) :
    M (option (R * R)) :=
  found ← gets (fun s => routeCoordinates s !! routeId);
  match found with
  | None => mret None
  | Some routeCoords =>
      if (length routeCoords <? 2)%nat then mret None
      else
        route ← gets (fun s => oget routeId (routesData s)) ≫= prop_of;
        let speedKmh := speed route in
        let distance := calculateRouteDistance routeCoords in
        speedFactor ← gets simulationSpeed;
        let duration := distance / speedKmh * 3600000 / speedFactor in
        match leaflet, routeCoords with
        | true, first :: _ =>
            modify (fun s => set_movingMarkers
              (<[routeId := {| marker := first; vehicleType := vehicleType;
                               routeCoords := routeCoords;
                               duration := duration; distance := distance;
                               isMoving := false; currentPosition := 0;
                               animationId := None |}]> (movingMarkers s)) s) ;;
            mret (Some first)
        | _, _ => mret None
        end
  end.

(** *** Random departures *)

(** [updateMovingMarkers]; [random routeId] is the number [Math.random()]
    returns when the loop comes to [routeId]. *)
Definition updateMovingMarkers (random : string -> R) : M unit :=
  try_catch
    (ready ← gets theMap;
     if negb ready then mret tt
     else
       routeIds ← gets (fun s => okeys (routesData s));
       forEach routeIds (fun routeId =>
         route ← gets (fun s => oget routeId (routesData s));
         vehicle ← gets (fun s => movingMarkers s !! routeId);
         match vehicle with
         | Some v =>
             if negb (isMoving v) then
               route ← prop_of route;
               time ← gets simulationTime;
               let startChance := 1 / frequency route * (time / 3600) in
               if Rlt_dec (random routeId) (startChance * 0.5)
               then startVehicleMovement routeId
               else mret tt
             else mret tt
         | None => mret tt
         end))
    (mret tt).

(** *** The elapsed-time display and the inspector *)

(** The remainder [x % m] of two numbers: it has the sign of [x]. *)
Definition js_rem (x m : R) : R := x - m * IZR (trunc (x / m)).

(** The three numbers [updateDisplay] writes into [simTime], for the
    simulation time [t]. *)
Definition hours (t : R) : Z := floor (t / 3600).

Definition minutes (t : R) : Z := floor (js_rem t 3600 / 60).

Definition seconds (t : R) : Z := floor (js_rem t 60).

(** [inspectFacility]: the result is the number it shows as the stock
    level, in percent, before rounding to one decimal. *)
Definition inspectFacility (nodeId : string) : M R :=
  _ ← gets (fun s => nodesData s !! nodeId) ≫= prop_of;
  state ← gets (fun s => oget nodeId (nodeState s)) ≫= prop_of;
  mret (stock state / capacity state * 100).

(** * Specification vocabulary *)

(** [m] relates every state to the state it leaves behind, whether it
    completes or throws. *)
Definition respects (Rel : relation Sim) {A} (m : M A) : Prop :=
  forall s, Rel s (m s).2.

(** [m] started in a state of [P] completes, in a state of [P]. *)
Definition total (P : Sim -> Prop) {A} (m : M A) : Prop :=
  forall s, P s -> exists a s', m s = (Some a, s') /\ P s'.

(** The relation "if [P] held before, it holds after". *)
Definition keeps (P : Sim -> Prop) : relation Sim := fun s s' => P s -> P s'.

(** The relation "the projection [f] is unchanged". *)
Definition same {B} (f : Sim -> B) : relation Sim := fun s s' => f s' = f s.

(** *** Stock bounds *)

(** Every route has a non-negative capacity. *)
Definition routes_ok (s : Sim) : Prop :=
  forall routeId route,
    oget routeId (routesData s) = Some route -> 0 <= route_capacity route.

(** Every shipment still on its way has a non-negative size. *)
Definition arrivals_ok (s : Sim) : Prop :=
  forall t toNode size,
    t ∈ timers s -> timer_cb t = ArrivalCb toNode size -> 0 <= size.

(** Node [nodeId] exists, has capacity [c], and its stock is in [0, c]. *)
Definition stock_in_range (c : R) (nodeId : string) (s : Sim) : Prop :=
  exists node, oget nodeId (nodeState s) = Some node /\
               capacity node = c /\ 0 <= stock node <= c.

Definition stock_inv (c : R) (nodeId : string) (s : Sim) : Prop :=
  routes_ok s /\ arrivals_ok s /\ stock_in_range c nodeId s.

(** A step that leaves routes and node states alone and adds no shipment
    arrival to the timer queue. *)
Definition quiet : relation Sim := fun s s' =>
  routesData s' = routesData s /\ nodeState s' = nodeState s /\
  forall t, t ∈ timers s' ->
    t ∈ timers s \/ forall toNode size, timer_cb t <> ArrivalCb toNode size.

(** *** Well-formed configurations *)

(** Every node with a state has a static definition. *)
Definition nodes_configured (s : Sim) : Prop :=
  forall nodeId, nodeId ∈ okeys (nodeState s) -> is_Some (nodesData s !! nodeId).

(** Every route joins two defined nodes, and its source has a state. *)
Definition routes_configured (s : Sim) : Prop :=
  forall routeId route,
    oget routeId (routesData s) = Some route ->
    is_Some (oget (from route) (nodeState s)) /\
    is_Some (nodesData s !! from route) /\
    is_Some (nodesData s !! to route).

(** The current scenario and the three built-in ones have accumulators. *)
Definition scenarios_present (s : Sim) : Prop :=
  is_Some (oget (currentScenario s) (co2Data s)) /\
  is_Some (oget "baseline" (co2Data s)) /\
  is_Some (oget "green_rail" (co2Data s)) /\
  is_Some (oget "local_source" (co2Data s)).

Definition well_formed (s : Sim) : Prop :=
  nodes_configured s /\ routes_configured s /\ scenarios_present s.

(** *** The effect of one shipment *)

Definition shipmentSizeOf (route : Route) (source : NodeState) : R :=
  Rmin (route_capacity route) (stock source).

Definition routeDistance (a b : NodeData) : R :=
  calculateDistance (coords a).1 (coords a).2 (coords b).1 (coords b).2.

Definition emissionsOf (route : Route) (source : NodeState) (a b : NodeData) : R :=
  shipmentSizeOf route source * routeDistance a b * emission route.

(** The state [processRoute] leaves when the route ships: [source] is the
    state of the source node, [a] and [b] the definitions of the two end
    nodes and [acc] the active scenario's accumulator, all as found. *)
Definition shipped (route : Route) (source : NodeState) (a b : NodeData)
    (acc : gmap string jsval) (s : Sim) : Sim :=
  let size := shipmentSizeOf route source in
  set_nextTimer (Pos.succ (nextTimer s))
    (set_timers
       (timers s ++
        [{| timer_id := nextTimer s;
            timer_delay := routeDistance a b / speed route * 3600000;
            timer_cb := ArrivalCb (to route) size |}])
       (set_nodeState
          (oset (from route)
             (set_outbound_rate (outbound_rate source + size)
                (set_stock (stock source - size) source))
             (nodeState s))
          (set_co2Data
             (oset (currentScenario s)
                (<[vehicle route :=
                     js_add (getv acc (vehicle route))
                            (Num (emissionsOf route source a b))]> acc)
                (co2Data s))
             s))).

(** *** Frames *)

(** What a reset must not touch in a node-state entry. *)
Definition node_frame (node : NodeState) : R * R * R :=
  (capacity node, production_rate node, sales_rate node).

(** The static definitions, and of each node state its key and frame. *)
Definition static_view (s : Sim) :=
  (nodesData s, routesData s, routeCoordinates s,
   map (fun kn : string * NodeState => (kn.1, node_frame kn.2)) (nodeState s)).

(** The timer queue and the animator's state. *)
Definition animator_view (s : Sim) :=
  (timers s, nextTimer s, movingMarkers s).

(** Everything the node update and the shipment processor leave alone:
    all fields but the node states, the accumulators and the timer queue,
    and of the first two their keys. *)
Definition shape_view (s : Sim) :=
  (isPlaying s, simulationSpeed s, currentScenario s, startDate s,
   currentDate s, simulationTime s, routesData s, nodesData s,
   routeCoordinates s, movingMarkers s, scenarioComparison s, charts s,
   theMap s, windowMap s, frames s,
   okeys (nodeState s), okeys (co2Data s)).

(** *** The chart update *)

Definition timeLabelOf (s : Sim) : Z := round (simulationTime s / 86400).

Definition barsOf (acc : gmap string jsval) : list jsval :=
  [getv acc "truck"; getv acc "rail"; getv acc "air"].

(** The state [updateCharts] leaves when the day label is already listed:
    only the bar chart is redrawn. *)
Definition redrawn (acc : gmap string jsval) (s : Sim) : Sim :=
  set_charts
    {| co2Chart := barsOf acc; labels := labels (charts s);
       dataset0 := dataset0 (charts s); dataset1 := dataset1 (charts s);
       dataset2 := dataset2 (charts s) |} s.

(** The state it leaves when the label is new: [acc] is the active
    scenario's accumulator, [b], [g] and [l] those of the three built-in
    scenarios. *)
Definition snapshot (acc b g l : gmap string jsval) (s : Sim) : Sim :=
  set_charts
    {| co2Chart := barsOf acc;
       labels := labels (charts s) ++ [timeLabelOf s];
       dataset0 := dataset0 (charts s) ++ [totalEmissions b];
       dataset1 := dataset1 (charts s) ++ [totalEmissions g];
       dataset2 := dataset2 (charts s) ++ [totalEmissions l] |}
    (set_scenarioComparison
       {| baseline := baseline (scenarioComparison s) ++ [timeLabelOf s];
          green_rail := green_rail (scenarioComparison s) ++ [timeLabelOf s];
          local_source := local_source (scenarioComparison s) ++ [timeLabelOf s] |}
       s).

(** *** An example network

    A factory and a store joined by a truck route and a multimodal route,
    on 1 January 2024 (UTC), before the first tick. *)
Definition demo : Sim :=
  {| isPlaying := false;
     simulationSpeed := 1;
     currentScenario := "baseline";
     startDate := 1704067200000;
     currentDate := 1704067200000;
     simulationTime := 0;
     nodeState :=
       [("N1_SWE", {| stock := 900; capacity := 1000; production_rate := 0;
                      sales_rate := 0; inbound_rate := 0; outbound_rate := 0 |});
        ("N4_RET", {| stock := 50; capacity := 200; production_rate := 0;
                      sales_rate := 0; inbound_rate := 0; outbound_rate := 0 |})];
     routesData :=
       [("sweden_store",
         {| from := "N1_SWE"; to := "N4_RET"; vehicle := "truck";
            route_capacity := 100; speed := 80; emission := 0.1;
            frequency := 24 |});
        ("sweden_store_mm",
         {| from := "N1_SWE"; to := "N4_RET"; vehicle := "multimodal";
            route_capacity := 500; speed := 60; emission := 0.05;
            frequency := 48 |})];
     nodesData :=
       {[ "N1_SWE" := {| type := "manufacturing"; initial_stock := 500;
                         coords := (59, 18) |};
          "N4_RET" := {| type := "retail"; initial_stock := 100;
                         coords := (52, 13) |} ]};
     routeCoordinates := {[ "sweden_store" := [(59, 18); (55, 15); (52, 13)] ]};
     movingMarkers := ∅;
     co2Data := [("baseline", zeroEmissions); ("green_rail", zeroEmissions);
                 ("local_source", zeroEmissions)];
     scenarioComparison := emptyComparison;
     charts := {| co2Chart := [Num 0; Num 0; Num 0]; labels := [];
                  dataset0 := []; dataset1 := []; dataset2 := [] |};
     theMap := true;
     windowMap := true;
     timers := [];
     nextTimer := 1%positive;
     frames := 0 |}.

(** The same network mid-run: a truck is under way with its next animation
    step scheduled, and an earlier arrival is waiting for its marker
    reset. *)
Definition demo_moving : Sim :=
  set_nextTimer 3%positive
    (set_timers
       [{| timer_id := 1%positive; timer_delay := 1000;
           timer_cb := AnimateCb "sweden_store" 1000 |};
        {| timer_id := 2%positive; timer_delay := 3000;
           timer_cb := ArrivalResetCb "sweden_store" |}]
       (set_movingMarkers
          {[ "sweden_store" :=
               {| marker := (59, 18); vehicleType := "truck";
                  routeCoords := [(59, 18); (55, 15); (52, 13)];
                  duration := 2000; distance := 900; isMoving := true;
                  currentPosition := 0; animationId := Some 1%positive |} ]}
          (set_simulationTime 120 (set_isPlaying true demo)))).

(** *** The tick *)

(** The state in which a tick that goes ahead starts its node update: the
    map reference refreshed, the clock and the date advanced. *)
Definition advanced (s : Sim) : Sim :=
  let s0 := if theMap s then s else set_theMap (windowMap s) s in
  let time := simulationTime s + 1 / 60 * simulationSpeed s in
  set_currentDate (trunc (IZR (startDate s) + time * 1000))
    (set_simulationTime time s0).

(** A well-formed state with the shape of [s0]. *)
Definition settled (s0 s : Sim) : Prop :=
  well_formed s /\ shape_view s = shape_view s0.

(** The three comparison series carry the same labels. *)
Definition series_aligned (s : Sim) : Prop :=
  green_rail (scenarioComparison s) = baseline (scenarioComparison s) /\
  local_source (scenarioComparison s) = baseline (scenarioComparison s).

(** The state a chart update leaves, given the accumulators it reads. *)
Definition charted (acc b g l : gmap string jsval) (s : Sim) : Sim :=
  if bool_decide (timeLabelOf s ∈ baseline (scenarioComparison s))
  then redrawn acc s else snapshot acc b g l s.

(** The example network with the simulation playing. *)
Definition demo_playing : Sim := set_isPlaying true demo.


(** *** Geometry *)

(** The quantity [a] of [calculateDistance]. *)
Definition haversine_a (lat1 lon1 lat2 lon2 : R) : R :=
  sin ((lat2 - lat1) * PI / 180 / 2) * sin ((lat2 - lat1) * PI / 180 / 2) +
  cos (lat1 * PI / 180) * cos (lat2 * PI / 180) *
  sin ((lon2 - lon1) * PI / 180 / 2) * sin ((lon2 - lon1) * PI / 180 / 2).


(** *** The node update in closed form *)

(** The entry [updateNode] leaves in place of [node], for a node named
    [nodeId] of definition [data], under scenario [sc]. *)
Definition updatedNode (multiplier : R) (sc nodeId : string) (data : NodeData)
    (node : NodeState) : NodeState :=
  let n1 :=
    if decide (type data = "manufacturing") then
      set_stock (Rmin (capacity node) (stock node + 50 * multiplier / 3600))
        (set_production_rate (50 * multiplier) node)
    else node in
  let n2 :=
    if decide (type data = "retail") then
      set_stock (Rmax 0 (stock n1 - 20 * multiplier / 3600))
        (set_sales_rate (20 * multiplier) n1)
    else n1 in
  let n3 := set_outbound_rate 0 (set_inbound_rate 0 n2) in
  if decide (sc = "green_rail") then n3
  else if decide (sc = "local_source") then
    let n4 := if decide (nodeId = "N1_SWE") then set_production_rate 0 n3
              else n3 in
    if decide (nodeId = "N5_FAC")
    then set_production_rate (production_rate n4 * 1.5) n4 else n4
  else n3.

(** The node states [updateNodeStates] leaves: every entry that has a
    definition is updated in place. *)
Definition updatedNodes (multiplier : R) (sc : string)
    (defs : gmap string NodeData) (nodes : obj NodeState) : obj NodeState :=
  map (fun kn : string * NodeState =>
         (kn.1, match defs !! kn.1 with
                | Some data => updatedNode multiplier sc kn.1 data kn.2
                | None => kn.2
                end)) nodes.

(** The stock [updateNode] leaves in a node of definition [data]: a
    function of the stock and the capacity found, not of the rates found
    nor of the scenario. *)
Definition updatedStock (multiplier : R) (data : NodeData) (node : NodeState) : R :=
  let produced :=
    if decide (type data = "manufacturing")
    then Rmin (capacity node) (stock node + 50 * multiplier / 3600)
    else stock node in
  if decide (type data = "retail")
  then Rmax 0 (produced - 20 * multiplier / 3600) else produced.

(** What the stocks of later node updates depend on: the definitions, the
    date, and of each node its key, stock and capacity. *)
Definition stock_view (s : Sim) :=
  (nodesData s, currentDate s,
   map (fun kn : string * NodeState => (kn.1, stock kn.2, capacity kn.2))
       (nodeState s)).

(** One node update after each choice in the scenario selector. *)
Definition updatesUnder (scs : list string) : list Event :=
  flat_map (fun sc => [SetScenario sc; CallUpdateNodeStates]) scs.

(** *** The animator *)

(** Every pending animation step belongs to a moving vehicle and is the
    one recorded in its [animationId]. *)
Definition steps_owned (s : Sim) : Prop :=
  forall t routeId stepDuration,
    t ∈ timers s -> timer_cb t = AnimateCb routeId stepDuration ->
    exists v, movingMarkers s !! routeId = Some v /\ isMoving v = true /\
              animationId v = Some (timer_id t).

(** A step that leaves the vehicles alone and only adds shipment arrivals
    at the end of the timer queue. *)
Definition ships_only : relation Sim := fun s s' =>
  movingMarkers s' = movingMarkers s /\
  exists new,
    timers s' = timers s ++ new /\
    Forall (fun t => exists toNode size, timer_cb t = ArrivalCb toNode size) new.

(** No handle in the queue is one that [setTimeout] has yet to give out. *)
Definition timers_fresh (s : Sim) : Prop :=
  forall t, t ∈ timers s -> (timer_id t < nextTimer s)%positive.

(** The pending animation step of the vehicle on [routeId] expires. *)
Definition stepVehicle (routeId : string) : M unit :=
  vehicle ← gets (fun s => movingMarkers s !! routeId);
  match vehicle with
  | Some v =>
      match animationId v with
      | Some id => fireTimer id
      | None => mret tt
      end
  | None => mret tt
  end.

(** The vehicle on [routeId] is under way along [coords], at waypoint
    [p], and its next step is due after [stepDuration]. *)
Definition en_route (routeId : string) (coords : list (R * R))
    (stepDuration : R) (p : nat) (s : Sim) : Prop :=
  timers_fresh s /\ steps_owned s /\
  exists v id,
    movingMarkers s !! routeId = Some v /\
    routeCoords v = coords /\ isMoving v = true /\ currentPosition v = p /\
    coords !! p = Some (marker v) /\ animationId v = Some id /\
    find (fun t => bool_decide (timer_id t = id)) (timers s) =
      Some {| timer_id := id; timer_delay := stepDuration;
              timer_cb := AnimateCb routeId stepDuration |}.

(** The vehicle has run off the end of [coords]: it stands on the last
    waypoint and its marker reset is due in 3 seconds. *)
Definition arrived (routeId : string) (coords : list (R * R)) (s : Sim) : Prop :=
  exists v t,
    movingMarkers s !! routeId = Some v /\
    routeCoords v = coords /\ isMoving v = false /\
    currentPosition v = length coords /\
    last coords = Some (marker v) /\
    t ∈ timers s /\ timer_cb t = ArrivalResetCb routeId /\
    timer_delay t = 3000 /\
    forall t' d, t' ∈ timers s -> timer_cb t' <> AnimateCb routeId d.

(** The state after [startVehicleMovement] and [k] animation steps. *)
Definition driven (routeId : string) (k : nat) (s : Sim) : Sim :=
  Nat.iter k (fun st => (stepVehicle routeId st).2)
    (startVehicleMovement routeId s).2.

(** The example network with a truck parked at the start of its route. *)
Definition demo_parked : Sim :=
  set_movingMarkers
    {[ "sweden_store" :=
         {| marker := (59, 18); vehicleType := "truck";
            routeCoords := [(59, 18); (55, 15); (52, 13)];
            duration := 2000; distance := 900; isMoving := false;
            currentPosition := 0; animationId := None |} ]}
    demo.

(** *** Scenarios *)

(** The active scenario stays the same, and the accumulator of scenario
    [sc] is left alone unless [sc] is the active one. *)
Definition others_kept (sc : string) : relation Sim := fun s s' =>
  currentScenario s' = currentScenario s /\
  (sc <> currentScenario s -> oget sc (co2Data s') = oget sc (co2Data s)).

(** The example network when the store was given a definition but no
    state. *)
Definition demo_orphan : Sim :=
  set_nodeState
    [("N1_SWE", {| stock := 900; capacity := 1000; production_rate := 0;
                   sales_rate := 0; inbound_rate := 0; outbound_rate := 0 |})]
    demo.

(** *** The frame loop *)

(** The simulation is playing, a map can be found and the configuration
    is well formed: a tick goes through. *)
Definition running (s : Sim) : Prop :=
  isPlaying s = true /\ (theMap s = true \/ windowMap s = true) /\
  well_formed s.

(** A tick does nothing: the simulation is paused, or no map can be
    found. *)
Definition stalled (s : Sim) : Prop :=
  isPlaying s = false \/ (theMap s = false /\ windowMap s = false).

(** Everything but the entries of the node states. *)
Definition node_update_view (s : Sim) :=
  (shape_view s, timers s, nextTimer s, co2Data s).

(** The example network, playing, after a node was given a state but no
    definition. *)
Definition demo_undefined : Sim :=
  set_nodeState
    (nodeState demo ++
     [("N9_NEW", {| stock := 0; capacity := 10; production_rate := 0;
                    sales_rate := 0; inbound_rate := 0; outbound_rate := 0 |})])
    demo_playing.

(** *** Vehicles under way *)

(** Every vehicle that was moving is exactly as it was. *)
Definition under_way_kept : relation Sim := fun s s' =>
  forall routeId v,
    movingMarkers s !! routeId = Some v -> isMoving v = true ->
    movingMarkers s' !! routeId = Some v.

(** *** The clock *)

(** The date is the start date plus the elapsed simulation time. *)
Definition date_synced (s : Sim) : Prop :=
  currentDate s = trunc (IZR (startDate s) + simulationTime s * 1000).

Definition clock_view (s : Sim) := (startDate s, currentDate s, simulationTime s).

(** *** Cumulative emissions *)

(** [b] continues [a]: a number has not decreased and [NaN] is still
    [NaN]. *)
Definition no_less (a b : jsval) : Prop :=
  match a with
  | Num x => exists y, b = Num y /\ x <= y
  | NaN => b = NaN
  | Undefined => True
  end.

(** What a shipment adds to an accumulator is not negative: the capacities
    and emission factors of the routes are non-negative. *)
Definition emissions_ok (s : Sim) : Prop :=
  forall routeId route,
    oget routeId (routesData s) = Some route ->
    0 <= route_capacity route /\ 0 <= emission route.

(** Every slot of every accumulator continues what it held. *)
Definition emissions_grow : relation Sim := fun s s' =>
  emissions_ok s ->
  emissions_ok s' /\
  forall sc acc key v,
    oget sc (co2Data s) = Some acc -> acc !! key = Some v ->
    exists acc' v',
      oget sc (co2Data s') = Some acc' /\ acc' !! key = Some v' /\
      no_less v v'.

(** What the emissions depend on. *)
Definition emissions_view (s : Sim) := (routesData s, nodesData s, co2Data s).

(** *** The line chart *)

(** The line chart has a value in each of its three data sets for every
    label, the three comparison series carry the same labels, and the three
    built-in scenarios have accumulators. *)
Definition chart_sound (s : Sim) : Prop :=
  length (dataset0 (charts s)) = length (labels (charts s)) /\
  length (dataset1 (charts s)) = length (labels (charts s)) /\
  length (dataset2 (charts s)) = length (labels (charts s)) /\
  series_aligned s /\
  "baseline" ∈ okeys (co2Data s) /\
  "green_rail" ∈ okeys (co2Data s) /\
  "local_source" ∈ okeys (co2Data s).

(** What the soundness of the chart depends on. *)
Definition chart_view (s : Sim) :=
  (charts s, scenarioComparison s, okeys (co2Data s)).

(** The example network with a shipment of 100 units on its way to the
    store. *)
Definition demo_in_flight : Sim :=
  set_nextTimer 2%positive
    (set_timers
       [{| timer_id := 1%positive; timer_delay := 1000;
           timer_cb := ArrivalCb "N4_RET" 100 |}]
       demo).

(** *** The sum a chart snapshot records *)

(** The sum of the truck, rail and air totals of an accumulator, written
    out: the sum of the three numbers, and [NaN] as soon as one of the
    three slots is missing or does not hold a number. *)
Definition vehicleSum (acc : gmap string jsval) : jsval :=
  match acc !! "truck", acc !! "rail", acc !! "air" with
  | Some (Num x), Some (Num y), Some (Num z) => Num (x + y + z)
  | _, _, _ => NaN
  end.

(** The example network, playing, with [green_rail] the active scenario
    and 5 units of truck emissions recorded for the baseline. *)
Definition demo_emitting : Sim :=
  set_currentScenario "green_rail"
    (set_co2Data
       [("baseline", <["truck" := Num 5]> zeroEmissions);
        ("green_rail", zeroEmissions);
        ("local_source", zeroEmissions)]
       demo_playing).

(** *** Stock bounds across a reset *)

(** The configured initial stock of the node, where it has a definition,
    lies within [0, c]. *)
Definition initial_ok (c : R) (nodeId : string) (s : Sim) : Prop :=
  forall data, nodesData s !! nodeId = Some data -> 0 <= initial_stock data <= c.

Definition bounds_inv (c : R) (nodeId : string) (s : Sim) : Prop :=
  stock_inv c nodeId s /\ initial_ok c nodeId s.

(** The page's configuration fills [routesData] and [nodesData] before the
    simulation starts; the two setters build example configurations. *)
Definition set_routesData (v : obj Route) (s : Sim) : Sim :=
  {| isPlaying := isPlaying s; simulationSpeed := simulationSpeed s;
     currentScenario := currentScenario s; startDate := startDate s;
     currentDate := currentDate s; simulationTime := simulationTime s;
     nodeState := nodeState s; routesData := v; nodesData := nodesData s;
     routeCoordinates := routeCoordinates s;
     movingMarkers := movingMarkers s; co2Data := co2Data s;
     scenarioComparison := scenarioComparison s; charts := charts s;
     theMap := theMap s; windowMap := windowMap s; timers := timers s;
     nextTimer := nextTimer s; frames := frames s |}.

Definition set_nodesData (v : gmap string NodeData) (s : Sim) : Sim :=
  {| isPlaying := isPlaying s; simulationSpeed := simulationSpeed s;
     currentScenario := currentScenario s; startDate := startDate s;
     currentDate := currentDate s; simulationTime := simulationTime s;
     nodeState := nodeState s; routesData := routesData s; nodesData := v;
     routeCoordinates := routeCoordinates s;
     movingMarkers := movingMarkers s; co2Data := co2Data s;
     scenarioComparison := scenarioComparison s; charts := charts s;
     theMap := theMap s; windowMap := windowMap s; timers := timers s;
     nextTimer := nextTimer s; frames := frames s |}.

(** The example network with the factory at 950 of 1000 units and a single
    route, whose capacity is negative. *)
Definition demo_returns : Sim :=
  set_routesData
    [("returns",
      {| from := "N1_SWE"; to := "N4_RET"; vehicle := "truck";
         route_capacity := -100; speed := 80; emission := 0.1;
         frequency := 24 |})]
    (set_nodeState
       [("N1_SWE", {| stock := 950; capacity := 1000; production_rate := 0;
                      sales_rate := 0; inbound_rate := 0; outbound_rate := 0 |});
        ("N4_RET", {| stock := 50; capacity := 200; production_rate := 0;
                      sales_rate := 0; inbound_rate := 0; outbound_rate := 0 |})]
       demo).

(** The example network with a factory whose configured initial stock,
    5000, is above its capacity, 1000. *)
Definition demo_overfull : Sim :=
  set_nodesData
    {[ "N1_SWE" := {| type := "manufacturing"; initial_stock := 5000;
                      coords := (59, 18) |};
       "N4_RET" := {| type := "retail"; initial_stock := 100;
                      coords := (52, 13) |} ]}
    demo.

(** ** [calculateDistance] in double precision *)

(** The same function on binary64 numbers, statement for statement.  The
    arithmetic and [Math.sqrt] are those of IEEE 754; [Math.sin],
    [Math.cos] and [Math.atan2] are the host's. *)
Module Doubles.
Import PrimFloat.

Definition Math_PI : float := 0x1.921fb54442d18p+1%float.

Section Host.

Variable Math_sin Math_cos : float -> float.
Variable Math_atan2 : float -> float -> float.

Definition calculateDistance (lat1 lon1 lat2 lon2 : float) : float :=
  let R_ := 6371%float in
  let dLat := ((lat2 - lat1) * Math_PI / 180)%float in
  let dLon := ((lon2 - lon1) * Math_PI / 180)%float in
  let a := (Math_sin (dLat / 2) * Math_sin (dLat / 2) +
            Math_cos (lat1 * Math_PI / 180) * Math_cos (lat2 * Math_PI / 180) *
            Math_sin (dLon / 2) * Math_sin (dLon / 2))%float in
  let c := (2 * Math_atan2 (sqrt a) (sqrt (sqrt (1 - a))))%float in
  (R_ * c)%float.

(** What the example below needs of the host: the correctly rounded sine
    and cosine of 8 degrees and of a quarter turn,
    [sin 0.13962634015954636 = 0.13917310096006544],
    [cos 0.13962634015954636 = 0.9902680687415704] and
    [sin 1.5707963267948966 = 1], with the sine odd and the cosine even
    there, and a [Math.atan2] that returns [NaN] for a [NaN] argument, as
    the language requires. *)
Definition host_rounds_correctly : Prop :=
  Math_sin 0x1.1df46a2529d39p-3%float = 0x1.1d06c968d9e19p-3%float /\
  Math_sin (-0x1.1df46a2529d39p-3)%float = (-0x1.1d06c968d9e19p-3)%float /\
  Math_sin 0x1.921fb54442d18p+0%float = 1%float /\
  Math_sin (-0x1.921fb54442d18p+0)%float = (-1)%float /\
  Math_cos 0x1.1df46a2529d39p-3%float = 0x1.fb046a930947ap-1%float /\
  Math_cos (-0x1.1df46a2529d39p-3)%float = 0x1.fb046a930947ap-1%float /\
  (forall y, Math_atan2 y nan = nan).

End Host.

(** A host given by a table: the values above, and [NaN] elsewhere. *)
Definition table_sin (x : float) : float :=
  if (x =? 0x1.1df46a2529d39p-3)%float then 0x1.1d06c968d9e19p-3%float
  else if (x =? -0x1.1df46a2529d39p-3)%float then (-0x1.1d06c968d9e19p-3)%float
  else if (x =? 0x1.921fb54442d18p+0)%float then 1%float
  else if (x =? -0x1.921fb54442d18p+0)%float then (-1)%float
  else nan.

Definition table_cos (x : float) : float :=
  if (abs x =? 0x1.1df46a2529d39p-3)%float then 0x1.fb046a930947ap-1%float
  else nan.

Definition table_atan2 (y x : float) : float :=
  if (y =? 0)%float && (0 <? x)%float then 0%float else nan.

(** Eight degrees south on the date line, and its antipode. *)
Definition south : float * float := ((-8)%float, (-180)%float).
Definition north : float * float := (8%float, 0%float).

End Doubles.

(** * Proofs *)

(** ** Objects *)

Lemma oget_oset_eq {V} k (v : V) o : oget k (oset k v o) = Some v.
Proof.
  induction o as [|[k' v'] o IH]; simpl.
  - by rewrite decide_True.
  - destruct (decide (k' = k)) as [->|Hne]; simpl.
    + by rewrite decide_True.
    + by rewrite decide_False.
Qed.

Lemma oget_oset_ne {V} k k' (v : V) o :
  k <> k' -> oget k' (oset k v o) = oget k' o.
Proof.
  intros Hne. induction o as [|[k0 v0] o IH]; simpl.
  - by rewrite decide_False.
  - destruct (decide (k0 = k)) as [->|Hne0]; simpl.
    + by rewrite !decide_False.
    + by destruct (decide (k0 = k')).
Qed.

Lemma oget_oset {V} k k' (v : V) o :
  oget k' (oset k v o) = if decide (k = k') then Some v else oget k' o.
Proof.
  destruct (decide (k = k')) as [->|?];
    [apply oget_oset_eq | by apply oget_oset_ne].
Qed.

Lemma oset_oset {V} k (v1 v2 : V) o : oset k v2 (oset k v1 o) = oset k v2 o.
Proof.
  induction o as [|[k' v'] o IH]; simpl.
  - by rewrite decide_True.
  - destruct (decide (k' = k)) as [->|Hne]; simpl.
    + by rewrite decide_True.
    + by rewrite decide_False, IH.
Qed.

Lemma okeys_oset {V} k (v v' : V) o :
  oget k o = Some v' -> okeys (oset k v o) = okeys o.
Proof.
  induction o as [|[k0 v0] o IH]; simpl; [done|].
  destruct (decide (k0 = k)) as [->|Hne]; simpl; [done|].
  intros H. by rewrite (IH H).
Qed.

Lemma oget_is_Some {V} k (o : obj V) : is_Some (oget k o) <-> k ∈ okeys o.
Proof.
  unfold okeys. induction o as [|[k0 v0] o IH]; simpl.
  - split; [by intros [? ?] | by intros ?%elem_of_nil].
  - rewrite elem_of_cons. destruct (decide (k0 = k)) as [->|Hne].
    + split; [by left | by eexists].
    + rewrite IH. split; [by right | by intros [?|?]].
Qed.

(** ** Running the effects *)

Lemma run_bind {A B} (m : M A) (k : A -> M B) s :
  (m ≫= k) s = match m s with
               | (Some a, s') => k a s'
               | (None, s') => (None, s')
               end.
Proof. reflexivity. Qed.

Lemma run_gets {A B} (f : Sim -> A) (k : A -> M B) s :
  (gets f ≫= k) s = k (f s) s.
Proof. reflexivity. Qed.

Lemma run_modify {B} (f : Sim -> Sim) (k : unit -> M B) s :
  (modify f ≫= k) s = k tt (f s).
Proof. reflexivity. Qed.

Lemma run_ret {A B} (a : A) (k : A -> M B) s : (mret a ≫= k) s = k a s.
Proof. reflexivity. Qed.

Lemma run_read {A B} (f : Sim -> option A) (k : A -> M B) s a :
  f s = Some a -> ((gets f ≫= prop_of) ≫= k) s = k a s.
Proof. intros H. unfold mbind, M_bind, gets, prop_of. by rewrite H. Qed.

Lemma run_read_fail {A B} (f : Sim -> option A) (k : A -> M B) s :
  f s = None -> ((gets f ≫= prop_of) ≫= k) s = (None, s).
Proof. intros H. unfold mbind, M_bind, gets, prop_of. by rewrite H. Qed.

Lemma bind_twice {A B C} (m : M A) (k : A -> M B) (h : B -> M C) s :
  ((m ≫= k) ≫= h) s = (m ≫= fun a => k a ≫= h) s.
Proof. rewrite !run_bind. by destruct (m s) as [[a|] s']. Qed.

Lemma run_assignNode nodeId f s node :
  oget nodeId (nodeState s) = Some node ->
  assignNode nodeId f s =
  (Some tt, set_nodeState (oset nodeId (f node) (nodeState s)) s).
Proof. intros H. unfold assignNode. by rewrite (run_read _ _ _ _ H). Qed.

Lemma run_assignNode_fail nodeId f s :
  oget nodeId (nodeState s) = None -> assignNode nodeId f s = (None, s).
Proof. intros H. unfold assignNode. by rewrite (run_read_fail _ _ _ H). Qed.

Lemma run_assignNode_twice nodeId f g s :
  (assignNode nodeId f ;; assignNode nodeId g) s =
  assignNode nodeId (fun node => g (f node)) s.
Proof.
  rewrite run_bind. destruct (oget nodeId (nodeState s)) as [node|] eqn:H.
  - rewrite (run_assignNode _ _ _ _ H).
    rewrite (run_assignNode nodeId g _ (f node)) by (simpl; apply oget_oset_eq).
    rewrite (run_assignNode _ _ _ _ H). simpl. by rewrite oset_oset.
  - by rewrite !(run_assignNode_fail _ _ _ H).
Qed.

(** ** Relations that every step respects *)

Section Respects.

Context (Rel : relation Sim) `{!PreOrder Rel}.

Lemma respects_ret {A} (a : A) : respects Rel (mret a).
Proof. intros s. simpl. reflexivity. Qed.

Lemma respects_gets {A} (f : Sim -> A) : respects Rel (gets f).
Proof. intros s. simpl. reflexivity. Qed.

Lemma respects_prop_of {A} (o : option A) : respects Rel (prop_of o).
Proof. intros s. unfold prop_of. destruct o; simpl; reflexivity. Qed.

Lemma respects_modify f : (forall s, Rel s (f s)) -> respects Rel (modify f).
Proof. intros H s. apply H. Qed.

Lemma respects_bind {A B} (m : M A) (k : A -> M B) :
  respects Rel m -> (forall a, respects Rel (k a)) -> respects Rel (m ≫= k).
Proof.
  intros Hm Hk s. rewrite run_bind. specialize (Hm s).
  destruct (m s) as [[a|] s']; simpl in *; [|done].
  etransitivity; [exact Hm | apply Hk].
Qed.

Lemma respects_read {A} (f : Sim -> option A) :
  respects Rel (gets f ≫= prop_of).
Proof. apply respects_bind; [apply respects_gets | apply respects_prop_of]. Qed.

Lemma respects_forEach ks f :
  (forall k, respects Rel (f k)) -> respects Rel (forEach ks f).
Proof.
  intros Hf. induction ks as [|k ks IH]; simpl.
  - apply respects_ret.
  - apply respects_bind; [apply Hf | intros _; exact IH].
Qed.

Lemma respects_try_catch body handler :
  respects Rel body -> respects Rel handler ->
  respects Rel (try_catch body handler).
Proof.
  intros Hb Hh s. unfold try_catch. specialize (Hb s).
  destruct (body s) as [[a|] s']; simpl in *; [done|].
  etransitivity; [exact Hb | apply Hh].
Qed.

Lemma respects_assignNode nodeId f :
  (forall s node, oget nodeId (nodeState s) = Some node ->
                  Rel s (set_nodeState (oset nodeId (f node) (nodeState s)) s)) ->
  respects Rel (assignNode nodeId f).
Proof.
  intros H s. destruct (oget nodeId (nodeState s)) as [node|] eqn:Hn.
  - rewrite (run_assignNode _ _ _ _ Hn). simpl. by apply H.
  - rewrite (run_assignNode_fail _ _ _ Hn). simpl. reflexivity.
Qed.

Lemma respects_assignVehicle routeId f :
  (forall s v, Rel s (set_movingMarkers (<[routeId := v]> (movingMarkers s)) s)) ->
  respects Rel (assignVehicle routeId f).
Proof.
  intros H. unfold assignVehicle.
  apply respects_bind; [apply respects_read|].
  intros v. apply respects_modify. intros s. apply H.
Qed.

End Respects.

#[export] Instance keeps_preorder P : PreOrder (keeps P).
Proof. split; unfold keeps; [by intros s | by intros s1 s2 s3 H1 H2 H; auto]. Qed.

#[export] Instance same_preorder {B} (f : Sim -> B) : PreOrder (same f).
Proof.
  split; unfold same; [by intros s | intros s1 s2 s3 H1 H2; congruence].
Qed.

#[export] Instance quiet_preorder : PreOrder quiet.
Proof.
  split.
  - intros s. unfold quiet. auto.
  - intros s1 s2 s3 (Hr1 & Hn1 & Ht1) (Hr2 & Hn2 & Ht2). unfold quiet.
    split; [congruence|]. split; [congruence|].
    intros t Ht. destruct (Ht2 t Ht) as [H|H]; [by apply Ht1 | by right].
Qed.

Lemma respects_weaken (R1 R2 : relation Sim) {A} (m : M A) :
  (forall s s', R1 s s' -> R2 s s') -> respects R1 m -> respects R2 m.
Proof. intros H Hm s. apply H, Hm. Qed.

(** Decomposing a method along its control structure. *)
Ltac respect_step :=
  lazymatch goal with
  | |- respects _ (mret _) => apply respects_ret; apply _
  | |- respects _ (gets _ ≫= prop_of) => apply respects_read; apply _
  | |- respects _ (assignNode ?i _ ≫= (fun _ => assignNode ?i _)) =>
      let s := fresh "s" in
      intros s; rewrite run_assignNode_twice; revert s
  | |- respects _ (_ ≫= _) =>
      apply respects_bind; [try apply _ .. | intros ?]
  | |- respects _ (gets _) => apply respects_gets; apply _
  | |- respects _ (prop_of _) => apply respects_prop_of; apply _
  | |- respects _ (forEach _ _) =>
      apply respects_forEach; [try apply _ .. | intros ?; cbv beta]
  | |- respects _ (try_catch _ _) => apply respects_try_catch; try apply _
  | |- respects _ (modify _) =>
      apply respects_modify; [try apply _ .. | intros ?]
  | |- respects _ (if ?b then _ else _) => destruct b
  | |- respects _ (match ?x with _ => _ end) => destruct x
  end.

Ltac respect := repeat respect_step.

(** ** Quiet steps: the animator, the charts and the controls *)

Lemma quiet_fields s s' :
  routesData s' = routesData s -> nodeState s' = nodeState s ->
  timers s' = timers s -> quiet s s'.
Proof. intros H1 H2 H3. unfold quiet. rewrite H1, H2, H3. auto. Qed.

Lemma quiet_assignVehicle routeId f : respects quiet (assignVehicle routeId f).
Proof.
  apply respects_assignVehicle; [try apply _ .. |].
  intros s v. by apply quiet_fields.
Qed.

Lemma quiet_clearTimeout id : respects quiet (clearTimeout id).
Proof.
  intros s. simpl. split; [done|]. split; [done|].
  intros t Ht. left. simpl in Ht. by apply list_elem_of_filter in Ht as [_ ?].
Qed.

Lemma quiet_setTimeout cb delay :
  (forall toNode size, cb <> ArrivalCb toNode size) ->
  respects quiet (setTimeout cb delay).
Proof.
  intros Hcb s. simpl. split; [done|]. split; [done|].
  intros t Ht. simpl in Ht. apply elem_of_app in Ht as [Ht|Ht]; [by left|].
  apply list_elem_of_singleton in Ht as ->. by right.
Qed.

Lemma quiet_onVehicleArrival routeId : respects quiet (onVehicleArrival routeId).
Proof.
  unfold onVehicleArrival. respect; try apply quiet_assignVehicle.
  by apply quiet_setTimeout.
Qed.

Lemma quiet_resetVehiclePosition routeId :
  respects quiet (resetVehiclePosition routeId).
Proof.
  unfold resetVehiclePosition.
  respect; try apply quiet_assignVehicle; apply quiet_clearTimeout.
Qed.

Lemma quiet_animate routeId stepDuration :
  respects quiet (animate routeId stepDuration).
Proof.
  unfold animate. respect; try apply quiet_assignVehicle.
  - apply quiet_onVehicleArrival.
  - by apply quiet_setTimeout.
Qed.

Lemma quiet_startVehicleMovement routeId :
  respects quiet (startVehicleMovement routeId).
Proof.
  unfold startVehicleMovement. respect; try apply quiet_assignVehicle.
  apply quiet_animate.
Qed.

Lemma quiet_updateCharts : respects quiet updateCharts.
Proof.
  unfold updateCharts.
  respect; by apply quiet_fields.
Qed.

Lemma quiet_updateDisplay : respects quiet updateDisplay.
Proof. unfold updateDisplay. respect. Qed.

Lemma quiet_requestAnimationFrame : respects quiet requestAnimationFrame.
Proof. unfold requestAnimationFrame. respect. by apply quiet_fields. Qed.

(** ** One route of the shipment processor *)

Lemma processRoute_ships routeId route source a b acc s :
  oget routeId (routesData s) = Some route ->
  oget (from route) (nodeState s) = Some source ->
  route_capacity route * 0.8 < stock source ->
  nodesData s !! from route = Some a ->
  nodesData s !! to route = Some b ->
  oget (currentScenario s) (co2Data s) = Some acc ->
  processRoute routeId s = (Some tt, shipped route source a b acc s).
Proof.
  intros Hr Hs Hlt Ha Hb Hacc. unfold processRoute.
  rewrite (run_read (fun s => oget routeId (routesData s)) _ _ _ Hr).
  rewrite (run_read (fun s => oget (from route) (nodeState s)) _ _ _ Hs).
  destruct (Rlt_dec _ _) as [_|Hn]; [|contradiction].
  rewrite (run_read (fun s => nodesData s !! from route) _ _ _ Ha).
  rewrite (run_read (fun s => nodesData s !! to route) _ _ _ Hb).
  rewrite run_gets.
  rewrite (run_read (fun s0 => oget (currentScenario s) (co2Data s0)) _ _ _ Hacc).
  rewrite run_modify, <- bind_twice, run_bind.
  rewrite (run_assignNode_twice (from route)).
  rewrite (run_assignNode _ _ _ source) by (simpl; exact Hs).
  reflexivity.
Qed.

Lemma processRoute_waits routeId route source s :
  oget routeId (routesData s) = Some route ->
  oget (from route) (nodeState s) = Some source ->
  ~ route_capacity route * 0.8 < stock source ->
  processRoute routeId s = (Some tt, s).
Proof.
  intros Hr Hs Hlt. unfold processRoute.
  rewrite (run_read (fun s => oget routeId (routesData s)) _ _ _ Hr).
  rewrite (run_read (fun s => oget (from route) (nodeState s)) _ _ _ Hs).
  by destruct (Rlt_dec _ _).
Qed.

(** Whatever happens, the route either leaves the state as it found it or
    ships. *)
Lemma processRoute_cases routeId s :
  (processRoute routeId s).2 = s \/
  exists route source a b acc,
    oget routeId (routesData s) = Some route /\
    oget (from route) (nodeState s) = Some source /\
    route_capacity route * 0.8 < stock source /\
    nodesData s !! from route = Some a /\
    nodesData s !! to route = Some b /\
    oget (currentScenario s) (co2Data s) = Some acc /\
    processRoute routeId s = (Some tt, shipped route source a b acc s).
Proof.
  destruct (oget routeId (routesData s)) as [route|] eqn:Hr; last first.
  { left. unfold processRoute.
    by rewrite (run_read_fail (fun s => oget routeId (routesData s)) _ _ Hr). }
  destruct (oget (from route) (nodeState s)) as [source|] eqn:Hs; last first.
  { left. unfold processRoute.
    rewrite (run_read (fun s => oget routeId (routesData s)) _ _ _ Hr).
    by rewrite (run_read_fail (fun s => oget (from route) (nodeState s)) _ _ Hs). }
  destruct (Rlt_dec (route_capacity route * 0.8) (stock source)) as [Hlt|Hlt];
    last first.
  { left. by rewrite (processRoute_waits _ _ _ _ Hr Hs Hlt). }
  destruct (nodesData s !! from route) as [a|] eqn:Ha; last first.
  { left. unfold processRoute.
    rewrite (run_read (fun s => oget routeId (routesData s)) _ _ _ Hr).
    rewrite (run_read (fun s => oget (from route) (nodeState s)) _ _ _ Hs).
    destruct (Rlt_dec _ _); [|done].
    by rewrite (run_read_fail (fun s => nodesData s !! from route) _ _ Ha). }
  destruct (nodesData s !! to route) as [b|] eqn:Hb; last first.
  { left. unfold processRoute.
    rewrite (run_read (fun s => oget routeId (routesData s)) _ _ _ Hr).
    rewrite (run_read (fun s => oget (from route) (nodeState s)) _ _ _ Hs).
    destruct (Rlt_dec _ _); [|done].
    rewrite (run_read (fun s => nodesData s !! from route) _ _ _ Ha).
    by rewrite (run_read_fail (fun s => nodesData s !! to route) _ _ Hb). }
  destruct (oget (currentScenario s) (co2Data s)) as [acc|] eqn:Hacc; last first.
  { left. unfold processRoute.
    rewrite (run_read (fun s => oget routeId (routesData s)) _ _ _ Hr).
    rewrite (run_read (fun s => oget (from route) (nodeState s)) _ _ _ Hs).
    destruct (Rlt_dec _ _); [|done].
    rewrite (run_read (fun s => nodesData s !! from route) _ _ _ Ha).
    rewrite (run_read (fun s => nodesData s !! to route) _ _ _ Hb).
    rewrite run_gets.
    by rewrite (run_read_fail
                  (fun s0 => oget (currentScenario s) (co2Data s0)) _ _ Hacc). }
  right. exists route, source, a, b, acc.
  repeat split; try done. by apply processRoute_ships.
Qed.

(** ** Stock stays within [0, capacity] *)

Section StockBounds.

Variable getMonth : Z -> Z.
Variable c : R.
Variable nodeId : string.

Lemma quiet_keeps_stock s s' : quiet s s' -> keeps (stock_inv c nodeId) s s'.
Proof.
  intros (Hr & Hn & Ht) (Hroutes & Harr & Hstock).
  unfold stock_inv, routes_ok, arrivals_ok, stock_in_range.
  rewrite Hr, Hn. split; [done|]. split; [|done].
  intros t toNode size Hin Hcb.
  destruct (Ht t Hin) as [Hold|Hnew]; [by eapply Harr | by destruct (Hnew toNode size)].
Qed.

Lemma quiet_respects_stock {A} (m : M A) :
  respects quiet m -> respects (keeps (stock_inv c nodeId)) m.
Proof. apply respects_weaken, quiet_keeps_stock. Qed.

(** An assignment to a node that keeps its capacity and maps a stock within
    bounds to a stock within bounds. *)
Lemma assignNode_keeps_stock id f :
  (forall node, 0 <= stock node <= capacity node ->
                capacity (f node) = capacity node /\
                0 <= stock (f node) <= capacity node) ->
  respects (keeps (stock_inv c nodeId)) (assignNode id f).
Proof.
  intros Hf. apply respects_assignNode; [apply _|].
  intros s node Hnode (Hroutes & Harr & n & Hn & Hc & Hs).
  split; [done|]. split; [done|]. unfold stock_in_range. simpl.
  rewrite oget_oset. destruct (decide (id = nodeId)) as [->|Hne].
  - rewrite Hn in Hnode. injection Hnode as <-.
    destruct (Hf n) as [Hc' Hs']; [by rewrite Hc|].
    exists (f n). split; [done|]. rewrite Hc'.
    split; [done|]. by rewrite <- Hc.
  - by exists n.
Qed.

Lemma multiplier_nonneg date : 0 <= getSeasonalityMultiplier getMonth date.
Proof.
  unfold getSeasonalityMultiplier. cbv zeta.
  repeat (match goal with |- context [if ?b then _ else _] => destruct b end);
    lra.
Qed.

Lemma updateScenarioRates_keeps_stock id :
  respects (keeps (stock_inv c nodeId)) (updateScenarioRates id).
Proof.
  unfold updateScenarioRates.
  respect; try (apply assignNode_keeps_stock; intros node Hs; by simpl).
Qed.

(** The node update: manufacturing stock is clamped above by the capacity,
    retail stock below by zero. *)
Lemma updateNode_keeps_stock multiplier id :
  0 <= multiplier ->
  respects (keeps (stock_inv c nodeId)) (updateNode multiplier id).
Proof.
  intros Hm. unfold updateNode.
  respect; try apply updateScenarioRates_keeps_stock.
  - apply assignNode_keeps_stock. intros node Hs. simpl. split; [done|].
    unfold Rmin. destruct (Rle_dec _ _); lra.
  - apply assignNode_keeps_stock. intros node Hs. simpl. split; [done|].
    unfold Rmax. destruct (Rle_dec _ _); lra.
Qed.

Lemma updateNodeStates_keeps_stock :
  respects (keeps (stock_inv c nodeId)) (updateNodeStates getMonth).
Proof.
  unfold updateNodeStates. intros s. rewrite !run_gets.
  apply (respects_forEach (keeps (stock_inv c nodeId))). intros id.
  apply updateNode_keeps_stock, multiplier_nonneg.
Qed.

(** The deferred arrival clamps the destination's stock above by its
    capacity. *)
Lemma shipmentArrival_keeps_stock toNode size :
  0 <= size ->
  respects (keeps (stock_inv c nodeId)) (shipmentArrival toNode size).
Proof.
  intros Hsize. unfold shipmentArrival. respect.
  apply assignNode_keeps_stock. intros node Hs. simpl. split; [done|].
  unfold Rmin. destruct (Rle_dec _ _); lra.
Qed.

Lemma shipmentSizeOf_bounds route source :
  0 <= route_capacity route -> route_capacity route * 0.8 < stock source ->
  0 <= shipmentSizeOf route source <= stock source.
Proof.
  intros Hc Hlt. unfold shipmentSizeOf, Rmin. destruct (Rle_dec _ _); lra.
Qed.

(** A shipment removes at most the source's current stock. *)
Lemma processRoute_keeps_stock routeId :
  respects (keeps (stock_inv c nodeId)) (processRoute routeId).
Proof.
  intros s Hinv.
  destruct (processRoute_cases routeId s)
    as [->|(route & source & a & b & acc & Hr & Hs & Hlt & _ & _ & _ & ->)];
    [done|].
  destruct Hinv as (Hroutes & Harr & n & Hn & Hc & Hstock).
  pose proof (shipmentSizeOf_bounds route source (Hroutes _ _ Hr) Hlt) as Hsize.
  simpl. split; [done|]. split.
  - intros t toNode size Hin Hcb. simpl in Hin.
    apply elem_of_app in Hin as [Hin|Hin]; [by eapply Harr|].
    apply list_elem_of_singleton in Hin as ->. simpl in Hcb.
    injection Hcb as _ <-. lra.
  - unfold stock_in_range. simpl. rewrite oget_oset.
    destruct (decide (from route = nodeId)) as [Heq|Hne]; [|by exists n].
    rewrite Heq, Hn in Hs. injection Hs as <-.
    eexists. split; [done|]. simpl. split; [done|]. lra.
Qed.

Lemma processShipments_keeps_stock :
  respects (keeps (stock_inv c nodeId)) processShipments.
Proof.
  unfold processShipments. respect. apply processRoute_keeps_stock.
Qed.

Lemma simulationStep_keeps_stock :
  respects (keeps (stock_inv c nodeId)) (simulationStep getMonth).
Proof.
  unfold simulationStep. respect;
    try (apply quiet_keeps_stock; by apply quiet_fields);
    first [ apply updateNodeStates_keeps_stock
          | apply processShipments_keeps_stock
          | apply quiet_respects_stock;
            first [ apply quiet_updateCharts
                  | apply quiet_updateDisplay
                  | apply quiet_requestAnimationFrame ] ].
Qed.

Lemma runCallback_keeps_stock cb :
  (forall toNode size, cb = ArrivalCb toNode size -> 0 <= size) ->
  respects (keeps (stock_inv c nodeId)) (runCallback cb).
Proof.
  intros Hcb. destruct cb as [toNode size|routeId stepDuration|routeId]; simpl.
  - apply shipmentArrival_keeps_stock. by eapply Hcb.
  - apply quiet_respects_stock, quiet_animate.
  - respect. apply quiet_respects_stock, quiet_resetVehiclePosition.
Qed.

Lemma fireTimer_keeps_stock id :
  respects (keeps (stock_inv c nodeId)) (fireTimer id).
Proof.
  intros s Hinv. unfold fireTimer. rewrite run_gets.
  destruct (find _ (timers s)) as [t|] eqn:Hfind; [|done].
  apply find_some in Hfind as [Hin _]. apply list_elem_of_In in Hin.
  assert (respects (keeps (stock_inv c nodeId))
            (clearTimeout id ;; runCallback (timer_cb t))) as Hresp.
  { respect.
    - apply quiet_respects_stock, quiet_clearTimeout.
    - apply runCallback_keeps_stock. intros toNode size Hcb.
      destruct Hinv as (_ & Harr & _). by eapply Harr. }
  by apply Hresp.
Qed.

Lemma handle_keeps_stock e :
  e <> ResetButton ->
  respects (keeps (stock_inv c nodeId)) (handle getMonth e).
Proof.
  intros Hreset. destruct e; simpl; [| | | | | | | | | |done].
  - respect; try (apply quiet_keeps_stock; by apply quiet_fields).
    apply simulationStep_keeps_stock.
  - apply fireTimer_keeps_stock.
  - unfold toggleSimulation, startSimulation, stopSimulation.
    respect; try (apply quiet_keeps_stock; by apply quiet_fields).
    apply simulationStep_keeps_stock.
  - respect. apply quiet_keeps_stock. by apply quiet_fields.
  - respect. apply quiet_keeps_stock. by apply quiet_fields.
  - respect. apply quiet_keeps_stock. by apply quiet_fields.
  - apply updateNodeStates_keeps_stock.
  - apply processShipments_keeps_stock.
  - apply simulationStep_keeps_stock.
  - apply quiet_respects_stock, quiet_startVehicleMovement.
Qed.

End StockBounds.

(** ** What a reset leaves alone *)

Lemma view_oset {V B} (g : V -> B) id (v v' : V) (o : obj V) :
  oget id o = Some v -> g v' = g v ->
  map (fun kv : string * V => (kv.1, g kv.2)) (oset id v' o) =
  map (fun kv : string * V => (kv.1, g kv.2)) o.
Proof.
  intros Hget Hg. induction o as [|[k x] o IH]; simpl in *; [done|].
  destruct (decide (k = id)) as [->|Hne]; simpl.
  - injection Hget as ->. by rewrite Hg.
  - by rewrite IH.
Qed.

Lemma view_lookup {V B} (g : V -> B) (o o' : obj V) id :
  map (fun kv : string * V => (kv.1, g kv.2)) o' =
  map (fun kv : string * V => (kv.1, g kv.2)) o ->
  g <$> oget id o' = g <$> oget id o.
Proof.
  revert o'. induction o as [|[k x] o IH]; intros [|[k' x'] o'];
    simpl; try done.
  intros H. injection H as -> Hg Hrest.
  destruct (decide (k = id)); simpl; [by rewrite Hg|]. by apply IH.
Qed.

Lemma view_keys {V B} (g : V -> B) (o o' : obj V) :
  map (fun kv : string * V => (kv.1, g kv.2)) o' =
  map (fun kv : string * V => (kv.1, g kv.2)) o ->
  okeys o' = okeys o.
Proof.
  intros H. apply (f_equal (map fst)) in H.
  rewrite !map_map in H. exact H.
Qed.

(** An assignment to [stock], [inbound_rate] or [outbound_rate]. *)
Lemma static_assignNode id f :
  (forall node, node_frame (f node) = node_frame node) ->
  respects (same static_view) (assignNode id f).
Proof.
  intros Hf. apply respects_assignNode; [apply _|].
  intros s node Hnode. unfold same, static_view. simpl.
  by rewrite (view_oset node_frame _ node).
Qed.

Lemma static_updateCharts : respects (same static_view) updateCharts.
Proof. unfold updateCharts. respect; by unfold same. Qed.

Lemma static_resetSimulation : respects (same static_view) resetSimulation.
Proof.
  unfold resetSimulation, stopSimulation, updateDisplay, resetNode, resetScenario.
  respect; try (by unfold same); try (by apply static_assignNode).
  apply static_updateCharts.
Qed.

Lemma animator_assignNode id f : respects (same animator_view) (assignNode id f).
Proof. apply respects_assignNode; [apply _|]. by intros s node _. Qed.

Lemma animator_updateCharts : respects (same animator_view) updateCharts.
Proof. unfold updateCharts. respect; by unfold same. Qed.

Lemma animator_resetSimulation : respects (same animator_view) resetSimulation.
Proof.
  unfold resetSimulation, stopSimulation, updateDisplay, resetNode, resetScenario.
  respect; try (by unfold same); try apply animator_assignNode.
  apply animator_updateCharts.
Qed.

(** ** The chart update, run *)

Lemma updateCharts_skips acc s :
  oget (currentScenario s) (co2Data s) = Some acc ->
  timeLabelOf s ∈ baseline (scenarioComparison s) ->
  updateCharts s = (Some tt, redrawn acc s).
Proof.
  intros Hacc Hin. unfold updateCharts. rewrite run_gets.
  rewrite (run_read (fun s0 => oget (currentScenario s) (co2Data s0)) _ _ _ Hacc).
  rewrite run_modify, !run_gets. simpl.
  by rewrite bool_decide_eq_true_2.
Qed.

Lemma updateCharts_appends acc b g l s :
  oget (currentScenario s) (co2Data s) = Some acc ->
  oget "baseline" (co2Data s) = Some b ->
  oget "green_rail" (co2Data s) = Some g ->
  oget "local_source" (co2Data s) = Some l ->
  timeLabelOf s ∉ baseline (scenarioComparison s) ->
  updateCharts s = (Some tt, snapshot acc b g l s).
Proof.
  intros Hacc Hb Hg Hl Hin. unfold updateCharts. rewrite run_gets.
  rewrite (run_read (fun s0 => oget (currentScenario s) (co2Data s0)) _ _ _ Hacc).
  rewrite run_modify, !run_gets. simpl.
  rewrite bool_decide_eq_false_2 by done.
  rewrite !run_modify.
  erewrite (run_read (fun s0 => oget "baseline" (co2Data s0))) by exact Hb.
  rewrite run_modify.
  erewrite (run_read (fun s0 => oget "green_rail" (co2Data s0))) by exact Hg.
  rewrite run_modify.
  erewrite (run_read (fun s0 => oget "local_source" (co2Data s0))) by exact Hl.
  reflexivity.
Qed.

(** ** Completion *)

Section Total.

Context (P : Sim -> Prop).

Lemma total_ret {A} (a : A) : total P (mret a).
Proof. intros s HP. by exists a, s. Qed.

Lemma total_gets {A} (f : Sim -> A) : total P (gets f).
Proof. intros s HP. by exists (f s), s. Qed.

Lemma total_read {A} (f : Sim -> option A) :
  (forall s, P s -> is_Some (f s)) -> total P (gets f ≫= prop_of).
Proof.
  intros Hf s HP. destruct (Hf s HP) as [a Ha]. exists a, s.
  unfold mbind, M_bind, gets, prop_of. by rewrite Ha.
Qed.

Lemma total_bind {A B} (m : M A) (k : A -> M B) :
  total P m -> (forall a, total P (k a)) -> total P (m ≫= k).
Proof.
  intros Hm Hk s HP. destruct (Hm s HP) as (a & s' & Hrun & HP').
  rewrite run_bind, Hrun. by apply Hk.
Qed.

Lemma total_safe {A} (m : M A) :
  (forall s, P s -> is_Some (m s).1) -> respects (keeps P) m -> total P m.
Proof.
  intros Hsafe Hkeeps s HP. specialize (Hsafe s HP). specialize (Hkeeps s HP).
  destruct (m s) as [[a|] s']; simpl in *; [by exists a, s'|].
  by destruct Hsafe.
Qed.

Lemma total_assignNode nodeId f :
  (forall s, P s -> is_Some (oget nodeId (nodeState s))) ->
  respects (keeps P) (assignNode nodeId f) ->
  total P (assignNode nodeId f).
Proof.
  intros Hnode Hkeeps. apply total_safe; [|done].
  intros s HP. destruct (Hnode s HP) as [node Hn].
  by rewrite (run_assignNode _ _ _ _ Hn).
Qed.

Lemma total_forEach ks f :
  (forall k, k ∈ ks -> total P (f k)) -> total P (forEach ks f).
Proof.
  induction ks as [|k ks IH]; intros Hf; simpl.
  - apply total_ret.
  - apply total_bind; [apply Hf; by left|].
    intros _. apply IH. intros k' Hk'. apply Hf. by right.
Qed.

(** A loop whose every step settles its own key [k] for good. *)
Lemma forEach_establishes (Q : string -> Sim -> Prop) ks f :
  (forall k s, k ∈ ks -> P s ->
     exists s', f k s = (Some tt, s') /\ P s' /\ Q k s' /\
                forall k', Q k' s -> Q k' s') ->
  forall s, P s ->
    exists s', forEach ks f s = (Some tt, s') /\ P s' /\
               forall k, k ∈ ks -> Q k s'.
Proof.
  intros Hf.
  enough (forall s, P s -> forall seen : list string, (forall k, k ∈ seen -> Q k s) ->
            exists s', forEach ks f s = (Some tt, s') /\ P s' /\
                       forall k, k ∈ (seen ++ ks) -> Q k s') as H.
  { intros s HP. destruct (H s HP [] ) as (s' & ? & ? & ?); [by intros ? ?%elem_of_nil|].
    by exists s'. }
  induction ks as [|k ks IH]; intros s HP seen Hseen; simpl.
  - exists s. rewrite app_nil_r. by repeat split.
  - destruct (Hf k s) as (s1 & Hrun & HP1 & HQ & Hstable); [by left | done |].
    rewrite run_bind, Hrun.
    destruct (IH (fun k' s' Hk' => Hf k' s' (list_elem_of_further _ _ _ Hk'))
                 s1 HP1 (seen ++ [k])) as (s' & Hrun' & HP' & HQ').
    { intros k' [Hk'|Hk']%elem_of_app; [by apply Hstable, Hseen|].
      by apply list_elem_of_singleton in Hk' as ->. }
    exists s'. split; [done|]. split; [done|].
    intros k' Hk'. apply HQ'. by rewrite <- app_assoc.
Qed.

End Total.

(** ** Reset, run *)

Lemma round_zero : round (0 / 86400) = 0%Z.
Proof. unfold round. symmetry. apply Int_part_spec. simpl. lra. Qed.

Lemma resetNode_runs nodeId node data s :
  oget nodeId (nodeState s) = Some node ->
  nodesData s !! nodeId = Some data ->
  resetNode nodeId s =
  (Some tt,
   set_nodeState
     (oset nodeId
        (set_outbound_rate 0
           (set_inbound_rate 0 (set_stock (initial_stock data) node)))
        (nodeState s)) s).
Proof.
  intros Hn Hd. unfold resetNode.
  rewrite (run_read (fun s => oget nodeId (nodeState s)) _ _ _ Hn).
  rewrite (run_read (fun s => nodesData s !! nodeId) _ _ _ Hd).
  rewrite run_bind, (run_assignNode _ _ _ _ Hn), run_assignNode_twice.
  erewrite run_assignNode by (simpl; apply oget_oset_eq).
  simpl. by rewrite oset_oset.
Qed.

(** The node loop of [resetSimulation], started in [s]. *)
Lemma reset_nodes_run s :
  nodes_configured s ->
  exists nodes,
    forEach (okeys (nodeState s)) resetNode s = (Some tt, set_nodeState nodes s) /\
    okeys nodes = okeys (nodeState s) /\
    forall nodeId, nodeId ∈ okeys (nodeState s) ->
      exists node data,
        oget nodeId nodes = Some node /\ nodesData s !! nodeId = Some data /\
        stock node = initial_stock data /\
        inbound_rate node = 0 /\ outbound_rate node = 0.
Proof.
  intros Hconf.
  destruct (forEach_establishes
    (fun s' => exists nodes, s' = set_nodeState nodes s /\
                             okeys nodes = okeys (nodeState s))
    (fun nodeId s' => exists node data,
        oget nodeId (nodeState s') = Some node /\
        nodesData s !! nodeId = Some data /\
        stock node = initial_stock data /\
        inbound_rate node = 0 /\ outbound_rate node = 0)
    (okeys (nodeState s)) resetNode) with s as (s' & Hrun & (nodes & -> & Hkeys) & HQ).
  - intros k s' Hk (nodes & -> & Hkeys).
    destruct (Hconf k Hk) as [data Hd].
    assert (is_Some (oget k nodes)) as [node Hn]
      by (apply oget_is_Some; by rewrite Hkeys).
    rewrite (resetNode_runs k node data) by done. simpl.
    eexists. split; [done|]. split.
    { eexists. split; [done|]. by rewrite (okeys_oset _ _ node). }
    split.
    { exists (set_outbound_rate 0
                (set_inbound_rate 0 (set_stock (initial_stock data) node))), data.
      simpl. by rewrite oget_oset_eq. }
    intros k' (node' & data' & Hn' & Hd' & Hfields). simpl in *.
    rewrite oget_oset. destruct (decide (k = k')) as [<-|Hne].
    + rewrite Hd in Hd'. injection Hd' as <-. eexists _, data.
      split; [done|]. by simpl.
    + by exists node', data'.
  - exists (nodeState s). split; [|done]. by destruct s.
  - exists nodes. by repeat split.
Qed.

(** The scenario loop of [resetSimulation], started in [s]. *)
Lemma reset_scenarios_run s :
  exists co2,
    forEach (okeys (co2Data s)) resetScenario s = (Some tt, set_co2Data co2 s) /\
    okeys co2 = okeys (co2Data s) /\
    forall scenario, scenario ∈ okeys (co2Data s) ->
      oget scenario co2 = Some zeroEmissions.
Proof.
  destruct (forEach_establishes
    (fun s' => exists co2, s' = set_co2Data co2 s /\
                           okeys co2 = okeys (co2Data s))
    (fun scenario s' => oget scenario (co2Data s') = Some zeroEmissions)
    (okeys (co2Data s)) resetScenario) with s as (s' & Hrun & (co2 & -> & Hkeys) & HQ).
  - intros k s' Hk (co2 & -> & Hkeys).
    assert (is_Some (oget k co2)) as [acc Hacc]
      by (apply oget_is_Some; by rewrite Hkeys).
    eexists. split; [reflexivity|]. simpl. split.
    { eexists. split; [done|]. by rewrite (okeys_oset _ _ acc). }
    split; [apply oget_oset_eq|].
    intros k' Hk'. rewrite oget_oset. by destruct (decide (k = k')).
  - exists (co2Data s). split; [|done]. by destruct s.
  - exists co2. by repeat split.
Qed.

Lemma totalEmissions_zero : totalEmissions zeroEmissions = Num 0.
Proof.
  unfold totalEmissions, getv, zeroEmissions.
  rewrite lookup_insert_eq.
  rewrite lookup_insert_ne, lookup_insert_eq by done.
  rewrite !lookup_insert_ne, lookup_singleton_eq by done.
  simpl. f_equal. lra.
Qed.

Lemma resetSimulation_runs s :
  nodes_configured s -> scenarios_present s ->
  exists nodes co2,
    resetSimulation s =
    (Some tt,
     snapshot zeroEmissions zeroEmissions zeroEmissions zeroEmissions
       (set_scenarioComparison emptyComparison
          (set_co2Data co2
             (set_nodeState nodes
                (set_isPlaying false
                   (set_simulationTime 0 (set_currentDate (startDate s) s))))))) /\
    okeys nodes = okeys (nodeState s) /\
    (forall nodeId, nodeId ∈ okeys (nodeState s) ->
       exists node data,
         oget nodeId nodes = Some node /\ nodesData s !! nodeId = Some data /\
         stock node = initial_stock data /\
         inbound_rate node = 0 /\ outbound_rate node = 0) /\
    okeys co2 = okeys (co2Data s) /\
    (forall scenario, scenario ∈ okeys (co2Data s) ->
       oget scenario co2 = Some zeroEmissions).
Proof.
  intros Hconf (Hcur & Hb & Hg & Hl).
  set (s1 := set_isPlaying false
               (set_simulationTime 0 (set_currentDate (startDate s) s))).
  destruct (reset_nodes_run s1) as (nodes & Hrun1 & Hkeys1 & Hnodes); [done|].
  destruct (reset_scenarios_run (set_nodeState nodes s1))
    as (co2 & Hrun2 & Hkeys2 & Hco2).
  exists nodes, co2. split; [|by repeat split].
  unfold resetSimulation, stopSimulation, updateDisplay.
  rewrite run_ret, !run_modify, run_gets, run_bind.
  fold s1. rewrite Hrun1, run_gets, run_bind, Hrun2, run_modify, run_ret.
  apply updateCharts_appends; simpl;
    try (apply Hco2; simpl; by apply oget_is_Some).
  apply not_elem_of_nil.
Qed.

Lemma demo_nodes_configured : nodes_configured demo.
Proof.
  intros nodeId Hin. simpl in Hin.
  repeat (apply elem_of_cons in Hin as [->|Hin]; [by eexists|]).
  by apply elem_of_nil in Hin.
Qed.

Lemma demo_scenarios_present : scenarios_present demo.
Proof. repeat split; by eexists. Qed.

Lemma demo_moving_nodes_configured : nodes_configured demo_moving.
Proof. exact demo_nodes_configured. Qed.

Lemma demo_moving_scenarios_present : scenarios_present demo_moving.
Proof. exact demo_scenarios_present. Qed.

(** C6, as the code has it: after a reset of a simulation whose nodes all
    have a definition and whose scenarios all have an accumulator, every
    node's stock is its configured [initial_stock], its inbound and
    outbound rates are 0, every accumulator is [{truck: 0, rail: 0, air: 0}],
    the simulated time is 0, the current date is the start date and the
    simulation is stopped; every scenario's comparison series holds exactly
    the day label 0, which the chart update at the end of the reset appends
    to the series the reset has just emptied; the line chart is not
    cleared: it keeps its points and gains the point (day 0, total 0) for
    each scenario. *)
Theorem reset_restores_configuration (s : Sim) :
  nodes_configured s -> scenarios_present s ->
  exists s',
    resetSimulation s = (Some tt, s') /\
    okeys (nodeState s') = okeys (nodeState s) /\
    (forall nodeId, nodeId ∈ okeys (nodeState s) ->
       exists node data,
         oget nodeId (nodeState s') = Some node /\
         nodesData s' !! nodeId = Some data /\
         stock node = initial_stock data /\
         inbound_rate node = 0 /\ outbound_rate node = 0) /\
    okeys (co2Data s') = okeys (co2Data s) /\
    (forall scenario, scenario ∈ okeys (co2Data s) ->
       oget scenario (co2Data s') = Some zeroEmissions) /\
    scenarioComparison s' =
      {| baseline := [0%Z]; green_rail := [0%Z]; local_source := [0%Z] |} /\
    labels (charts s') = labels (charts s) ++ [0%Z] /\
    dataset0 (charts s') = dataset0 (charts s) ++ [Num 0] /\
    dataset1 (charts s') = dataset1 (charts s) ++ [Num 0] /\
    dataset2 (charts s') = dataset2 (charts s) ++ [Num 0] /\
    simulationTime s' = 0 /\
    currentDate s' = startDate s' /\
    isPlaying s' = false.
Proof.
  intros Hconf Hpresent.
  destruct (resetSimulation_runs s Hconf Hpresent)
    as (nodes & co2 & Hrun & Hkeys & Hnodes & Hkeys2 & Hco2).
  eexists. split; [exact Hrun|]. simpl.
  unfold timeLabelOf. simpl. rewrite round_zero, totalEmissions_zero.
  by repeat split.
Qed.

(** The reset of the example network, carried out. *)
Lemma reset_restores_configuration_witness :
  nodes_configured demo /\ scenarios_present demo /\
  exists s',
    resetSimulation demo = (Some tt, s') /\
    okeys (nodeState s') = okeys (nodeState demo) /\
    (forall nodeId, nodeId ∈ okeys (nodeState demo) ->
       exists node data,
         oget nodeId (nodeState s') = Some node /\
         nodesData s' !! nodeId = Some data /\
         stock node = initial_stock data /\
         inbound_rate node = 0 /\ outbound_rate node = 0) /\
    okeys (co2Data s') = okeys (co2Data demo) /\
    (forall scenario, scenario ∈ okeys (co2Data demo) ->
       oget scenario (co2Data s') = Some zeroEmissions) /\
    scenarioComparison s' =
      {| baseline := [0%Z]; green_rail := [0%Z]; local_source := [0%Z] |} /\
    labels (charts s') = labels (charts demo) ++ [0%Z] /\
    dataset0 (charts s') = dataset0 (charts demo) ++ [Num 0] /\
    dataset1 (charts s') = dataset1 (charts demo) ++ [Num 0] /\
    dataset2 (charts s') = dataset2 (charts demo) ++ [Num 0] /\
    simulationTime s' = 0 /\
    currentDate s' = startDate s' /\
    isPlaying s' = false.
Proof.
  split; [exact demo_nodes_configured|]. split; [exact demo_scenarios_present|].
  exact (reset_restores_configuration demo demo_nodes_configured
           demo_scenarios_present).
Defined.

(** C6, as stated, fails: after a reset the comparison series are not
    empty.  On the example network each holds the day label 0. *)
Lemma reset_series_not_empty :
  exists s',
    resetSimulation demo = (Some tt, s') /\
    baseline (scenarioComparison s') = [0%Z] /\
    green_rail (scenarioComparison s') = [0%Z] /\
    local_source (scenarioComparison s') = [0%Z] /\
    baseline (scenarioComparison s') <> [].
Proof.
  destruct (resetSimulation_runs demo demo_nodes_configured
              demo_scenarios_present) as (nodes & co2 & Hrun & _).
  eexists. split; [exact Hrun|]. simpl.
  unfold timeLabelOf. simpl. rewrite round_zero. by repeat split.
Qed.

(** C9: a reset leaves the static node and route definitions as they are,
    keeps the set of nodes, and of each node's state leaves [capacity],
    [production_rate] and [sales_rate] unchanged; this holds on every path
    through [resetSimulation], also when it throws. *)
Theorem reset_keeps_rates_and_definitions (s : Sim) :
  nodesData (resetSimulation s).2 = nodesData s /\
  routesData (resetSimulation s).2 = routesData s /\
  routeCoordinates (resetSimulation s).2 = routeCoordinates s /\
  okeys (nodeState (resetSimulation s).2) = okeys (nodeState s) /\
  forall nodeId,
    production_rate <$> oget nodeId (nodeState (resetSimulation s).2) =
      production_rate <$> oget nodeId (nodeState s) /\
    sales_rate <$> oget nodeId (nodeState (resetSimulation s).2) =
      sales_rate <$> oget nodeId (nodeState s) /\
    capacity <$> oget nodeId (nodeState (resetSimulation s).2) =
      capacity <$> oget nodeId (nodeState s).
Proof.
  pose proof (static_resetSimulation s) as H. unfold same, static_view in H.
  injection H as Hnodes Hroutes Hcoords Hview.
  repeat split; try done.
  - by apply (view_keys node_frame).
  - apply (view_lookup node_frame _ _ nodeId) in Hview.
    destruct (oget nodeId (nodeState (resetSimulation s).2)),
             (oget nodeId (nodeState s)); simpl in *; try done.
    injection Hview as _ -> _. done.
  - apply (view_lookup node_frame _ _ nodeId) in Hview.
    destruct (oget nodeId (nodeState (resetSimulation s).2)),
             (oget nodeId (nodeState s)); simpl in *; try done.
    injection Hview as _ _ ->. done.
  - apply (view_lookup node_frame _ _ nodeId) in Hview.
    destruct (oget nodeId (nodeState (resetSimulation s).2)),
             (oget nodeId (nodeState s)); simpl in *; try done.
    injection Hview as -> _ _. done.
Qed.
(** ** The animator, run *)

Lemma run_assignVehicle {B} routeId f (k : unit -> M B) s v :
  movingMarkers s !! routeId = Some v ->
  (assignVehicle routeId f ≫= k) s =
  k tt (set_movingMarkers (<[routeId := f v]> (movingMarkers s)) s).
Proof.
  intros Hv. unfold assignVehicle.
  by rewrite bind_twice, (run_read (fun s => movingMarkers s !! routeId) _ _ _ Hv).
Qed.

Lemma assignVehicle_runs routeId f s v :
  movingMarkers s !! routeId = Some v ->
  assignVehicle routeId f s =
  (Some tt, set_movingMarkers (<[routeId := f v]> (movingMarkers s)) s).
Proof.
  intros Hv. unfold assignVehicle.
  by rewrite (run_read (fun s => movingMarkers s !! routeId) _ _ _ Hv).
Qed.

Lemma run_setTimeout {B} cb delay (k : positive -> M B) s :
  (setTimeout cb delay ≫= k) s =
  k (nextTimer s)
    (set_nextTimer (Pos.succ (nextTimer s))
       (set_timers (timers s ++ [{| timer_id := nextTimer s;
                                    timer_delay := delay; timer_cb := cb |}]) s)).
Proof. reflexivity. Qed.

(** One scheduled step of a moving vehicle that has not reached the end of
    its route: the marker moves to the next waypoint and the next step is
    scheduled. *)
Lemma animate_steps routeId stepDuration s v nextCoord :
  movingMarkers s !! routeId = Some v ->
  isMoving v = true ->
  routeCoords v !! S (currentPosition v) = Some nextCoord ->
  exists s',
    animate routeId stepDuration s = (Some tt, s') /\
    movingMarkers s' !! routeId =
      Some (set_animationId (Some (nextTimer s))
              (set_marker nextCoord
                 (set_currentPosition (S (currentPosition v)) v))) /\
    timers s' =
      (timers s ++ [{| timer_id := nextTimer s; timer_delay := stepDuration;
                      timer_cb := AnimateCb routeId stepDuration |}])%list.
Proof.
  intros Hv Hmoving Hnext. unfold animate.
  rewrite (run_read (fun s => movingMarkers s !! routeId) _ _ _ Hv).
  rewrite Hmoving. change (negb true) with false. cbv iota.
  rewrite (run_assignVehicle _ _ _ _ v Hv).
  erewrite (run_read (fun s => movingMarkers s !! routeId))
    by (simpl; apply lookup_insert_eq).
  cbn [routeCoords currentPosition set_currentPosition].
  assert ((length (routeCoords v) <=? S (currentPosition v))%nat = false) as ->.
  { apply Nat.leb_gt. by eapply lookup_lt_Some. }
  rewrite Hnext. 
  change (prop_of (Some nextCoord) ≫= ?k) with (mret nextCoord ≫= k).
  rewrite run_ret.
  erewrite run_assignVehicle by (simpl; apply lookup_insert_eq).
  rewrite run_setTimeout.
  erewrite assignVehicle_runs by (simpl; apply lookup_insert_eq).
  eexists. split; [reflexivity|]. simpl. split; [|done].
  by rewrite lookup_insert_eq.
Qed.

Lemma fireTimer_runs id t s :
  find (fun t => bool_decide (timer_id t = id)) (timers s) = Some t ->
  fireTimer id s =
  runCallback (timer_cb t)
    (set_timers (filter (fun t => timer_id t ≠ id) (timers s)) s).
Proof. intros Hfind. unfold fireTimer. by rewrite run_gets, Hfind. Qed.

(** C8, as the code has it: stopping or resetting cancels nothing.
    [stopSimulation] changes no state, and [resetSimulation] leaves the
    timer queue and the moving markers exactly as they were, so every
    timer pending before a stop or reset is still pending after it. *)
Theorem stop_and_reset_cancel_nothing (s : Sim) :
  (stopSimulation s).2 = s /\
  timers (resetSimulation s).2 = timers s /\
  nextTimer (resetSimulation s).2 = nextTimer s /\
  movingMarkers (resetSimulation s).2 = movingMarkers s.
Proof.
  pose proof (animator_resetSimulation s) as H. unfold same, animator_view in H.
  injection H as Ht Hn Hm. by repeat split.
Qed.

(** C8, as stated, fails.  In the example the truck's next animation step
    and an arrival reset are pending; after a reset both are still in the
    queue, and when the animation step then fires it moves the marker on
    the freshly reset simulation. *)
Lemma reset_leaves_animation_timers :
  exists s',
    resetSimulation demo_moving = (Some tt, s') /\
    simulationTime s' = 0 /\
    timers s' = timers demo_moving /\
    (exists t, t ∈ timers s' /\ timer_cb t = AnimateCb "sweden_store" 1000) /\
    (exists t, t ∈ timers s' /\ timer_cb t = ArrivalResetCb "sweden_store") /\
    exists s'' v,
      fireTimer 1%positive s' = (Some tt, s'') /\
      movingMarkers s'' !! "sweden_store" = Some v /\
      currentPosition v = 1%nat /\ marker v = (55, 15).
Proof.
  destruct (resetSimulation_runs demo_moving demo_moving_nodes_configured
              demo_moving_scenarios_present) as (nodes & co2 & Hrun & _).
  eexists. split; [exact Hrun|]. split; [done|]. split; [done|].
  split. { eexists. split; [by left|done]. }
  split. { eexists. split; [right; by left|done]. }
  rewrite (fireTimer_runs 1%positive
             {| timer_id := 1%positive; timer_delay := 1000;
                timer_cb := AnimateCb "sweden_store" 1000 |}) by done.
  match goal with |- context [runCallback _ ?s1] =>
    destruct (animate_steps "sweden_store" 1000 s1
                {| marker := (59, 18); vehicleType := "truck";
                   routeCoords := [(59, 18); (55, 15); (52, 13)];
                   duration := 2000; distance := 900; isMoving := true;
                   currentPosition := 0; animationId := Some 1%positive |}
                (55, 15)) as (s'' & Hstep & Hv & _)
  end.
  - simpl. apply lookup_singleton_eq.
  - done.
  - done.
  - exists s''. eexists. split; [exact Hstep|]. split; [exact Hv|]. by simpl.
Qed.

(** ** The node update and the shipment processor complete *)

Lemma shape_assignNode id f : respects (same shape_view) (assignNode id f).
Proof.
  apply respects_assignNode; [apply _|].
  intros s node Hnode. unfold same, shape_view. simpl.
  by rewrite (okeys_oset _ _ node).
Qed.

Lemma shape_processRoute routeId : respects (same shape_view) (processRoute routeId).
Proof.
  intros s.
  destruct (processRoute_cases routeId s)
    as [->|(route & source & a & b & acc & _ & Hs & _ & _ & _ & Hacc & ->)];
    [done|].
  unfold same, shape_view. simpl.
  by rewrite (okeys_oset _ _ source), (okeys_oset _ _ acc).
Qed.

Lemma shape_well_formed s s' :
  shape_view s' = shape_view s -> well_formed s -> well_formed s'.
Proof.
  unfold shape_view. intros H (Hnodes & Hroutes & Hscen).
  injection H as _ _ Hcur _ _ _ Hr Hn _ _ _ _ _ _ _ Hkeys Hco2.
  split; [|split].
  - intros nodeId Hin. rewrite Hn. apply Hnodes. by rewrite <- Hkeys.
  - intros routeId route Hroute. rewrite Hr in Hroute.
    destruct (Hroutes _ _ Hroute) as (Hfrom & Ha & Hb).
    rewrite Hn. split; [|done].
    apply oget_is_Some. rewrite Hkeys. by apply oget_is_Some.
  - destruct Hscen as (H1 & H2 & H3 & H4). unfold scenarios_present.
    rewrite Hcur. rewrite !oget_is_Some, Hco2, <- !oget_is_Some. done.
Qed.

Lemma shape_keeps_settled s0 s s' :
  same shape_view s s' -> keeps (settled s0) s s'.
Proof.
  intros Hshape [Hwf Hs]. split.
  - by eapply shape_well_formed.
  - unfold same in Hshape. congruence.
Qed.

Lemma settled_respects s0 {A} (m : M A) :
  respects (same shape_view) m -> respects (keeps (settled s0)) m.
Proof. apply respects_weaken, shape_keeps_settled. Qed.

Lemma settled_node s0 s nodeId :
  nodeId ∈ okeys (nodeState s0) -> settled s0 s ->
  is_Some (oget nodeId (nodeState s)) /\ is_Some (nodesData s !! nodeId).
Proof.
  intros Hin [(Hnodes & _) Hshape].
  assert (okeys (nodeState s) = okeys (nodeState s0)) as Hkeys
    by (unfold shape_view in Hshape; by injection Hshape).
  split; [apply oget_is_Some | apply Hnodes]; by rewrite Hkeys.
Qed.

(** Decomposing a method along its control structure, for completion. *)
Ltac totality_step :=
  lazymatch goal with
  | |- total _ (mret _) => apply total_ret
  | |- total _ (gets _ ≫= prop_of) => apply total_read
  | |- total _ (_ ≫= _) => apply total_bind; [|intros ?]
  | |- total _ (gets _) => apply total_gets
  | |- total _ (assignNode _ _) => apply total_assignNode
  | |- total _ (if ?b then _ else _) => destruct b
  end.

Ltac totality := repeat totality_step.

Lemma updateNode_total s0 multiplier nodeId :
  nodeId ∈ okeys (nodeState s0) ->
  total (settled s0) (updateNode multiplier nodeId).
Proof.
  intros Hin. unfold updateNode, updateScenarioRates. totality;
    try (intros s Hs; by apply (settled_node s0 s nodeId));
    apply settled_respects, shape_assignNode.
Qed.

Lemma updateNodeStates_total getMonth s0 :
  total (settled s0) (updateNodeStates getMonth).
Proof.
  intros s Hs. unfold updateNodeStates. rewrite !run_gets.
  apply total_forEach; [|done]. intros nodeId Hin.
  apply updateNode_total.
  destruct Hs as [_ Hshape]. unfold shape_view in Hshape.
  injection Hshape as _ _ _ _ _ _ _ _ _ _ _ _ _ _ _ Hkeys _. by rewrite <- Hkeys.
Qed.

Lemma processRoute_total s0 routeId :
  routeId ∈ okeys (routesData s0) -> total (settled s0) (processRoute routeId).
Proof.
  intros Hin. apply total_safe; [|apply settled_respects, shape_processRoute].
  intros s [(Hnodes & Hroutes & Hcur & _) Hshape].
  assert (routesData s = routesData s0) as Hr
    by (unfold shape_view in Hshape; by injection Hshape).
  assert (is_Some (oget routeId (routesData s))) as [route Hroute]
    by (apply oget_is_Some; by rewrite Hr).
  destruct (Hroutes _ _ Hroute) as ([source Hsource] & [a Ha] & [b Hb]).
  destruct Hcur as [acc Hacc].
  destruct (Rlt_dec (route_capacity route * 0.8) (stock source)) as [Hlt|Hlt].
  - by rewrite (processRoute_ships _ _ _ _ _ _ _ Hroute Hsource Hlt Ha Hb Hacc).
  - by rewrite (processRoute_waits _ _ _ _ Hroute Hsource Hlt).
Qed.

Lemma processShipments_total s0 : total (settled s0) processShipments.
Proof.
  intros s Hs. unfold processShipments. rewrite run_gets.
  apply total_forEach; [|done]. intros routeId Hin.
  apply processRoute_total.
  destruct Hs as [_ Hshape]. unfold shape_view in Hshape.
  injection Hshape as _ _ _ _ _ _ Hr _ _ _ _ _ _ _ _ _ _. by rewrite <- Hr.
Qed.

(** ** The tick, run *)

Lemma advanced_well_formed s : well_formed s -> well_formed (advanced s).
Proof. intros H. unfold advanced. by destruct (theMap s). Qed.

Lemma settled_scenarios s0 s :
  settled s0 s ->
  exists acc b g l,
    oget (currentScenario s) (co2Data s) = Some acc /\
    oget "baseline" (co2Data s) = Some b /\
    oget "green_rail" (co2Data s) = Some g /\
    oget "local_source" (co2Data s) = Some l.
Proof.
  intros [(_ & _ & [acc Hacc] & [b Hb] & [g Hg] & [l Hl]) _].
  by exists acc, b, g, l.
Qed.

Lemma updateCharts_runs acc b g l s :
  oget (currentScenario s) (co2Data s) = Some acc ->
  oget "baseline" (co2Data s) = Some b ->
  oget "green_rail" (co2Data s) = Some g ->
  oget "local_source" (co2Data s) = Some l ->
  updateCharts s = (Some tt, charted acc b g l s).
Proof.
  intros Hacc Hb Hg Hl. unfold charted. case_bool_decide.
  - by apply updateCharts_skips.
  - by apply updateCharts_appends.
Qed.

Section Tick.

Variable getMonth : Z -> Z.

Lemma simulationStep_runs s :
  isPlaying s = true -> theMap s = true \/ windowMap s = true ->
  well_formed s ->
  exists s2 acc b g l,
    settled (advanced s) s2 /\
    oget (currentScenario s2) (co2Data s2) = Some acc /\
    oget "baseline" (co2Data s2) = Some b /\
    oget "green_rail" (co2Data s2) = Some g /\
    oget "local_source" (co2Data s2) = Some l /\
    simulationStep getMonth s =
    (Some tt,
     set_frames (S (frames s2))
       (if (Z.rem (floor (simulationTime s2)) 60 =? 0)%Z
        then charted acc b g l s2 else s2)).
Proof.
  intros Hplay Hmap Hwf.
  assert (settled (advanced s) (advanced s)) as Hs1
    by (split; [by apply advanced_well_formed | done]).
  destruct (updateNodeStates_total getMonth _ _ Hs1) as ([] & s1 & Hrun1 & Hs1').
  destruct (processShipments_total _ _ Hs1') as ([] & s2 & Hrun2 & Hs2).
  destruct (settled_scenarios _ _ Hs2) as (acc & b & g & l & Hacc & Hb & Hg & Hl).
  exists s2, acc, b, g, l. repeat (split; [done|]).
  assert (forall k : unit -> M unit,
            (updateNodeStates getMonth ≫= k) (advanced s) = k tt s1) as Hupdate
    by (intros k; by rewrite run_bind, Hrun1).
  assert (forall k : unit -> M unit,
            (processShipments ≫= k) s1 = k tt s2) as Hship
    by (intros k; by rewrite run_bind, Hrun2).
  assert (forall k : unit -> M unit,
            ((if (Z.rem (floor (simulationTime s2)) 60 =? 0)%Z
              then updateCharts else mret tt) ≫= k) s2 =
            k tt (if (Z.rem (floor (simulationTime s2)) 60 =? 0)%Z
                  then charted acc b g l s2 else s2)) as Hchart.
  { intros k. destruct (_ =? _)%Z; [|done].
    by rewrite run_bind, (updateCharts_runs acc b g l). }
  unfold simulationStep, try_catch.
  rewrite run_gets, Hplay. change (negb true) with false. cbv iota.
  rewrite run_gets. unfold advanced in Hupdate.
  destruct (theMap s) eqn:Hmap0; change (negb true) with false;
    change (negb false) with true; cbv iota.
  - rewrite run_ret, run_gets, Hmap0. change (negb true) with false. cbv iota.
    rewrite run_gets, !run_modify.
    simpl in Hupdate. simpl. rewrite Hupdate, Hship.
    unfold updateDisplay. rewrite run_ret, run_gets, Hchart.
    destruct (_ =? _)%Z; [unfold charted; case_bool_decide|]; reflexivity.
  - destruct Hmap as [|Hwin]; [done|].
    rewrite run_modify, run_gets. rewrite Hwin in Hupdate |- *.
    change (negb (theMap (set_theMap true s))) with false. cbv iota.
    rewrite run_gets, !run_modify.
    simpl in Hupdate. simpl. rewrite Hupdate, Hship.
    unfold updateDisplay. rewrite run_ret, run_gets, Hchart.
    destruct (_ =? _)%Z; [unfold charted; case_bool_decide|]; reflexivity.
Qed.



(** The three comparison series always carry the same labels: they start
    empty, a reset empties them, and a chart update appends the same label
    to all three; looking a label up in the baseline series is looking it
    up in each. *)
Lemma charted_keeps_aligned acc b g l s :
  series_aligned s -> series_aligned (charted acc b g l s).
Proof.
  intros [Hg Hl]. unfold charted, series_aligned.
  case_bool_decide; simpl; [done|]. by rewrite Hg, Hl.
Qed.

Lemma simulationStep_keeps_aligned s :
  isPlaying s = true -> theMap s = true \/ windowMap s = true ->
  well_formed s -> series_aligned s ->
  series_aligned (simulationStep getMonth s).2.
Proof.
  intros Hplay Hmap Hwf Haligned.
  destruct (simulationStep_runs s Hplay Hmap Hwf)
    as (s2 & acc & b & g & l & [_ Hshape] & _ & _ & _ & _ & ->).
  assert (scenarioComparison s2 = scenarioComparison s) as Hcmp.
  { unfold shape_view, advanced in Hshape.
    injection Hshape as _ _ _ _ _ _ _ _ _ _ Hc _ _ _ _ _ _.
    by destruct (theMap s). }
  assert (series_aligned s2) as Haligned2
    by (unfold series_aligned; by rewrite Hcmp).
  simpl. destruct (_ =? _)%Z; [|done].
  by apply (charted_keeps_aligned acc b g l).
Qed.

(** What a tick that goes ahead does to the comparison series and the line
    chart, with the appended values as [updateCharts] computes them. *)
Lemma simulationStep_charts (s : Sim) :
  isPlaying s = true -> theMap s = true \/ windowMap s = true ->
  well_formed s ->
  exists s',
    simulationStep getMonth s = (Some tt, s') /\
    simulationTime s' = simulationTime s + 1 / 60 * simulationSpeed s /\
    if (Z.rem (floor (simulationTime s')) 60 =? 0)%Z then
      if bool_decide (round (simulationTime s' / 86400)
                        ∈ baseline (scenarioComparison s)) then
        scenarioComparison s' = scenarioComparison s /\
        labels (charts s') = labels (charts s) /\
        dataset0 (charts s') = dataset0 (charts s) /\
        dataset1 (charts s') = dataset1 (charts s) /\
        dataset2 (charts s') = dataset2 (charts s)
      else
        exists b g l,
          oget "baseline" (co2Data s') = Some b /\
          oget "green_rail" (co2Data s') = Some g /\
          oget "local_source" (co2Data s') = Some l /\
          scenarioComparison s' =
            {| baseline := baseline (scenarioComparison s)
                             ++ [round (simulationTime s' / 86400)];
               green_rail := green_rail (scenarioComparison s)
                               ++ [round (simulationTime s' / 86400)];
               local_source := local_source (scenarioComparison s)
                                 ++ [round (simulationTime s' / 86400)] |} /\
          labels (charts s') =
            labels (charts s) ++ [round (simulationTime s' / 86400)] /\
          dataset0 (charts s') = dataset0 (charts s) ++ [totalEmissions b] /\
          dataset1 (charts s') = dataset1 (charts s) ++ [totalEmissions g] /\
          dataset2 (charts s') = dataset2 (charts s) ++ [totalEmissions l]
    else
      scenarioComparison s' = scenarioComparison s /\
      labels (charts s') = labels (charts s) /\
      dataset0 (charts s') = dataset0 (charts s) /\
      dataset1 (charts s') = dataset1 (charts s) /\
      dataset2 (charts s') = dataset2 (charts s).
Proof.
  intros Hplay Hmap Hwf.
  destruct (simulationStep_runs s Hplay Hmap Hwf)
    as (s2 & acc & b & g & l & [_ Hshape] & Hacc & Hb & Hg & Hl & Hrun).
  assert (simulationTime s2 = simulationTime s + 1 / 60 * simulationSpeed s
          /\ scenarioComparison s2 = scenarioComparison s
          /\ charts s2 = charts s) as (Htime & Hcmp & Hcharts).
  { unfold shape_view, advanced in Hshape.
    injection Hshape as _ _ _ _ _ Ht _ _ _ _ Hc Hch _ _ _ _ _.
    by destruct (theMap s). }
  destruct (Z.rem (floor (simulationTime s2)) 60 =? 0)%Z eqn:Hminute.
  - unfold charted in Hrun. case_bool_decide as Hlisted.
    + eexists. split; [exact Hrun|]. simpl. split; [done|].
      rewrite Hminute. unfold timeLabelOf in Hlisted. rewrite Hcmp in Hlisted.
      rewrite bool_decide_eq_true_2 by done. by rewrite Hcmp, Hcharts.
    + eexists. split; [exact Hrun|]. simpl. split; [done|].
      rewrite Hminute. unfold timeLabelOf in *. rewrite Hcmp in Hlisted.
      rewrite bool_decide_eq_false_2 by done.
      exists b, g, l. by rewrite Hcmp, Hcharts.
  - eexists. split; [exact Hrun|]. simpl. split; [done|].
    by rewrite Hminute, Hcmp, Hcharts.
Qed.


(** The sum of [updateCharts] is the sum of the three totals. *)
Lemma totalEmissions_sum acc : totalEmissions acc = vehicleSum acc.
Proof.
  unfold totalEmissions, vehicleSum, getv.
  destruct (acc !! "truck") as [[|x|]|], (acc !! "rail") as [[|y|]|],
    (acc !! "air") as [[|z|]|]; reflexivity.
Qed.

(** C3, as the code has it: a tick that goes ahead (the simulation is
    playing, the map is available and the configuration is well formed)
    advances the clock by [simulationSpeed / 60]; when the floor of the new
    time is a multiple of 60 it runs the chart update, which, unless the
    day label [round (simulationTime / 86400)] is already listed in the
    baseline comparison series, appends that label, and nothing else, to
    each scenario's comparison series and to the chart's labels, and
    appends each scenario's sum of its truck, rail and air totals to that
    scenario's data set of the line chart; when the label is listed, and on
    every other tick, the series and the line chart stay as they are. *)
Theorem chart_snapshot_on_minute_ticks (s : Sim) :
  isPlaying s = true -> theMap s = true \/ windowMap s = true ->
  well_formed s ->
  exists s',
    simulationStep getMonth s = (Some tt, s') /\
    simulationTime s' = simulationTime s + 1 / 60 * simulationSpeed s /\
    if (Z.rem (floor (simulationTime s')) 60 =? 0)%Z then
      if bool_decide (round (simulationTime s' / 86400)
                        ∈ baseline (scenarioComparison s)) then
        scenarioComparison s' = scenarioComparison s /\
        labels (charts s') = labels (charts s) /\
        dataset0 (charts s') = dataset0 (charts s) /\
        dataset1 (charts s') = dataset1 (charts s) /\
        dataset2 (charts s') = dataset2 (charts s)
      else
        exists b g l,
          oget "baseline" (co2Data s') = Some b /\
          oget "green_rail" (co2Data s') = Some g /\
          oget "local_source" (co2Data s') = Some l /\
          scenarioComparison s' =
            {| baseline := baseline (scenarioComparison s)
                             ++ [round (simulationTime s' / 86400)];
               green_rail := green_rail (scenarioComparison s)
                               ++ [round (simulationTime s' / 86400)];
               local_source := local_source (scenarioComparison s)
                                 ++ [round (simulationTime s' / 86400)] |} /\
          labels (charts s') =
            labels (charts s) ++ [round (simulationTime s' / 86400)] /\
          dataset0 (charts s') = dataset0 (charts s) ++ [vehicleSum b] /\
          dataset1 (charts s') = dataset1 (charts s) ++ [vehicleSum g] /\
          dataset2 (charts s') = dataset2 (charts s) ++ [vehicleSum l]
    else
      scenarioComparison s' = scenarioComparison s /\
      labels (charts s') = labels (charts s) /\
      dataset0 (charts s') = dataset0 (charts s) /\
      dataset1 (charts s') = dataset1 (charts s) /\
      dataset2 (charts s') = dataset2 (charts s).
Proof.
  intros Hplay Hmap Hwf.
  destruct (simulationStep_charts s Hplay Hmap Hwf) as (s' & Hrun & Htime & Hif).
  exists s'. split; [exact Hrun|]. split; [exact Htime|].
  destruct (Z.rem (floor (simulationTime s')) 60 =? 0)%Z; [|exact Hif].
  case_bool_decide; [exact Hif|].
  destruct Hif as (b & g & l & Hb & Hg & Hl & Hcmp & Hlabels & H0 & H1 & H2).
  exists b, g, l. rewrite <- !totalEmissions_sum. by repeat split.
Qed.

End Tick.

(** ** The example network *)

Lemma demo_routes_ok : routes_ok demo.
Proof.
  intros routeId route H. simpl in H.
  repeat (case_decide; [injection H as <-; simpl; lra|]). done.
Qed.

Lemma demo_arrivals_ok : arrivals_ok demo.
Proof. intros t toNode size Hin. by apply elem_of_nil in Hin. Qed.

Lemma demo_routes_configured : routes_configured demo.
Proof.
  intros routeId route H. simpl in H.
  repeat (case_decide; [injection H as <-; simpl; repeat split; by eexists|]).
  done.
Qed.

Lemma demo_playing_well_formed : well_formed demo_playing.
Proof.
  split; [exact demo_nodes_configured|].
  split; [exact demo_routes_configured | exact demo_scenarios_present].
Qed.

Lemma floor_first_tick : floor (0 + 1 / 60 * 1) = 0%Z.
Proof. unfold floor. symmetry. apply Int_part_spec. simpl. lra. Qed.

Lemma round_first_tick : round ((0 + 1 / 60 * 1) / 86400) = 0%Z.
Proof. unfold round. symmetry. apply Int_part_spec. simpl. lra. Qed.

(** The first tick of the example network: the floor of the new time, 1/60,
    is 0, a multiple of 60, and day 0 is not yet listed, so the tick takes
    the first snapshot. *)
Lemma chart_snapshot_on_minute_ticks_witness :
  isPlaying demo_playing = true /\
  (theMap demo_playing = true \/ windowMap demo_playing = true) /\
  well_formed demo_playing /\
  exists s' b,
    simulationStep utcMonth demo_playing = (Some tt, s') /\
    oget "baseline" (co2Data s') = Some b /\
    scenarioComparison s' =
      {| baseline := [0%Z]; green_rail := [0%Z]; local_source := [0%Z] |} /\
    labels (charts s') = [0%Z] /\
    dataset0 (charts s') = [vehicleSum b].
Proof.
  split; [reflexivity|]. split; [left; reflexivity|].
  split; [exact demo_playing_well_formed|].
  destruct (chart_snapshot_on_minute_ticks utcMonth demo_playing eq_refl
              (or_introl eq_refl) demo_playing_well_formed)
    as (s' & Hrun & Htime & Hif).
  rewrite Htime in Hif. simpl in Hif.
  rewrite floor_first_tick, round_first_tick in Hif. simpl in Hif.
  destruct Hif as (b & g & l & Hb & _ & _ & Hcmp & Hlabels & Hd0 & _).
  exists s', b. repeat split; assumption.
Defined.

(** ** Shipments and the emissions accumulators *)

(** What one triggering route does, whatever its vehicle type: the source
    loses the shipment, its outbound rate gains it, and the accumulator
    slot of the vehicle type receives the [+=] of JavaScript. *)
Lemma processRoute_effect routeId route source a b acc s :
  oget routeId (routesData s) = Some route ->
  oget (from route) (nodeState s) = Some source ->
  route_capacity route * 0.8 < stock source ->
  nodesData s !! from route = Some a ->
  nodesData s !! to route = Some b ->
  oget (currentScenario s) (co2Data s) = Some acc ->
  exists s' source' acc',
    processRoute routeId s = (Some tt, s') /\
    oget (from route) (nodeState s') = Some source' /\
    stock source' = stock source - Rmin (route_capacity route) (stock source) /\
    outbound_rate source' =
      outbound_rate source + Rmin (route_capacity route) (stock source) /\
    oget (currentScenario s) (co2Data s') = Some acc' /\
    acc' !! vehicle route =
      Some (js_add (getv acc (vehicle route))
                   (Num (emissionsOf route source a b))) /\
    forall key, key <> vehicle route -> acc' !! key = acc !! key.
Proof.
  intros Hr Hs Hlt Ha Hb Hacc.
  rewrite (processRoute_ships _ _ _ _ _ _ _ Hr Hs Hlt Ha Hb Hacc).
  eexists _, _, _. split; [done|]. simpl. rewrite !oget_oset_eq.
  split; [done|]. split; [done|]. split; [done|]. split; [done|].
  split; [apply lookup_insert_eq|]. intros key Hne. by apply lookup_insert_ne.
Qed.



Lemma demo_multimodal_shipment : Rmin 500 900 = 500.
Proof. unfold Rmin. destruct (Rle_dec _ _); lra. Qed.

(** C2 at a multimodal route of the example network: the shipment leaves
    the factory (stock 900 to 400, outbound rate 0 to 500), but nothing is
    added to a running total: the accumulator has no [multimodal] slot, and
    the slot the pass creates holds [NaN]. *)
Theorem multimodal_shipment_stores_NaN :
  exists s' source acc,
    processRoute "sweden_store_mm" demo = (Some tt, s') /\
    oget "N1_SWE" (nodeState s') = Some source /\
    stock source = 400 /\ outbound_rate source = 500 /\
    oget "baseline" (co2Data demo) = Some zeroEmissions /\
    zeroEmissions !! "multimodal" = None /\
    oget "baseline" (co2Data s') = Some acc /\
    acc !! "multimodal" = Some NaN.
Proof.
  destruct (processRoute_effect "sweden_store_mm"
    {| from := "N1_SWE"; to := "N4_RET"; vehicle := "multimodal";
       route_capacity := 500; speed := 60; emission := 0.05; frequency := 48 |}
    {| stock := 900; capacity := 1000; production_rate := 0;
       sales_rate := 0; inbound_rate := 0; outbound_rate := 0 |}
    {| type := "manufacturing"; initial_stock := 500; coords := (59, 18) |}
    {| type := "retail"; initial_stock := 100; coords := (52, 13) |}
    zeroEmissions demo)
    as (s' & source & acc & Hrun & Hsource & Hstock & Hout & Hacc & Hslot & _);
    try reflexivity.
  { simpl. lra. }
  simpl in *. rewrite demo_multimodal_shipment in *.
  exists s', source, acc. repeat split; try done; lra.
Qed.


Lemma demo_truck_shipment : 100 * 0.8 < 900.
Proof. lra. Qed.


(** ** Seasonality *)

(** C7: the seasonality multiplier of a date is decided by its calendar
    month alone: 1.8 in months 8 and 9, 1.3 in month 1, 0.8 in months 6 and
    7, and 1.0 in every other month; two dates in the same month, of
    whatever years, have the same multiplier. *)
Theorem seasonality_by_month_only (getMonth : Z -> Z) (date other : Z) :
  ((getMonth date + 1 = 8 \/ getMonth date + 1 = 9)%Z ->
   getSeasonalityMultiplier getMonth date = 1.8) /\
  ((getMonth date + 1 = 1)%Z ->
   getSeasonalityMultiplier getMonth date = 1.3) /\
  ((getMonth date + 1 = 6 \/ getMonth date + 1 = 7)%Z ->
   getSeasonalityMultiplier getMonth date = 0.8) /\
  ((getMonth date + 1 <> 8 /\ getMonth date + 1 <> 9 /\
    getMonth date + 1 <> 1 /\ getMonth date + 1 <> 6 /\
    getMonth date + 1 <> 7)%Z ->
   getSeasonalityMultiplier getMonth date = 1.0) /\
  (getMonth other = getMonth date ->
   getSeasonalityMultiplier getMonth other =
   getSeasonalityMultiplier getMonth date).
Proof.
  unfold getSeasonalityMultiplier. cbv zeta. repeat split.
  - intros [->| ->]; reflexivity.
  - intros ->. reflexivity.
  - intros [->| ->]; reflexivity.
  - intros (H8 & H9 & H1 & H6 & H7).
    apply Z.eqb_neq in H8, H9, H1, H6, H7.
    by rewrite H8, H9, H1, H6, H7.
  - intros ->. reflexivity.
Qed.

(** Mid-August of 2024 and of 2023, read in UTC. *)
Lemma seasonality_by_month_only_witness :
  (utcMonth 1723680000000 + 1 = 8)%Z /\
  utcMonth 1692057600000 = utcMonth 1723680000000 /\
  getSeasonalityMultiplier utcMonth 1723680000000 = 1.8 /\
  getSeasonalityMultiplier utcMonth 1692057600000 =
  getSeasonalityMultiplier utcMonth 1723680000000.
Proof.
  split; [reflexivity|]. split; [reflexivity|].
  destruct (seasonality_by_month_only utcMonth 1723680000000 1692057600000)
    as (Hpeak & _ & _ & _ & Hsame).
  split; [apply Hpeak; left; reflexivity | apply Hsame; reflexivity].
Defined.

(** ** Geo utility *)

Lemma atan2_pos y x : 0 < x -> atan2 y x = atan (y / x).
Proof.
  intros Hx. unfold atan2. destruct (Rlt_dec 0 x); [done | contradiction].
Qed.

(** C5, on the program's own numbers.  Between the antipodal points
    (-8, -180) and (8, 0) the term [a] rounds to 1.0000000000000002, so
    [Math.sqrt(1 - a)] is [NaN] and so is the distance, in either
    direction: the two distances are not equal ([NaN == NaN] is false), and
    neither is a distance.  This holds on every host whose sine and cosine
    are correctly rounded at the four angles involved. *)
Theorem calculateDistance_antipodes_NaN
    (Math_sin Math_cos : PrimFloat.float -> PrimFloat.float)
    (Math_atan2 : PrimFloat.float -> PrimFloat.float -> PrimFloat.float) :
  Doubles.host_rounds_correctly Math_sin Math_cos Math_atan2 ->
  let dist a b :=
    Doubles.calculateDistance Math_sin Math_cos Math_atan2 a.1 a.2 b.1 b.2 in
  dist Doubles.south Doubles.north = PrimFloat.nan /\
  dist Doubles.north Doubles.south = PrimFloat.nan /\
  PrimFloat.eqb (dist Doubles.south Doubles.north)
                (dist Doubles.north Doubles.south) = false.
Proof.
  intros (Hs8 & Hs8' & Hs90 & Hs90' & Hc8 & Hc8' & Hnan). cbv beta zeta.
  assert (H1 : Doubles.calculateDistance Math_sin Math_cos Math_atan2
                 Doubles.south.1 Doubles.south.2
                 Doubles.north.1 Doubles.north.2 = PrimFloat.nan).
  { cbv [Doubles.calculateDistance Doubles.south Doubles.north Doubles.Math_PI
         fst snd]. cbv.
    rewrite Hs8, Hs90, Hc8, Hc8'. cbv. rewrite Hnan. reflexivity. }
  assert (H2 : Doubles.calculateDistance Math_sin Math_cos Math_atan2
                 Doubles.north.1 Doubles.north.2
                 Doubles.south.1 Doubles.south.2 = PrimFloat.nan).
  { cbv [Doubles.calculateDistance Doubles.south Doubles.north Doubles.Math_PI
         fst snd]. cbv.
    rewrite Hs8', Hs90', Hc8, Hc8'. cbv. rewrite Hnan. reflexivity. }
  rewrite H1, H2. repeat split.
Qed.

Lemma calculateDistance_antipodes_NaN_witness :
  let dist a b :=
    Doubles.calculateDistance Doubles.table_sin Doubles.table_cos
      Doubles.table_atan2 a.1 a.2 b.1 b.2 in
  dist Doubles.south Doubles.north = PrimFloat.nan /\
  dist Doubles.north Doubles.south = PrimFloat.nan /\
  PrimFloat.eqb (dist Doubles.south Doubles.north)
                (dist Doubles.north Doubles.south) = false.
Proof.
  apply (calculateDistance_antipodes_NaN Doubles.table_sin Doubles.table_cos
           Doubles.table_atan2).
  repeat split; try reflexivity.
  intros y. unfold Doubles.table_atan2.
  match goal with
  | |- context [PrimFloat.eqb ?a ?b] => destruct (PrimFloat.eqb a b)
  end; reflexivity.
Defined.

(** From the equator to the pole along a meridian the haversine term [a]
    is one half. *)
Lemma haversine_a_quarter_turn :
  sin ((90 - 0) * PI / 180 / 2) * sin ((90 - 0) * PI / 180 / 2) +
  cos (0 * PI / 180) * cos (90 * PI / 180) *
  sin ((0 - 0) * PI / 180 / 2) * sin ((0 - 0) * PI / 180 / 2) = 1 / 2.
Proof.
  replace ((90 - 0) * PI / 180 / 2) with (PI / 4) by lra.
  replace ((0 - 0) * PI / 180 / 2) with 0 by lra.
  rewrite sin_PI4, sin_0.
  assert (H2 : 0 < sqrt 2) by (apply sqrt_lt_R0; lra).
  assert (Hs : sqrt 2 * sqrt 2 = 2) by (apply sqrt_sqrt; lra).
  replace (1 / sqrt 2 * (1 / sqrt 2)) with (1 / (sqrt 2 * sqrt 2))
    by (field; lra).
  rewrite Hs. lra.
Qed.

(** C4 at the points (0, 0) and (90, 0): the code's second argument of
    [atan2] is the fourth root of [1 - a] where the haversine formula has
    the square root, and the distance it returns is strictly smaller than
    the haversine distance (a quarter of the meridian). *)
Theorem calculateDistance_quarter_turn :
  calculateDistance 0 0 90 0 < haversine_spec 0 0 90 0 /\
  haversine_spec 0 0 90 0 = 6371 * (PI / 2).
Proof.
  unfold calculateDistance, haversine_spec. cbv zeta.
  pose proof haversine_a_quarter_turn as Ha.
  rewrite Ha.
  replace (sin ((90 - 0) * PI / 180 / 2) * sin ((90 - 0) * PI / 180 / 2) +
           cos (0 * PI / 180) * cos (90 * PI / 180) *
           (sin ((0 - 0) * PI / 180 / 2) * sin ((0 - 0) * PI / 180 / 2)))
    with (1 / 2) by (rewrite <- Ha; ring).
  replace (1 - 1 / 2) with (1 / 2) by lra.
  assert (Hh : 0 < sqrt (1 / 2)) by (apply sqrt_lt_R0; lra).
  assert (Hq : 0 < sqrt (sqrt (1 / 2))) by (by apply sqrt_lt_R0).
  rewrite !atan2_pos by done.
  replace (sqrt (1 / 2) / sqrt (1 / 2)) with 1 by (field; lra).
  assert (Hlt : sqrt (1 / 2) / sqrt (sqrt (1 / 2)) < 1).
  { apply Rmult_lt_reg_r with (sqrt (sqrt (1 / 2))); [done|].
    replace (sqrt (1 / 2) / sqrt (sqrt (1 / 2)) * sqrt (sqrt (1 / 2)))
      with (sqrt (1 / 2)) by (field; lra).
    rewrite Rmult_1_l. apply sqrt_more; [done|].
    apply Rlt_le_trans with (sqrt 1);
      [apply sqrt_lt_1; lra | rewrite sqrt_1; lra]. }
  apply atan_increasing in Hlt. rewrite atan_1 in *. split; lra.
Qed.

(** * Further properties of the code *)

(** ** Distances *)

Lemma calculateDistance_unfold lat1 lon1 lat2 lon2 :
  calculateDistance lat1 lon1 lat2 lon2 =
  6371 * (2 * atan2 (sqrt (haversine_a lat1 lon1 lat2 lon2))
                    (sqrt (sqrt (1 - haversine_a lat1 lon1 lat2 lon2)))).
Proof. reflexivity. Qed.

Lemma atan2_quadrant y x : 0 <= y -> 0 <= x -> 0 <= atan2 y x <= PI / 2.
Proof.
  intros Hy Hx. pose proof PI_RGT_0 as Hpi. unfold atan2.
  destruct (Rlt_dec 0 x) as [Hpos|Hnpos].
  - pose proof (atan_bound (y / x)) as [_ Hhi].
    assert (Hq : 0 <= y / x).
    { unfold Rdiv. apply Rmult_le_pos; [lra|].
      left. now apply Rinv_0_lt_compat. }
    destruct Hq as [Hq|Hq].
    + pose proof (atan_increasing 0 (y / x) Hq) as Hinc.
      rewrite atan_0 in Hinc. lra.
    + rewrite <- Hq, atan_0. lra.
  - destruct (Rlt_dec x 0); [lra|].
    destruct (Rlt_dec 0 y); [lra|].
    destruct (Rlt_dec y 0); lra.
Qed.

(** The real-valued distance of the model is not negative. *)
Lemma calculateDistance_nonneg lat1 lon1 lat2 lon2 :
  0 <= calculateDistance lat1 lon1 lat2 lon2.
Proof.
  rewrite calculateDistance_unfold.
  pose proof (atan2_quadrant
    (sqrt (haversine_a lat1 lon1 lat2 lon2))
    (sqrt (sqrt (1 - haversine_a lat1 lon1 lat2 lon2)))
    (sqrt_pos _) (sqrt_pos _)) as Hq.
  lra.
Qed.

(** ** The node update in closed form *)

Lemma run_assignNode_bind {B} nodeId f (k : unit -> M B) s node :
  oget nodeId (nodeState s) = Some node ->
  (assignNode nodeId f ≫= k) s =
  k tt (set_nodeState (oset nodeId (f node) (nodeState s)) s).
Proof. intros H. rewrite run_bind, (run_assignNode _ _ _ _ H). reflexivity. Qed.

Lemma oget_app_skip {V} k (o1 o2 : obj V) :
  k ∉ okeys o1 -> oget k (o1 ++ o2) = oget k o2.
Proof.
  induction o1 as [|[k' v] o1 IH]; intros Hk; [reflexivity|]. simpl.
  destruct (decide (k' = k)) as [->|_].
  - exfalso. apply Hk. simpl. apply list_elem_of_here.
  - apply IH. intros Hin. apply Hk. simpl. now apply list_elem_of_further.
Qed.

Lemma oset_app_skip {V} k (v : V) (o1 o2 : obj V) :
  k ∉ okeys o1 -> oset k v (o1 ++ o2) = o1 ++ oset k v o2.
Proof.
  induction o1 as [|[k' v'] o1 IH]; intros Hk; [reflexivity|]. simpl.
  destruct (decide (k' = k)) as [->|_].
  - exfalso. apply Hk. simpl. apply list_elem_of_here.
  - f_equal. apply IH. intros Hin. apply Hk. simpl.
    now apply list_elem_of_further.
Qed.

Lemma nodeState_set nodes s : nodeState (set_nodeState nodes s) = nodes.
Proof. reflexivity. Qed.

Lemma set_nodeState_twice a b s :
  set_nodeState b (set_nodeState a s) = set_nodeState b s.
Proof. reflexivity. Qed.

Lemma currentScenario_set nodes s :
  currentScenario (set_nodeState nodes s) = currentScenario s.
Proof. reflexivity. Qed.

Lemma nodesData_set nodes s : nodesData (set_nodeState nodes s) = nodesData s.
Proof. reflexivity. Qed.

Ltac exec_node :=
  repeat first
    [ rewrite nodeState_set
    | rewrite set_nodeState_twice
    | rewrite currentScenario_set
    | rewrite nodesData_set
    | rewrite oset_oset
    | rewrite decide_True by assumption
    | rewrite decide_False by assumption
    | erewrite run_read by eassumption
    | rewrite run_gets
    | rewrite run_ret
    | erewrite run_assignNode_bind by first [eassumption | apply oget_oset_eq]
    | erewrite run_assignNode by first [eassumption | apply oget_oset_eq]
    | rewrite bind_twice ].

Lemma updateNode_runs multiplier nodeId data node s :
  oget nodeId (nodeState s) = Some node ->
  nodesData s !! nodeId = Some data ->
  updateNode multiplier nodeId s =
  (Some tt,
   set_nodeState
     (oset nodeId
        (updatedNode multiplier (currentScenario s) nodeId data node)
        (nodeState s)) s).
Proof.
  intros Hn Hd. unfold updateNode, updateScenarioRates, updatedNode.
  destruct (decide (type data = "manufacturing")) as [Hm|Hm],
           (decide (type data = "retail")) as [Hr|Hr],
           (decide (currentScenario s = "green_rail")) as [Hg|Hg],
           (decide (currentScenario s = "local_source")) as [Hl|Hl],
           (decide (nodeId = "N1_SWE")) as [H1|H1],
           (decide (nodeId = "N5_FAC")) as [H5|H5],
           (decide (nodeId = "N2_ROM")) as [H2|H2].
  all: exec_node; reflexivity.
Qed.

Lemma set_nodeState_same s : set_nodeState (nodeState s) s = s.
Proof. destruct s; reflexivity. Qed.

Lemma okeys_updatedNodes multiplier sc defs nodes :
  okeys (updatedNodes multiplier sc defs nodes) = okeys nodes.
Proof.
  unfold okeys, updatedNodes. rewrite map_map. reflexivity.
Qed.

Lemma oget_updatedNodes multiplier sc defs nodes nodeId :
  oget nodeId (updatedNodes multiplier sc defs nodes) =
  (fun node => match defs !! nodeId with
               | Some data => updatedNode multiplier sc nodeId data node
               | None => node
               end) <$> oget nodeId nodes.
Proof.
  induction nodes as [|[k n] nodes IH]; [reflexivity|]. simpl.
  destruct (decide (k = nodeId)) as [->|_]; [reflexivity|exact IH].
Qed.

Lemma forEach_updateNode multiplier s pre post :
  NoDup (okeys (pre ++ post)) ->
  (forall k, k ∈ okeys post -> is_Some (nodesData s !! k)) ->
  forEach (okeys post) (updateNode multiplier)
    (set_nodeState
       (updatedNodes multiplier (currentScenario s) (nodesData s) pre ++ post) s) =
  (Some tt,
   set_nodeState
     (updatedNodes multiplier (currentScenario s) (nodesData s) (pre ++ post)) s).
Proof.
  revert pre. induction post as [|[k n] post IH]; intros pre Hnd Hdef.
  - simpl. rewrite !app_nil_r. reflexivity.
  - assert (Hk : k ∉ okeys pre).
    { unfold okeys in Hnd. rewrite map_app in Hnd.
      apply NoDup_app in Hnd as (_ & Hdis & _).
      intros Hin. apply (Hdis k Hin). simpl. apply list_elem_of_here. }
    destruct (Hdef k) as [data Hdata]; [simpl; apply list_elem_of_here|].
    change (okeys ((k, n) :: post)) with (k :: okeys post).
    change (forEach (k :: okeys post) (updateNode multiplier))
      with (updateNode multiplier k ;; forEach (okeys post) (updateNode multiplier)).
    rewrite run_bind.
    erewrite (updateNode_runs multiplier k data n); cycle 1.
    { rewrite nodeState_set, oget_app_skip
        by (rewrite okeys_updatedNodes; exact Hk).
      simpl. now rewrite decide_True. }
    { exact Hdata. }
    rewrite nodeState_set, set_nodeState_twice, currentScenario_set.
    rewrite oset_app_skip by (rewrite okeys_updatedNodes; exact Hk).
    simpl oset. rewrite decide_True by reflexivity.
    specialize (IH (pre ++ [(k, n)])).
    rewrite <- app_assoc in IH. simpl app in IH.
    unfold updatedNodes in IH at 1. rewrite map_app in IH. simpl map in IH.
    rewrite Hdata, <- app_assoc in IH. simpl app in IH.
    apply IH; [exact Hnd|].
    intros k' Hk'. apply Hdef. simpl. now apply list_elem_of_further.
Qed.

Lemma updateNodeStates_runs getMonth s :
  NoDup (okeys (nodeState s)) -> nodes_configured s ->
  updateNodeStates getMonth s =
  (Some tt,
   set_nodeState
     (updatedNodes (getSeasonalityMultiplier getMonth (currentDate s))
        (currentScenario s) (nodesData s) (nodeState s)) s).
Proof.
  intros Hnd Hcfg. unfold updateNodeStates. rewrite !run_gets.
  pose proof (forEach_updateNode
    (getSeasonalityMultiplier getMonth (currentDate s)) s [] (nodeState s)
    Hnd Hcfg) as H.
  simpl in H. rewrite set_nodeState_same in H. exact H.
Qed.

Lemma demo_keys_NoDup : NoDup (okeys (nodeState demo)).
Proof.
  simpl. apply NoDup_cons. split.
  - intros Hin. apply list_elem_of_singleton in Hin. discriminate.
  - apply NoDup_singleton.
Qed.

Lemma updatedNode_rates multiplier sc nodeId data node :
  inbound_rate (updatedNode multiplier sc nodeId data node) = 0 /\
  outbound_rate (updatedNode multiplier sc nodeId data node) = 0 /\
  capacity (updatedNode multiplier sc nodeId data node) = capacity node.
Proof.
  unfold updatedNode. repeat case_decide; simpl; auto.
Qed.

Lemma updatedNode_stock multiplier sc nodeId data node :
  stock (updatedNode multiplier sc nodeId data node) =
  if decide (type data = "retail") then
    Rmax 0 ((if decide (type data = "manufacturing")
             then Rmin (capacity node) (stock node + 50 * multiplier / 3600)
             else stock node) - 20 * multiplier / 3600)
  else if decide (type data = "manufacturing")
       then Rmin (capacity node) (stock node + 50 * multiplier / 3600)
       else stock node.
Proof.
  unfold updatedNode. repeat case_decide; reflexivity.
Qed.

(** X3.  A node update leaves every node with inbound and outbound rates
    0: what the shipment processor and the arrivals added since the last
    update is wiped. *)
Theorem updateNodeStates_clears_rates (getMonth : Z -> Z) (s : Sim) :
  NoDup (okeys (nodeState s)) -> nodes_configured s ->
  exists s',
    updateNodeStates getMonth s = (Some tt, s') /\
    okeys (nodeState s') = okeys (nodeState s) /\
    forall nodeId node',
      oget nodeId (nodeState s') = Some node' ->
      inbound_rate node' = 0 /\ outbound_rate node' = 0.
Proof.
  intros Hnd Hcfg. eexists. split; [now apply updateNodeStates_runs|].
  rewrite nodeState_set. split; [apply okeys_updatedNodes|].
  intros nodeId node'. rewrite oget_updatedNodes.
  destruct (oget nodeId (nodeState s)) as [node|] eqn:Hn; [|discriminate].
  destruct (Hcfg nodeId) as [data Hd].
  { apply oget_is_Some. rewrite Hn. now eexists. }
  simpl. rewrite Hd. intros [= <-].
  pose proof (updatedNode_rates
    (getSeasonalityMultiplier getMonth (currentDate s)) (currentScenario s)
    nodeId data node) as (Hi & Ho & _).
  now split.
Qed.

Lemma updateNodeStates_clears_rates_witness :
  exists s',
    updateNodeStates utcMonth demo = (Some tt, s') /\
    okeys (nodeState s') = okeys (nodeState demo) /\
    forall nodeId node',
      oget nodeId (nodeState s') = Some node' ->
      inbound_rate node' = 0 /\ outbound_rate node' = 0.
Proof.
  exact (updateNodeStates_clears_rates utcMonth demo
           demo_keys_NoDup demo_nodes_configured).
Defined.

Lemma updateNodeStates_node getMonth s nodeId node data :
  NoDup (okeys (nodeState s)) -> nodes_configured s ->
  oget nodeId (nodeState s) = Some node ->
  nodesData s !! nodeId = Some data ->
  oget nodeId (nodeState (updateNodeStates getMonth s).2) =
  Some (updatedNode (getSeasonalityMultiplier getMonth (currentDate s))
          (currentScenario s) nodeId data node).
Proof.
  intros Hnd Hcfg Hn Hd.
  rewrite (updateNodeStates_runs getMonth s Hnd Hcfg).
  cbn [snd]. rewrite nodeState_set, oget_updatedNodes, Hn. simpl.
  now rewrite Hd.
Qed.

Lemma updatedNode_production multiplier sc nodeId data node :
  production_rate (updatedNode multiplier sc nodeId data node) =
  let base := if decide (type data = "manufacturing") then 50 * multiplier
              else production_rate node in
  if decide (sc = "local_source") then
    if decide (nodeId = "N5_FAC")
    then (if decide (nodeId = "N1_SWE") then 0 else base) * 1.5
    else if decide (nodeId = "N1_SWE") then 0 else base
  else base.
Proof.
  unfold updatedNode. repeat case_decide; try reflexivity; congruence.
Qed.

Lemma stock_view_keys s :
  okeys (nodeState s) = map (fun x : string * R * R => x.1.1) (stock_view s).2.
Proof. unfold okeys, stock_view. simpl. by rewrite map_map. Qed.

Lemma stock_view_updatedNodes m1 m2 sc1 sc2 defs nodes1 nodes2 :
  m2 = m1 ->
  map (fun kn : string * NodeState => (kn.1, stock kn.2, capacity kn.2)) nodes2 =
  map (fun kn : string * NodeState => (kn.1, stock kn.2, capacity kn.2)) nodes1 ->
  map (fun kn : string * NodeState => (kn.1, stock kn.2, capacity kn.2))
      (updatedNodes m2 sc2 defs nodes2) =
  map (fun kn : string * NodeState => (kn.1, stock kn.2, capacity kn.2))
      (updatedNodes m1 sc1 defs nodes1).
Proof.
  intros ->. revert nodes2.
  induction nodes1 as [|[k1 n1] nodes1 IH]; intros [|[k2 n2] nodes2] H;
    try done.
  simpl in H. injection H as -> Hs Hc Hrest.
  simpl. f_equal; [|by apply IH].
  destruct (defs !! k1) as [data|]; [|by rewrite Hs, Hc].
  rewrite !updatedNode_stock.
  destruct (updatedNode_rates m1 sc1 k1 data n1) as (_ & _ & ->).
  destruct (updatedNode_rates m1 sc2 k1 data n2) as (_ & _ & ->).
  by rewrite Hs, Hc.
Qed.

(** Two states that agree on [stock_view] still do after a node update
    each, whatever their scenarios and rates. *)
Lemma stock_view_updateNodeStates getMonth s1 s2 :
  NoDup (okeys (nodeState s1)) -> nodes_configured s1 ->
  stock_view s2 = stock_view s1 ->
  stock_view (updateNodeStates getMonth s2).2 =
  stock_view (updateNodeStates getMonth s1).2 /\
  NoDup (okeys (nodeState (updateNodeStates getMonth s1).2)) /\
  nodes_configured (updateNodeStates getMonth s1).2.
Proof.
  intros Hnd Hcfg Hview.
  assert (Hkeys : okeys (nodeState s2) = okeys (nodeState s1))
    by by rewrite !stock_view_keys, Hview.
  unfold stock_view in Hview. injection Hview as Hdata Hdate Hnodes.
  assert (Hcfg2 : nodes_configured s2).
  { intros nodeId Hin. rewrite Hdata. apply Hcfg. by rewrite <- Hkeys. }
  rewrite (updateNodeStates_runs getMonth s1 Hnd Hcfg).
  rewrite (updateNodeStates_runs getMonth s2) by (by rewrite ?Hkeys).
  cbn [snd]. unfold stock_view. rewrite !nodeState_set, !nodesData_set.
  change (currentDate (set_nodeState ?n ?s)) with (currentDate s).
  rewrite Hdata, Hdate.
  split; [|split].
  - f_equal. by apply stock_view_updatedNodes.
  - by rewrite okeys_updatedNodes.
  - intros nodeId Hin. rewrite nodeState_set, okeys_updatedNodes in Hin.
    rewrite nodesData_set. by apply Hcfg.
Qed.

Lemma run_updatesUnder getMonth sc scs s :
  run getMonth (updatesUnder (sc :: scs)) s =
  run getMonth (updatesUnder scs)
    (updateNodeStates getMonth (set_currentScenario sc s)).2.
Proof. reflexivity. Qed.

Lemma stock_view_updatesUnder getMonth scs1 scs2 s1 s2 :
  NoDup (okeys (nodeState s1)) -> nodes_configured s1 ->
  stock_view s2 = stock_view s1 -> length scs2 = length scs1 ->
  stock_view (run getMonth (updatesUnder scs2) s2) =
  stock_view (run getMonth (updatesUnder scs1) s1).
Proof.
  revert scs2 s1 s2.
  induction scs1 as [|sc1 scs1 IH]; intros [|sc2 scs2] s1 s2 Hnd Hcfg Hview Hlen;
    try done.
  rewrite !run_updatesUnder.
  destruct (stock_view_updateNodeStates getMonth
              (set_currentScenario sc1 s1) (set_currentScenario sc2 s2))
    as (Hview' & Hnd' & Hcfg'); try done.
  apply IH; try done. simpl in Hlen. lia.
Qed.

(** X4.  The stock a node update leaves in a node is a function of the
    node's definition, of the stock and the capacity it finds and of the
    date: it depends neither on the selected scenario nor on the production
    and sales rates it finds, which are recomputed before they are used.
    So two simulations with the same definitions, date, stocks and
    capacities have the same stocks after any number of node updates,
    whatever scenario is selected before each update and whatever the rates
    were at the start.  In particular [local_source] does not stop
    [N1_SWE] from producing: the update leaves its production rate 0, and
    the next update adds the seasonal production to its stock all the
    same. *)
Theorem stock_update_ignores_scenario (getMonth : Z -> Z) (s1 s2 : Sim)
    (scs1 scs2 : list string) :
  NoDup (okeys (nodeState s1)) -> nodes_configured s1 ->
  stock_view s2 = stock_view s1 -> length scs2 = length scs1 ->
  let m := getSeasonalityMultiplier getMonth (currentDate s1) in
  (forall nodeId node data,
     oget nodeId (nodeState s1) = Some node ->
     nodesData s1 !! nodeId = Some data ->
     exists node',
       oget nodeId (nodeState (updateNodeStates getMonth s1).2) = Some node' /\
       stock node' = updatedStock m data node /\
       capacity node' = capacity node) /\
  stock_view (run getMonth (updatesUnder scs2) s2) =
  stock_view (run getMonth (updatesUnder scs1) s1) /\
  (forall node data,
     currentScenario s1 = "local_source" ->
     oget "N1_SWE" (nodeState s1) = Some node ->
     nodesData s1 !! "N1_SWE" = Some data ->
     type data = "manufacturing" ->
     exists node' node'',
       oget "N1_SWE" (nodeState (updateNodeStates getMonth s1).2) = Some node' /\
       production_rate node' = 0 /\
       oget "N1_SWE"
         (nodeState (updateNodeStates getMonth
                       (updateNodeStates getMonth s1).2).2) = Some node'' /\
       production_rate node'' = 0 /\
       stock node'' =
         Rmin (capacity node)
              (Rmin (capacity node) (stock node + 50 * m / 3600)
               + 50 * m / 3600)).
Proof.
  intros Hnd Hcfg Hview Hlen m. split; [|split].
  - intros nodeId node data Hnode Hdata. eexists.
    split; [by apply updateNodeStates_node|].
    destruct (updatedNode_rates m (currentScenario s1) nodeId data node)
      as (_ & _ & Hcap).
    split; [|exact Hcap]. apply updatedNode_stock.
  - by apply stock_view_updatesUnder.
  - intros node data Hsc Hnode Hdata Htype.
    destruct (stock_view_updateNodeStates getMonth s1 s1 Hnd Hcfg eq_refl)
      as (_ & Hnd' & Hcfg').
    pose proof (updateNodeStates_node getMonth s1 "N1_SWE" node data
                  Hnd Hcfg Hnode Hdata) as Hnode'.
    assert (Hs' : updateNodeStates getMonth s1 =
                  (Some tt,
                   set_nodeState
                     (updatedNodes m (currentScenario s1) (nodesData s1)
                        (nodeState s1)) s1))
      by by apply updateNodeStates_runs.
    rewrite Hs' in Hnd', Hcfg', Hnode' |- *. cbn [snd] in *.
    pose proof (updateNodeStates_node getMonth _
                  "N1_SWE" _ data Hnd' Hcfg' Hnode') as Hnode''.
    rewrite nodesData_set, currentScenario_set in Hnode''.
    change (currentDate (set_nodeState ?n ?s)) with (currentDate s) in Hnode''.
    specialize (Hnode'' Hdata).
    eexists _, _. split; [exact Hnode'|]. split.
    { rewrite updatedNode_production, Hsc. reflexivity. }
    split; [exact Hnode''|]. split.
    { rewrite updatedNode_production, Hsc. reflexivity. }
    subst m. rewrite !updatedNode_stock.
    destruct (updatedNode_rates
                (getSeasonalityMultiplier getMonth (currentDate s1))
                (currentScenario s1) "N1_SWE" data node) as (_ & _ & ->).
    rewrite Htype. reflexivity.
Qed.

(** Two updates of the example network under [local_source] leave the
    stocks that two updates under the baseline leave. *)
Lemma stock_update_ignores_scenario_witness :
  stock_view
    (run utcMonth (updatesUnder ["local_source"; "local_source"]) demo) =
  stock_view (run utcMonth (updatesUnder ["baseline"; "baseline"]) demo).
Proof.
  exact (proj1 (proj2
    (stock_update_ignores_scenario utcMonth demo demo
       ["baseline"; "baseline"] ["local_source"; "local_source"]
       demo_keys_NoDup demo_nodes_configured eq_refl eq_refl))).
Defined.

(** X5.  In one node update the stock of a manufacturing node never falls
    and stops at the capacity, the stock of a retail node never rises and
    stops at 0, and every other stock stays as it is. *)
Theorem updateNodeStates_moves_stock (getMonth : Z -> Z) (s : Sim)
    (nodeId : string) (node : NodeState) (data : NodeData) :
  NoDup (okeys (nodeState s)) -> nodes_configured s ->
  oget nodeId (nodeState s) = Some node ->
  nodesData s !! nodeId = Some data ->
  0 <= stock node <= capacity node ->
  exists node',
    oget nodeId (nodeState (updateNodeStates getMonth s).2) = Some node' /\
    capacity node' = capacity node /\
    (type data = "manufacturing" ->
     stock node <= stock node' <= capacity node /\
     (stock node = capacity node -> stock node' = capacity node)) /\
    (type data = "retail" ->
     0 <= stock node' <= stock node /\
     (stock node = 0 -> stock node' = 0)) /\
    (type data <> "manufacturing" -> type data <> "retail" ->
     stock node' = stock node).
Proof.
  intros Hnd Hcfg Hn Hd Hrange. eexists. split.
  { eapply updateNodeStates_node; eassumption. }
  pose proof (multiplier_nonneg getMonth (currentDate s)) as Hm.
  set (m := getSeasonalityMultiplier getMonth (currentDate s)) in *.
  split; [apply updatedNode_rates|].
  rewrite updatedNode_stock.
  split; [|split].
  - intros Ht. rewrite Ht.
    rewrite decide_False by discriminate. rewrite decide_True by reflexivity.
    unfold Rmin. destruct (Rle_dec _ _); split; intros; lra.
  - intros Ht. rewrite Ht.
    rewrite decide_True by reflexivity. rewrite decide_False by discriminate.
    unfold Rmax. destruct (Rle_dec _ _); split; intros; lra.
  - intros H1 H2. now rewrite !decide_False.
Qed.

Lemma updateNodeStates_moves_stock_witness :
  exists node',
    oget "N1_SWE" (nodeState (updateNodeStates utcMonth demo).2) = Some node' /\
    capacity node' = 1000 /\
    900 <= stock node' <= 1000.
Proof.
  destruct (updateNodeStates_moves_stock utcMonth demo "N1_SWE"
              {| stock := 900; capacity := 1000; production_rate := 0;
                 sales_rate := 0; inbound_rate := 0; outbound_rate := 0 |}
              {| type := "manufacturing"; initial_stock := 500;
                 coords := (59, 18) |}
              demo_keys_NoDup demo_nodes_configured eq_refl eq_refl
              ltac:(simpl; lra))
    as (node' & Hn & Hc & Hm & _).
  exists node'. split; [exact Hn|]. split; [exact Hc|].
  exact (proj1 (Hm eq_refl)).
Defined.

(** X6.  With the scenario [local_source] selected, a node update leaves
    [N1_SWE] with production rate 0 and [N5_FAC] with one and a half times
    the rate it would have otherwise: [75 * multiplier] for a manufacturing
    node, and one and a half times its previous rate for any other. *)
Theorem local_source_overrides_production (getMonth : Z -> Z) (s : Sim)
    (nodeId : string) (node : NodeState) (data : NodeData) :
  NoDup (okeys (nodeState s)) -> nodes_configured s ->
  currentScenario s = "local_source" ->
  oget nodeId (nodeState s) = Some node ->
  nodesData s !! nodeId = Some data ->
  exists node',
    oget nodeId (nodeState (updateNodeStates getMonth s).2) = Some node' /\
    (nodeId = "N1_SWE" -> production_rate node' = 0) /\
    (nodeId = "N5_FAC" -> type data = "manufacturing" ->
     production_rate node' =
       50 * getSeasonalityMultiplier getMonth (currentDate s) * 1.5) /\
    (nodeId = "N5_FAC" -> type data <> "manufacturing" ->
     production_rate node' = production_rate node * 1.5) /\
    (nodeId <> "N1_SWE" -> nodeId <> "N5_FAC" -> type data = "manufacturing" ->
     production_rate node' =
       50 * getSeasonalityMultiplier getMonth (currentDate s)).
Proof.
  intros Hnd Hcfg Hsc Hn Hd. eexists. split.
  { eapply updateNodeStates_node; eassumption. }
  rewrite updatedNode_production, Hsc. cbv zeta.
  rewrite decide_True by reflexivity.
  repeat split.
  - intros ->. rewrite decide_False by discriminate.
    now rewrite decide_True.
  - intros -> Ht. rewrite decide_True by reflexivity.
    rewrite decide_False by discriminate. now rewrite decide_True.
  - intros -> Ht. rewrite decide_True by reflexivity.
    rewrite decide_False by discriminate. now rewrite decide_False.
  - intros H1 H5 Ht. rewrite !decide_False by assumption.
    now rewrite decide_True.
Qed.

Lemma local_source_overrides_production_witness :
  exists node',
    oget "N1_SWE"
      (nodeState (updateNodeStates utcMonth
                    (set_currentScenario "local_source" demo)).2) = Some node' /\
    production_rate node' = 0.
Proof.
  destruct (local_source_overrides_production utcMonth
              (set_currentScenario "local_source" demo) "N1_SWE"
              {| stock := 900; capacity := 1000; production_rate := 0;
                 sales_rate := 0; inbound_rate := 0; outbound_rate := 0 |}
              {| type := "manufacturing"; initial_stock := 500;
                 coords := (59, 18) |}
              demo_keys_NoDup demo_nodes_configured eq_refl eq_refl eq_refl)
    as (node' & Hn & H1 & _).
  exists node'. split; [exact Hn|exact (H1 eq_refl)].
Defined.

(** ** The animator, case by case *)

Lemma animate_missing routeId stepDuration s :
  movingMarkers s !! routeId = None ->
  animate routeId stepDuration s = (None, s).
Proof.
  intros Hv. unfold animate.
  by rewrite (run_read_fail (fun s => movingMarkers s !! routeId) _ _ Hv).
Qed.

Lemma animate_stopped routeId stepDuration s v :
  movingMarkers s !! routeId = Some v -> isMoving v = false ->
  animate routeId stepDuration s = (Some tt, s).
Proof.
  intros Hv Hidle. unfold animate.
  rewrite (run_read (fun s => movingMarkers s !! routeId) _ _ _ Hv).
  by rewrite Hidle.
Qed.

Lemma animate_arrives routeId stepDuration s v :
  movingMarkers s !! routeId = Some v -> isMoving v = true ->
  (length (routeCoords v) <= S (currentPosition v))%nat ->
  animate routeId stepDuration s =
  (Some tt,
   set_nextTimer (Pos.succ (nextTimer s))
     (set_timers
        (timers s ++ [{| timer_id := nextTimer s; timer_delay := 3000;
                         timer_cb := ArrivalResetCb routeId |}])
        (set_movingMarkers
           (<[routeId := set_isMoving false
                           (set_currentPosition (S (currentPosition v)) v)]>
              (movingMarkers s)) s))).
Proof.
  intros Hv Hmoving Hend. unfold animate.
  rewrite (run_read (fun s => movingMarkers s !! routeId) _ _ _ Hv).
  rewrite Hmoving. change (negb true) with false. cbv iota.
  rewrite (run_assignVehicle _ _ _ _ v Hv).
  erewrite (run_read (fun s => movingMarkers s !! routeId))
    by (simpl; apply lookup_insert_eq).
  cbn [routeCoords currentPosition set_currentPosition].
  assert ((length (routeCoords v) <=? S (currentPosition v))%nat = true) as ->
    by by apply Nat.leb_le.
  unfold onVehicleArrival. rewrite run_gets.
  cbn [movingMarkers set_movingMarkers]. rewrite lookup_insert_eq.
  erewrite run_assignVehicle by (simpl; apply lookup_insert_eq).
  rewrite run_setTimeout. cbn [movingMarkers set_movingMarkers].
  rewrite insert_insert_eq. reflexivity.
Qed.

Lemma animate_advances routeId stepDuration s v nextCoord :
  movingMarkers s !! routeId = Some v -> isMoving v = true ->
  routeCoords v !! S (currentPosition v) = Some nextCoord ->
  animate routeId stepDuration s =
  (Some tt,
   set_nextTimer (Pos.succ (nextTimer s))
     (set_timers
        (timers s ++ [{| timer_id := nextTimer s; timer_delay := stepDuration;
                         timer_cb := AnimateCb routeId stepDuration |}])
        (set_movingMarkers
           (<[routeId := set_animationId (Some (nextTimer s))
                           (set_marker nextCoord
                              (set_currentPosition (S (currentPosition v)) v))]>
              (movingMarkers s)) s))).
Proof.
  intros Hv Hmoving Hnext. unfold animate.
  rewrite (run_read (fun s => movingMarkers s !! routeId) _ _ _ Hv).
  rewrite Hmoving. change (negb true) with false. cbv iota.
  rewrite (run_assignVehicle _ _ _ _ v Hv).
  erewrite (run_read (fun s => movingMarkers s !! routeId))
    by (simpl; apply lookup_insert_eq).
  cbn [routeCoords currentPosition set_currentPosition].
  assert ((length (routeCoords v) <=? S (currentPosition v))%nat = false) as ->.
  { apply Nat.leb_gt. by eapply lookup_lt_Some. }
  rewrite Hnext.
  change (prop_of (Some nextCoord) ≫= ?k) with (mret nextCoord ≫= k).
  rewrite run_ret.
  erewrite run_assignVehicle by (simpl; apply lookup_insert_eq).
  rewrite run_setTimeout.
  erewrite assignVehicle_runs by (simpl; apply lookup_insert_eq).
  cbn [movingMarkers set_movingMarkers set_timers set_nextTimer].
  rewrite !insert_insert_eq. reflexivity.
Qed.

Lemma startVehicleMovement_idles routeId s :
  (forall v, movingMarkers s !! routeId = Some v ->
             isMoving v = true \/ (length (routeCoords v) <= 1)%nat) ->
  startVehicleMovement routeId s = (Some tt, s).
Proof.
  intros Hidle. unfold startVehicleMovement. rewrite run_gets.
  destruct (movingMarkers s !! routeId) as [v|] eqn:Hv; [|done].
  destruct (Hidle v eq_refl) as [Hm|Hlen].
  - by rewrite Hm.
  - assert ((1 <? length (routeCoords v))%nat = false) as ->
      by by apply Nat.ltb_ge.
    by rewrite andb_false_r.
Qed.

Lemma startVehicleMovement_starts routeId s v c0 c1 rest :
  movingMarkers s !! routeId = Some v -> isMoving v = false ->
  routeCoords v = c0 :: c1 :: rest ->
  startVehicleMovement routeId s =
  (Some tt,
   set_nextTimer (Pos.succ (nextTimer s))
     (set_timers
        (timers s ++
         [{| timer_id := nextTimer s;
             timer_delay := duration v / INR (length (routeCoords v) - 1);
             timer_cb := AnimateCb routeId
                           (duration v / INR (length (routeCoords v) - 1)) |}])
        (set_movingMarkers
           (<[routeId := set_animationId (Some (nextTimer s))
                           (set_marker c1
                              (set_currentPosition 1%nat
                                 (set_isMoving true v)))]>
              (movingMarkers s)) s))).
Proof.
  intros Hv Hidle Hcoords. unfold startVehicleMovement. rewrite run_gets, Hv.
  rewrite Hidle.
  assert ((1 <? length (routeCoords v))%nat = true) as ->
    by by rewrite Hcoords.
  cbn [negb andb].
  rewrite (run_assignVehicle _ _ _ _ v Hv).
  erewrite run_assignVehicle by (simpl; apply lookup_insert_eq).
  cbn [movingMarkers set_movingMarkers]. rewrite insert_insert_eq.
  erewrite (animate_advances routeId _ _ _ c1); cycle 1.
  { simpl. apply lookup_insert_eq. }
  { done. }
  { simpl. by rewrite Hcoords. }
  cbn [movingMarkers set_movingMarkers set_timers set_nextTimer timers nextTimer].
  rewrite insert_insert_eq. reflexivity.
Qed.

Lemma run_clearTimeout {B} id (k : unit -> M B) s :
  (clearTimeout id ≫= k) s =
  k tt (set_timers (filter (fun t => timer_id t ≠ id) (timers s)) s).
Proof. reflexivity. Qed.

Lemma resetVehiclePosition_runs routeId s v :
  movingMarkers s !! routeId = Some v ->
  exists s' v',
    resetVehiclePosition routeId s = (Some tt, s') /\
    movingMarkers s' = <[routeId := v']> (movingMarkers s) /\
    timers s' = match animationId v with
                | Some id => filter (fun t => timer_id t ≠ id) (timers s)
                | None => timers s
                end /\
    nextTimer s' = nextTimer s /\
    isMoving v' = false /\ currentPosition v' = 0%nat /\
    animationId v' = None /\ routeCoords v' = routeCoords v /\
    marker v' = match routeCoordinates s !! routeId with
                | Some (c0 :: _) => c0
                | _ => marker v
                end.
Proof.
  intros Hv. unfold resetVehiclePosition. rewrite run_gets, Hv.
  destruct (animationId v) as [id|] eqn:Hid;
    destruct (routeCoordinates s !! routeId) as [[|c0 cs]|] eqn:Hc.
  all: rewrite ?bind_twice, ?run_clearTimeout, ?run_ret.
  all: repeat first
         [ rewrite bind_twice
         | rewrite run_ret
         | rewrite run_gets; cbn [routeCoordinates set_movingMarkers set_timers];
           rewrite Hc
         | erewrite run_assignVehicle
             by (cbn [movingMarkers set_movingMarkers set_timers];
                 first [exact Hv | apply lookup_insert_eq])
         | erewrite assignVehicle_runs
             by (cbn [movingMarkers set_movingMarkers set_timers];
                 first [exact Hv | apply lookup_insert_eq]) ].
  all: eexists; eexists; split; [reflexivity|].
  all: cbn [movingMarkers set_movingMarkers set_timers timers nextTimer].
  all: rewrite ?insert_insert_eq.
  all: split; [reflexivity|]; split; [reflexivity|]; split; [reflexivity|].
  all: simpl; rewrite ?Hid; done.
Qed.

(** ** The tick leaves the animator alone *)

#[export] Instance ships_only_preorder : PreOrder ships_only.
Proof.
  split.
  - intros s. split; [done|]. exists []. by rewrite app_nil_r.
  - intros s1 s2 s3 (Hm1 & new1 & Ht1 & Hn1) (Hm2 & new2 & Ht2 & Hn2).
    split; [congruence|]. exists (new1 ++ new2).
    split; [by rewrite Ht2, Ht1, app_assoc|]. by apply Forall_app.
Qed.

Lemma ships_only_fields s s' :
  movingMarkers s' = movingMarkers s -> timers s' = timers s ->
  ships_only s s'.
Proof.
  intros Hm Ht. split; [done|]. exists []. by rewrite app_nil_r.
Qed.

Lemma ships_only_assignNode nodeId f : respects ships_only (assignNode nodeId f).
Proof.
  apply respects_assignNode; [try apply _ .. |].
  intros s node _. by apply ships_only_fields.
Qed.

Lemma ships_only_updateNodeStates getMonth :
  respects ships_only (updateNodeStates getMonth).
Proof.
  unfold updateNodeStates, updateNode, updateScenarioRates.
  respect; apply ships_only_assignNode.
Qed.

Lemma ships_only_shipmentArrival toNode size :
  respects ships_only (shipmentArrival toNode size).
Proof. unfold shipmentArrival. respect. apply ships_only_assignNode. Qed.

Lemma ships_only_processShipments : respects ships_only processShipments.
Proof.
  unfold processShipments, processRoute.
  respect; try apply ships_only_assignNode.
  - by apply ships_only_fields.
  - intros s. unfold ships_only. simpl. split; [done|].
    eexists. split; [reflexivity|].
    apply Forall_singleton. by do 2 eexists.
Qed.

Lemma ships_only_updateCharts : respects ships_only updateCharts.
Proof. unfold updateCharts. respect; by apply ships_only_fields. Qed.

Lemma ships_only_simulationStep getMonth :
  respects ships_only (simulationStep getMonth).
Proof.
  unfold simulationStep, updateDisplay, requestAnimationFrame.
  respect; try by apply ships_only_fields.
  - apply ships_only_updateNodeStates.
  - apply ships_only_processShipments.
  - apply ships_only_updateCharts.
Qed.

Lemma ships_only_resetSimulation : respects ships_only resetSimulation.
Proof.
  intros s. pose proof (animator_resetSimulation s) as H.
  unfold same, animator_view in H. injection H as Ht _ Hm.
  by apply ships_only_fields.
Qed.

(** X7.  A tick, the node update and the shipment processor on their own,
    and a reset never touch a vehicle and never remove or reorder a pending
    timer: all they do to the queue is append shipment arrivals.  In
    particular no tick ever starts a vehicle. *)
Theorem tick_leaves_vehicles_alone (getMonth : Z -> Z) (s : Sim) :
  ships_only s (simulationStep getMonth s).2 /\
  ships_only s (updateNodeStates getMonth s).2 /\
  ships_only s (processShipments s).2 /\
  ships_only s (resetSimulation s).2 /\
  forall s', ships_only s s' ->
    movingMarkers s' = movingMarkers s /\
    forall t, t ∈ timers s -> t ∈ timers s'.
Proof.
  split; [apply ships_only_simulationStep|].
  split; [apply ships_only_updateNodeStates|].
  split; [apply ships_only_processShipments|].
  split; [apply ships_only_resetSimulation|].
  intros s' (Hm & new & Ht & _). split; [done|].
  intros t Hin. rewrite Ht. apply elem_of_app. by left.
Qed.

(** ** Pending animation steps have an owner *)

Lemma ships_only_keeps_owned s s' :
  ships_only s s' -> steps_owned s -> steps_owned s'.
Proof.
  intros (Hm & new & Ht & Hnew) Hown t routeId d Hin Hcb.
  rewrite Hm. rewrite Ht in Hin. apply elem_of_app in Hin as [Hin|Hin].
  - by apply (Hown t routeId d).
  - rewrite Forall_forall in Hnew. apply Hnew in Hin as (toNode & size & Hcb').
    congruence.
Qed.

Lemma clearTimeout_keeps_owned id s :
  steps_owned s ->
  steps_owned (set_timers (filter (fun t => timer_id t ≠ id) (timers s)) s).
Proof.
  intros Hown t routeId d Hin Hcb. simpl in Hin.
  apply list_elem_of_filter in Hin as [_ Hin]. by apply (Hown t routeId d).
Qed.

(** The state a vehicle operation leaves: the entry of [routeId] replaced
    by [v'], and [new] appended to the timer queue. *)
Lemma owned_after s s' routeId v' new :
  steps_owned s ->
  (forall t d, t ∈ timers s -> timer_cb t <> AnimateCb routeId d) ->
  movingMarkers s' = <[routeId := v']> (movingMarkers s) ->
  timers s' = timers s ++ new ->
  (forall t r d, t ∈ new -> timer_cb t = AnimateCb r d ->
     r = routeId /\ isMoving v' = true /\ animationId v' = Some (timer_id t)) ->
  steps_owned s'.
Proof.
  intros Hown Hnone Hm Ht Hnew t r d Hin Hcb. rewrite Hm.
  rewrite Ht in Hin. apply elem_of_app in Hin as [Hin|Hin].
  - destruct (decide (r = routeId)) as [->|Hne].
    + by destruct (Hnone t d Hin).
    + rewrite lookup_insert_ne by done. by apply (Hown t r d).
  - destruct (Hnew t r d Hin Hcb) as (-> & Hmov & Hid).
    exists v'. by rewrite lookup_insert_eq.
Qed.

Lemma animate_keeps_owned routeId stepDuration s :
  steps_owned s ->
  (forall t d, t ∈ timers s -> timer_cb t <> AnimateCb routeId d) ->
  steps_owned (animate routeId stepDuration s).2.
Proof.
  intros Hown Hnone.
  destruct (movingMarkers s !! routeId) as [v|] eqn:Hv;
    [|by rewrite animate_missing].
  destruct (isMoving v) eqn:Hmov; [|by erewrite animate_stopped].
  destruct (routeCoords v !! S (currentPosition v)) as [c|] eqn:Hc.
  - erewrite animate_advances by done. cbn [snd].
    eapply owned_after; [exact Hown|exact Hnone|reflexivity|reflexivity|].
    intros t r d Hin Hcb. apply list_elem_of_singleton in Hin as ->.
    injection Hcb as <- <-. by simpl.
  - apply lookup_ge_None in Hc.
    erewrite animate_arrives by done. cbn [snd].
    eapply owned_after; [exact Hown|exact Hnone|reflexivity|reflexivity|].
    intros t r d Hin Hcb. by apply list_elem_of_singleton in Hin as ->.
Qed.

Lemma startVehicleMovement_keeps_owned routeId s :
  steps_owned s -> steps_owned (startVehicleMovement routeId s).2.
Proof.
  intros Hown.
  destruct (movingMarkers s !! routeId) as [v|] eqn:Hv; cycle 1.
  { rewrite startVehicleMovement_idles; [done|]. intros v. by rewrite Hv. }
  destruct (isMoving v) eqn:Hmov.
  { rewrite startVehicleMovement_idles; [done|].
    intros v' Hv'. left. congruence. }
  destruct (routeCoords v) as [|c0 [|c1 rest]] eqn:Hcoords.
  1,2: rewrite startVehicleMovement_idles; [done|];
       intros v' Hv'; right; assert (v' = v) as -> by congruence;
       rewrite Hcoords; simpl; lia.
  erewrite startVehicleMovement_starts by done. cbn [snd].
  eapply owned_after; [exact Hown| |reflexivity|reflexivity|].
  - intros t d Hin Hcb. destruct (Hown t routeId d Hin Hcb) as (v' & Hv' & Hm & _).
    congruence.
  - intros t r d Hin Hcb. apply list_elem_of_singleton in Hin as ->.
    injection Hcb as <- _. by simpl.
Qed.

Lemma resetVehiclePosition_keeps_owned routeId s :
  steps_owned s -> steps_owned (resetVehiclePosition routeId s).2.
Proof.
  intros Hown.
  destruct (movingMarkers s !! routeId) as [v|] eqn:Hv; cycle 1.
  { unfold resetVehiclePosition. by rewrite run_gets, Hv. }
  destruct (resetVehiclePosition_runs routeId s v Hv)
    as (s' & v' & -> & Hm & Ht & _ & Hidle & _).
  cbn [snd]. intros t r d Hin Hcb. rewrite Hm.
  assert (Hin' : t ∈ timers s).
  { rewrite Ht in Hin. destruct (animationId v); [|done].
    by apply list_elem_of_filter in Hin as [_ ?]. }
  destruct (Hown t r d Hin' Hcb) as (w & Hw & Hmov & Hid).
  destruct (decide (r = routeId)) as [->|Hne].
  - exfalso. assert (w = v) as -> by congruence.
    rewrite Ht, Hid in Hin. by apply list_elem_of_filter in Hin as [? _].
  - exists w. by rewrite lookup_insert_ne.
Qed.

Lemma fireTimer_keeps_owned id s :
  steps_owned s -> steps_owned (fireTimer id s).2.
Proof.
  intros Hown.
  destruct (find (fun t => bool_decide (timer_id t = id)) (timers s))
    as [t|] eqn:Hfind; cycle 1.
  { unfold fireTimer. by rewrite run_gets, Hfind. }
  rewrite (fireTimer_runs id t s Hfind).
  apply find_some in Hfind as [Hin Hid].
  apply list_elem_of_In in Hin. apply bool_decide_eq_true in Hid.
  pose proof (clearTimeout_keeps_owned id s Hown) as Hown1.
  destruct (timer_cb t) as [toNode size|routeId d|routeId] eqn:Hcb;
    cbn [runCallback].
  - eapply ships_only_keeps_owned; [|exact Hown1].
    apply ships_only_shipmentArrival.
  - apply animate_keeps_owned; [exact Hown1|].
    intros t' d' Hin' Hcb'. simpl in Hin'.
    apply list_elem_of_filter in Hin' as [Hne Hin'].
    destruct (Hown t routeId d Hin Hcb) as (v & Hv & _ & Hidv).
    destruct (Hown t' routeId d' Hin' Hcb') as (v' & Hv' & _ & Hidv').
    congruence.
  - rewrite run_gets. cbn [movingMarkers set_timers].
    destruct (movingMarkers s !! routeId); [|done].
    by apply resetVehiclePosition_keeps_owned.
Qed.

Lemma handle_keeps_owned getMonth e s :
  steps_owned s -> steps_owned (handle getMonth e s).2.
Proof.
  intros Hown. destruct e; cbn [handle].
  - rewrite run_gets. destruct (frames s) as [|n]; [done|].
    rewrite run_modify.
    eapply ships_only_keeps_owned; [apply ships_only_simulationStep|].
    eapply ships_only_keeps_owned; [|exact Hown]. by apply ships_only_fields.
  - by apply fireTimer_keeps_owned.
  - eapply ships_only_keeps_owned; [|exact Hown].
    revert s Hown. unfold toggleSimulation, startSimulation, stopSimulation.
    intros s _. revert s.
    change (respects ships_only
      (modify (fun s => set_isPlaying (negb (isPlaying s)) s) ;;
       playing ← gets isPlaying;
       if (playing : bool) then simulationStep getMonth else mret tt)).
    respect; try by apply ships_only_fields.
    apply ships_only_simulationStep.
  - eapply ships_only_keeps_owned; [|exact Hown]. by apply ships_only_fields.
  - eapply ships_only_keeps_owned; [|exact Hown]. by apply ships_only_fields.
  - eapply ships_only_keeps_owned; [|exact Hown]. by apply ships_only_fields.
  - eapply ships_only_keeps_owned; [|exact Hown].
    apply ships_only_updateNodeStates.
  - eapply ships_only_keeps_owned; [|exact Hown].
    apply ships_only_processShipments.
  - eapply ships_only_keeps_owned; [|exact Hown].
    apply ships_only_simulationStep.
  - by apply startVehicleMovement_keeps_owned.
  - eapply ships_only_keeps_owned; [|exact Hown].
    apply ships_only_resetSimulation.
Qed.

(** X8.  Whatever happens - frames, timers that fire, the controls, direct
    calls, a reset - every pending animation step belongs to a vehicle that
    is moving and that records this very step in its [animationId]: a
    vehicle at rest has no step pending, and no vehicle ever runs two
    chains of steps. *)
Theorem animation_steps_stay_owned (getMonth : Z -> Z) (events : list Event)
    (s : Sim) :
  steps_owned s ->
  steps_owned (run getMonth events s) /\
  steps_owned (resetSimulation (run getMonth events s)).2.
Proof.
  intros Hown.
  assert (Hrun : steps_owned (run getMonth events s)).
  { revert s Hown. induction events as [|e events IH]; intros s Hown; [done|].
    apply IH. by apply handle_keeps_owned. }
  split; [exact Hrun|].
  eapply ships_only_keeps_owned; [apply ships_only_resetSimulation|exact Hrun].
Qed.

Lemma demo_moving_steps_owned : steps_owned demo_moving.
Proof.
  intros t routeId d Hin Hcb. simpl in Hin.
  apply elem_of_cons in Hin as [->|Hin].
  - injection Hcb as <- _. eexists. split; [apply lookup_singleton_eq|done].
  - apply list_elem_of_singleton in Hin as ->. discriminate.
Qed.

Lemma animation_steps_stay_owned_witness :
  steps_owned
    (run utcMonth [TimerFires 1%positive; TimerFires 2%positive;
                   CallStartVehicleMovement "sweden_store"; Frame]
         demo_moving).
Proof.
  exact (proj1 (animation_steps_stay_owned utcMonth
                  [TimerFires 1%positive; TimerFires 2%positive;
                   CallStartVehicleMovement "sweden_store"; Frame]
                  demo_moving demo_moving_steps_owned)).
Defined.

(** ** A journey from start to arrival *)

Lemma find_fresh id t0 (pending : list Timer) :
  (forall t, t ∈ pending -> timer_id t <> id) -> timer_id t0 = id ->
  find (fun t => bool_decide (timer_id t = id)) (pending ++ [t0]) = Some t0.
Proof.
  intros Hfresh Hid. induction pending as [|t pending IH]; simpl.
  - by rewrite bool_decide_eq_true_2.
  - rewrite bool_decide_eq_false_2.
    + apply IH. intros t' Hin. apply Hfresh. by apply list_elem_of_further.
    + apply Hfresh. apply list_elem_of_here.
Qed.

Lemma fresh_after s s' new :
  timers_fresh s -> timers s' = timers s ++ [new] ->
  timer_id new = nextTimer s -> nextTimer s' = Pos.succ (nextTimer s) ->
  timers_fresh s'.
Proof.
  intros Hfresh Ht Hid Hn t Hin. rewrite Hn. rewrite Ht in Hin.
  apply elem_of_app in Hin as [Hin|Hin].
  - specialize (Hfresh t Hin). lia.
  - apply list_elem_of_singleton in Hin as ->. rewrite Hid. lia.
Qed.

Lemma fresh_cleared id s :
  timers_fresh s ->
  timers_fresh (set_timers (filter (fun t => timer_id t ≠ id) (timers s)) s).
Proof.
  intros Hfresh t Hin. simpl in Hin.
  apply list_elem_of_filter in Hin as [_ Hin]. by apply Hfresh.
Qed.

Lemma startVehicleMovement_en_route routeId s v :
  movingMarkers s !! routeId = Some v -> isMoving v = false ->
  (2 <= length (routeCoords v))%nat ->
  timers_fresh s -> steps_owned s ->
  en_route routeId (routeCoords v)
    (duration v / INR (length (routeCoords v) - 1)) 1
    (startVehicleMovement routeId s).2.
Proof.
  intros Hv Hidle Hlen Hfresh Hown.
  split; [|split; [by apply startVehicleMovement_keeps_owned|]].
  all: destruct (routeCoords v) as [|c0 [|c1 rest]] eqn:Hcoords;
    [simpl in Hlen; lia..|].
  all: erewrite startVehicleMovement_starts by done; cbn [snd].
  - eapply fresh_after; [exact Hfresh|reflexivity|reflexivity|reflexivity].
  - do 2 eexists. split; [simpl; apply lookup_insert_eq|].
    split; [done|]. split; [done|]. split; [done|]. split; [done|].
    split; [done|]. cbn [timers set_timers set_nextTimer set_movingMarkers].
    rewrite Hcoords. apply find_fresh; [|done].
    intros t Hin. specialize (Hfresh t Hin). lia.
Qed.

Lemma stepVehicle_runs routeId coords d p s :
  en_route routeId coords d p s ->
  exists v id,
    movingMarkers s !! routeId = Some v /\
    routeCoords v = coords /\ isMoving v = true /\ currentPosition v = p /\
    coords !! p = Some (marker v) /\ animationId v = Some id /\
    (forall t d', t ∈ timers s -> timer_cb t = AnimateCb routeId d' ->
                  timer_id t = id) /\
    stepVehicle routeId s =
    animate routeId d
      (set_timers (filter (fun t => timer_id t ≠ id) (timers s)) s).
Proof.
  intros (Hfresh & Hown & v & id & Hv & Hcoords & Hmov & Hpos & Hmark & Hid & Hfind).
  exists v, id. repeat (split; [done|]). split.
  - intros t d' Hin Hcb. destruct (Hown t routeId d' Hin Hcb) as (w & Hw & _ & Hidw).
    congruence.
  - unfold stepVehicle. rewrite run_gets, Hv, Hid.
    by rewrite (fireTimer_runs id _ s Hfind).
Qed.

Lemma en_route_step routeId coords d p s :
  en_route routeId coords d p s -> (S p < length coords)%nat ->
  en_route routeId coords d (S p) (stepVehicle routeId s).2.
Proof.
  intros Hen Hlt.
  destruct (stepVehicle_runs _ _ _ _ _ Hen)
    as (v & id & Hv & Hcoords & Hmov & Hpos & Hmark & Hid & Hsame & ->).
  destruct Hen as (Hfresh & Hown & _).
  destruct (lookup_lt_is_Some_2 coords (S p) Hlt) as [c Hc].
  pose proof (fresh_cleared id s Hfresh) as Hfresh1.
  erewrite (animate_advances routeId d _ v c); [|done|done|by rewrite Hcoords, Hpos].
  cbn [snd]. split; [|split].
  - eapply fresh_after; [exact Hfresh1|reflexivity|reflexivity|reflexivity].
  - eapply owned_after;
      [exact (clearTimeout_keeps_owned id s Hown)| |reflexivity|reflexivity|].
    + intros t d' Hin Hcb. simpl in Hin.
      apply list_elem_of_filter in Hin as [Hne Hin]. by apply Hne, (Hsame t d').
    + intros t r d' Hin Hcb. apply list_elem_of_singleton in Hin as ->.
      injection Hcb as <- _. by simpl.
  - do 2 eexists. split; [simpl; apply lookup_insert_eq|].
    split; [done|]. split; [done|]. split; [by simpl; rewrite Hpos|].
    split; [done|]. split; [done|].
    cbn [timers set_timers set_nextTimer set_movingMarkers].
    apply find_fresh; [|done].
    intros t Hin. specialize (Hfresh1 t Hin). simpl in Hfresh1. lia.
Qed.

Lemma en_route_arrives routeId coords d p s :
  en_route routeId coords d p s -> S p = length coords ->
  arrived routeId coords (stepVehicle routeId s).2.
Proof.
  intros Hen Hend.
  destruct (stepVehicle_runs _ _ _ _ _ Hen)
    as (v & id & Hv & Hcoords & Hmov & Hpos & Hmark & Hid & Hsame & ->).
  erewrite (animate_arrives routeId d _ v); [|done|done|rewrite Hcoords, Hpos; lia].
  cbn [snd]. do 2 eexists.
  split; [simpl; apply lookup_insert_eq|].
  split; [done|]. split; [done|]. split; [by simpl; rewrite Hpos|].
  split. { rewrite last_lookup, <- Hend. exact Hmark. }
  split. { simpl. apply elem_of_app. right. apply list_elem_of_here. }
  split; [done|]. split; [done|].
  intros t' d' Hin Hcb. simpl in Hin. apply elem_of_app in Hin as [Hin|Hin].
  - apply list_elem_of_filter in Hin as [Hne Hin]. by apply Hne, (Hsame t' d').
  - by apply list_elem_of_singleton in Hin as ->.
Qed.

Lemma driven_en_route routeId s v k :
  movingMarkers s !! routeId = Some v -> isMoving v = false ->
  timers_fresh s -> steps_owned s ->
  (k + 2 <= length (routeCoords v))%nat ->
  en_route routeId (routeCoords v)
    (duration v / INR (length (routeCoords v) - 1)) (S k)
    (driven routeId k s).
Proof.
  intros Hv Hidle Hfresh Hown. induction k as [|k IH]; intros Hlen.
  - apply startVehicleMovement_en_route; [done..|lia|done|done].
  - unfold driven. cbn [Nat.iter]. apply en_route_step; [apply IH|]; lia.
Qed.

(** X9.  A parked vehicle on a route of [n >= 2] waypoints that is
    started stands on waypoint [k + 1] after [k] of its animation steps
    have fired, each scheduled [duration / (n - 1)] after the one before;
    when step [n - 1] fires it has arrived: it stays on the last waypoint,
    is no longer moving, has no step pending and its marker reset is due in
    3 seconds.  With 2 waypoints the only step takes the whole duration. *)
Theorem vehicle_journey (routeId : string) (s : Sim) (v : Vehicle) :
  movingMarkers s !! routeId = Some v -> isMoving v = false ->
  (2 <= length (routeCoords v))%nat ->
  timers_fresh s -> steps_owned s ->
  (forall k, (k + 2 <= length (routeCoords v))%nat ->
     en_route routeId (routeCoords v)
       (duration v / INR (length (routeCoords v) - 1)) (S k)
       (driven routeId k s)) /\
  arrived routeId (routeCoords v)
    (driven routeId (length (routeCoords v) - 1) s).
Proof.
  intros Hv Hidle Hlen Hfresh Hown. split.
  - intros k Hk. by apply driven_en_route.
  - replace (length (routeCoords v) - 1)%nat
      with (S (length (routeCoords v) - 2)) by lia.
    unfold driven. cbn [Nat.iter].
    eapply en_route_arrives.
    + apply (driven_en_route routeId s v (length (routeCoords v) - 2));
        [done..|lia].
    + lia.
Qed.

Lemma demo_parked_fresh : timers_fresh demo_parked.
Proof. intros t Hin. simpl in Hin. by apply elem_of_nil in Hin. Qed.

Lemma demo_parked_steps_owned : steps_owned demo_parked.
Proof. intros t r d Hin. simpl in Hin. by apply elem_of_nil in Hin. Qed.

Lemma vehicle_journey_witness :
  en_route "sweden_store" [(59, 18); (55, 15); (52, 13)]
    (2000 / INR (3 - 1)) 2 (driven "sweden_store" 1 demo_parked) /\
  arrived "sweden_store" [(59, 18); (55, 15); (52, 13)]
    (driven "sweden_store" 2 demo_parked).
Proof.
  pose proof (vehicle_journey "sweden_store" demo_parked
    {| marker := (59, 18); vehicleType := "truck";
       routeCoords := [(59, 18); (55, 15); (52, 13)];
       duration := 2000; distance := 900; isMoving := false;
       currentPosition := 0; animationId := None |}
    (lookup_singleton_eq _ _) eq_refl (le_S _ _ (le_n 2))
    demo_parked_fresh demo_parked_steps_owned) as [Hroute Harrived].
  split; [exact (Hroute 1%nat (le_n 3))|exact Harrived].
Defined.

(** ** Marker reset and repeated starts *)

(** X10.  [resetVehiclePosition] on a known vehicle, moving or not, leaves
    it parked at index 0 with no [animationId]; whatever step it had pending
    is cancelled, so that no animation step of the route is left in the
    queue; the marker goes to the first waypoint of [routeCoordinates], or
    stays where it is when the route has none there.  Other vehicles and
    other timers are left alone. *)
Theorem reset_position_cancels_step (routeId : string) (s : Sim) (v : Vehicle) :
  steps_owned s -> movingMarkers s !! routeId = Some v ->
  exists s' v',
    resetVehiclePosition routeId s = (Some tt, s') /\
    movingMarkers s' !! routeId = Some v' /\
    isMoving v' = false /\ currentPosition v' = 0%nat /\
    animationId v' = None /\
    marker v' = match routeCoordinates s !! routeId with
                | Some (c0 :: _) => c0
                | _ => marker v
                end /\
    (forall t d, t ∈ timers s' -> timer_cb t <> AnimateCb routeId d) /\
    (forall t, t ∈ timers s' <->
               t ∈ timers s /\ animationId v <> Some (timer_id t)) /\
    (forall other, other <> routeId ->
       movingMarkers s' !! other = movingMarkers s !! other).
Proof.
  intros Hown Hv.
  destruct (resetVehiclePosition_runs routeId s v Hv)
    as (s' & v' & Hrun & Hm & Ht & _ & Hidle & Hpos & Hid & _ & Hmark).
  exists s', v'. split; [done|]. rewrite Hm, lookup_insert_eq.
  repeat (split; [done|]).
  assert (Hin : forall t, t ∈ timers s' <->
                  t ∈ timers s /\ animationId v <> Some (timer_id t)).
  { intros t. rewrite Ht. destruct (animationId v) as [id|].
    - rewrite list_elem_of_filter. split.
      + intros [Hne Hin]. split; [done|]. congruence.
      + intros [Hin Hne]. split; [|done]. congruence.
    - split; [by intros ?|by intros [? _]]. }
  split; [|split; [exact Hin|]].
  - intros t d Ht' Hcb. apply Hin in Ht' as [Ht' Hne].
    destruct (Hown t routeId d Ht' Hcb) as (w & Hw & _ & Hidw). congruence.
  - intros other Hne. by rewrite lookup_insert_ne.
Qed.

Lemma reset_position_cancels_step_witness :
  exists s' v',
    resetVehiclePosition "sweden_store" demo_moving = (Some tt, s') /\
    movingMarkers s' !! "sweden_store" = Some v' /\
    isMoving v' = false /\ currentPosition v' = 0%nat /\
    forall t d, t ∈ timers s' -> timer_cb t <> AnimateCb "sweden_store" d.
Proof.
  destruct (reset_position_cancels_step "sweden_store" demo_moving
              {| marker := (59, 18); vehicleType := "truck";
                 routeCoords := [(59, 18); (55, 15); (52, 13)];
                 duration := 2000; distance := 900; isMoving := true;
                 currentPosition := 0; animationId := Some 1%positive |}
              demo_moving_steps_owned (lookup_singleton_eq _ _))
    as (s' & v' & Hrun & Hv' & Hidle & Hpos & _ & _ & Hnone & _).
  exists s', v'. split; [exact Hrun|]. split; [exact Hv'|].
  split; [exact Hidle|]. split; [exact Hpos|exact Hnone].
Defined.

(** X11.  [startVehicleMovement] never throws, and a second call right
    after the first changes nothing: a vehicle that is under way is not
    restarted and gets no second chain of steps. *)
Theorem start_twice_is_start_once (routeId : string) (s : Sim) :
  (startVehicleMovement routeId s).1 = Some tt /\
  startVehicleMovement routeId (startVehicleMovement routeId s).2 =
  (Some tt, (startVehicleMovement routeId s).2).
Proof.
  destruct (movingMarkers s !! routeId) as [v|] eqn:Hv; cycle 1.
  { assert (Hidle : startVehicleMovement routeId s = (Some tt, s)).
    { apply startVehicleMovement_idles. intros v. by rewrite Hv. }
    rewrite !Hidle. cbn [fst snd]. by rewrite Hidle. }
  destruct (isMoving v) eqn:Hmov.
  { assert (Hidle : startVehicleMovement routeId s = (Some tt, s)).
    { apply startVehicleMovement_idles. intros v' Hv'. left. congruence. }
    rewrite !Hidle. cbn [fst snd]. by rewrite Hidle. }
  destruct (routeCoords v) as [|c0 [|c1 rest]] eqn:Hcoords.
  1,2: assert (Hidle : startVehicleMovement routeId s = (Some tt, s))
         by (apply startVehicleMovement_idles; intros v' Hv'; right;
             assert (v' = v) as -> by congruence; rewrite Hcoords; simpl; lia);
       rewrite !Hidle; cbn [fst snd]; by rewrite Hidle.
  erewrite startVehicleMovement_starts by done. cbn [fst snd].
  split; [done|]. apply startVehicleMovement_idles.
  intros v'. cbn [movingMarkers set_movingMarkers set_timers set_nextTimer].
  rewrite lookup_insert_eq. intros [= <-]. by left.
Qed.

(** ** A shipment from departure to arrival *)

Lemma filter_fresh id t0 (pending : list Timer) :
  (forall t, t ∈ pending -> timer_id t <> id) -> timer_id t0 = id ->
  filter (fun t => timer_id t ≠ id) (pending ++ [t0]) = pending.
Proof.
  intros Hfresh Hid. rewrite filter_app.
  rewrite (filter_cons_False _ t0) by (intros Hne; by apply Hne).
  rewrite filter_nil, app_nil_r.
  induction pending as [|t pending IH]; [done|].
  rewrite filter_cons_True by (apply Hfresh, list_elem_of_here).
  f_equal. apply IH. intros t' Hin. apply Hfresh. by apply list_elem_of_further.
Qed.

Lemma fresh_next s t : timers_fresh s -> t ∈ timers s -> timer_id t <> nextTimer s.
Proof. intros Hfresh Hin. specialize (Hfresh t Hin). lia. Qed.

(** The arrival scheduled by a shipment fires. *)
Lemma arrival_fires route source a b acc s :
  timers_fresh s ->
  fireTimer (nextTimer s) (shipped route source a b acc s) =
  shipmentArrival (to route) (shipmentSizeOf route source)
    (set_timers (timers s) (shipped route source a b acc s)).
Proof.
  intros Hfresh.
  erewrite fireTimer_runs; cycle 1.
  { unfold shipped. cbn [timers set_timers set_nextTimer].
    apply find_fresh; [|reflexivity]. intros t. by apply fresh_next. }
  cbn [timer_cb runCallback]. f_equal.
  unfold shipped at 1. cbn [timers set_timers set_nextTimer].
  rewrite filter_fresh; [reflexivity| |reflexivity].
  intros t. by apply fresh_next.
Qed.

(** X12.  A shipment between two different nodes that both have a state,
    followed to its arrival: the source gives up [min(capacity, stock)] at
    once; when the arrival timer fires the destination takes what fits
    below its capacity and its inbound rate grows by the full size, and the
    timer is gone from the queue.  What does not fit is lost. *)
Theorem shipment_delivered (s : Sim) (routeId : string) (route : Route)
    (source dest : NodeState) (a b : NodeData) (acc : gmap string jsval) :
  oget routeId (routesData s) = Some route ->
  oget (from route) (nodeState s) = Some source ->
  route_capacity route * 0.8 < stock source ->
  nodesData s !! from route = Some a ->
  nodesData s !! to route = Some b ->
  oget (currentScenario s) (co2Data s) = Some acc ->
  oget (to route) (nodeState s) = Some dest ->
  from route <> to route ->
  timers_fresh s ->
  exists s1 s2 source' dest',
    processRoute routeId s = (Some tt, s1) /\
    fireTimer (nextTimer s) s1 = (Some tt, s2) /\
    oget (from route) (nodeState s2) = Some source' /\
    oget (to route) (nodeState s2) = Some dest' /\
    stock source' = stock source - shipmentSizeOf route source /\
    stock dest' =
      Rmin (capacity dest) (stock dest + shipmentSizeOf route source) /\
    inbound_rate dest' = inbound_rate dest + shipmentSizeOf route source /\
    timers s2 = timers s /\
    (stock dest + shipmentSizeOf route source <= capacity dest ->
     stock source' + stock dest' = stock source + stock dest) /\
    (capacity dest < stock dest + shipmentSizeOf route source ->
     stock source' + stock dest' < stock source + stock dest).
Proof.
  intros Hroute Hsource Hgt Ha Hb Hacc Hdest Hne Hfresh.
  eexists _, _, _, _. split.
  { by apply (processRoute_ships routeId route source a b acc). }
  rewrite arrival_fires by done. unfold shipmentArrival.
  assert (Hd1 : oget (to route)
                  (nodeState (set_timers (timers s)
                                (shipped route source a b acc s))) = Some dest).
  { unfold shipped. cbn [nodeState set_timers set_nextTimer set_nodeState].
    by rewrite oget_oset_ne. }
  rewrite run_assignNode_twice, (run_assignNode _ _ _ _ Hd1).
  split; [reflexivity|].
  unfold shipped.
  cbn [nodeState set_timers set_nextTimer set_nodeState timers].
  rewrite oget_oset_ne, !oget_oset_eq by done.
  split; [reflexivity|]. split; [reflexivity|].
  cbn [stock set_stock set_inbound_rate set_outbound_rate inbound_rate capacity].
  split; [reflexivity|]. split; [reflexivity|]. split; [reflexivity|].
  split; [reflexivity|].
  split; intros Hfit; unfold Rmin; destruct (Rle_dec (capacity dest) _); lra.
Qed.

Lemma demo_fresh : timers_fresh demo.
Proof. intros t Hin. simpl in Hin. by apply elem_of_nil in Hin. Qed.

Lemma shipment_delivered_witness :
  exists s1 s2 source' dest',
    processRoute "sweden_store" demo = (Some tt, s1) /\
    fireTimer 1%positive s1 = (Some tt, s2) /\
    oget "N1_SWE" (nodeState s2) = Some source' /\
    oget "N4_RET" (nodeState s2) = Some dest' /\
    stock source' = 900 - Rmin 100 900 /\
    stock dest' = Rmin 200 (50 + Rmin 100 900) /\
    timers s2 = [].
Proof.
  destruct (shipment_delivered demo "sweden_store"
              {| from := "N1_SWE"; to := "N4_RET"; vehicle := "truck";
                 route_capacity := 100; speed := 80; emission := 0.1;
                 frequency := 24 |}
              {| stock := 900; capacity := 1000; production_rate := 0;
                 sales_rate := 0; inbound_rate := 0; outbound_rate := 0 |}
              {| stock := 50; capacity := 200; production_rate := 0;
                 sales_rate := 0; inbound_rate := 0; outbound_rate := 0 |}
              {| type := "manufacturing"; initial_stock := 500;
                 coords := (59, 18) |}
              {| type := "retail"; initial_stock := 100; coords := (52, 13) |}
              zeroEmissions eq_refl eq_refl demo_truck_shipment eq_refl eq_refl
              eq_refl eq_refl ltac:(discriminate) demo_fresh)
    as (s1 & s2 & source' & dest' & H1 & H2 & H3 & H4 & H5 & H6 & _ & H8 & _).
  exists s1, s2, source', dest'.
  split; [exact H1|]. split; [exact H2|]. split; [exact H3|].
  split; [exact H4|]. split; [exact H5|]. split; [exact H6|exact H8].
Defined.

(** X13.  A route whose destination has a definition but no state still
    ships: the source loses the shipment, and when the arrival timer fires
    its callback throws on the missing entry without changing any node, so
    the goods are gone. *)
Theorem shipment_to_stateless_node_lost (s : Sim) (routeId : string)
    (route : Route) (source : NodeState) (a b : NodeData)
    (acc : gmap string jsval) :
  oget routeId (routesData s) = Some route ->
  oget (from route) (nodeState s) = Some source ->
  route_capacity route * 0.8 < stock source ->
  nodesData s !! from route = Some a ->
  nodesData s !! to route = Some b ->
  oget (currentScenario s) (co2Data s) = Some acc ->
  oget (to route) (nodeState s) = None ->
  timers_fresh s ->
  exists s1 s2 source',
    processRoute routeId s = (Some tt, s1) /\
    oget (from route) (nodeState s1) = Some source' /\
    stock source' = stock source - shipmentSizeOf route source /\
    fireTimer (nextTimer s) s1 = (None, s2) /\
    nodeState s2 = nodeState s1 /\
    okeys (nodeState s2) = okeys (nodeState s) /\
    timers s2 = timers s.
Proof.
  intros Hroute Hsource Hgt Ha Hb Hacc Hdest Hfresh.
  assert (Hne : from route <> to route) by (intros Heq; congruence).
  eexists _, _, _. split.
  { by apply (processRoute_ships routeId route source a b acc). }
  split. { unfold shipped. simpl. apply oget_oset_eq. }
  split; [reflexivity|].
  rewrite arrival_fires by done. unfold shipmentArrival.
  rewrite run_assignNode_twice, run_assignNode_fail; cycle 1.
  { unfold shipped. cbn [nodeState set_timers set_nextTimer set_nodeState].
    by rewrite oget_oset_ne. }
  split; [reflexivity|]. split; [reflexivity|].
  split; [|reflexivity].
  unfold shipped. cbn [nodeState set_timers set_nextTimer set_nodeState].
  by erewrite okeys_oset.
Qed.

Lemma demo_orphan_fresh : timers_fresh demo_orphan.
Proof. intros t Hin. simpl in Hin. by apply elem_of_nil in Hin. Qed.

Lemma shipment_to_stateless_node_lost_witness :
  exists s1 s2 source',
    processRoute "sweden_store" demo_orphan = (Some tt, s1) /\
    oget "N1_SWE" (nodeState s1) = Some source' /\
    stock source' = 900 - Rmin 100 900 /\
    fireTimer 1%positive s1 = (None, s2) /\
    nodeState s2 = nodeState s1.
Proof.
  destruct (shipment_to_stateless_node_lost demo_orphan "sweden_store"
              {| from := "N1_SWE"; to := "N4_RET"; vehicle := "truck";
                 route_capacity := 100; speed := 80; emission := 0.1;
                 frequency := 24 |}
              {| stock := 900; capacity := 1000; production_rate := 0;
                 sales_rate := 0; inbound_rate := 0; outbound_rate := 0 |}
              {| type := "manufacturing"; initial_stock := 500;
                 coords := (59, 18) |}
              {| type := "retail"; initial_stock := 100; coords := (52, 13) |}
              zeroEmissions eq_refl eq_refl demo_truck_shipment eq_refl eq_refl
              eq_refl eq_refl demo_orphan_fresh)
    as (s1 & s2 & source' & H1 & H2 & H3 & H4 & H5 & _).
  exists s1, s2, source'.
  split; [exact H1|]. split; [exact H2|]. split; [exact H3|].
  split; [exact H4|exact H5].
Defined.

(** ** Emissions go to the active scenario only *)

#[export] Instance others_kept_preorder sc : PreOrder (others_kept sc).
Proof.
  split.
  - intros s. by split.
  - intros s1 s2 s3 [Hc1 Hk1] [Hc2 Hk2]. split; [congruence|].
    intros Hne. rewrite Hk2, Hk1; [done|done|congruence].
Qed.

Lemma others_kept_fields sc s s' :
  currentScenario s' = currentScenario s -> co2Data s' = co2Data s ->
  others_kept sc s s'.
Proof. intros Hc Hd. split; [done|]. by rewrite Hd. Qed.

Lemma others_kept_assignNode sc nodeId f :
  respects (others_kept sc) (assignNode nodeId f).
Proof.
  apply respects_assignNode; [try apply _ .. |].
  intros s node _. by apply others_kept_fields.
Qed.

Lemma others_kept_processRoute sc routeId :
  respects (others_kept sc) (processRoute routeId).
Proof.
  intros s.
  destruct (processRoute_cases routeId s)
    as [->|(route & source & a & b & acc & _ & _ & _ & _ & _ & _ & ->)];
    [reflexivity|].
  cbn [snd]. unfold shipped. split; [done|]. intros Hne.
  cbn [co2Data set_co2Data set_nodeState set_timers set_nextTimer].
  by rewrite oget_oset_ne.
Qed.

Lemma others_kept_processShipments sc : respects (others_kept sc) processShipments.
Proof.
  unfold processShipments. respect. apply others_kept_processRoute.
Qed.

Lemma others_kept_updateNodeStates getMonth sc :
  respects (others_kept sc) (updateNodeStates getMonth).
Proof.
  unfold updateNodeStates, updateNode, updateScenarioRates.
  respect; apply others_kept_assignNode.
Qed.

Lemma others_kept_simulationStep getMonth sc :
  respects (others_kept sc) (simulationStep getMonth).
Proof.
  unfold simulationStep, updateDisplay, requestAnimationFrame, updateCharts.
  respect; try by apply others_kept_fields.
  - apply others_kept_updateNodeStates.
  - apply others_kept_processShipments.
Qed.

Lemma others_kept_fireTimer sc id : respects (others_kept sc) (fireTimer id).
Proof.
  unfold fireTimer, runCallback, clearTimeout, shipmentArrival, animate,
    resetVehiclePosition, onVehicleArrival, clearTimeout, setTimeout.
  respect; try apply others_kept_assignNode;
    try (apply respects_assignVehicle; [try apply _ .. |]; intros ? ?);
    try by apply others_kept_fields.
  all: intros s; by apply others_kept_fields.
Qed.

(** X14.  The emissions accumulator of a scenario that is not the active
    one is never written: not by a tick, a shipment pass, a node update or
    a timer that fires; and a tick does not change which scenario is
    active. *)
Theorem inactive_scenarios_untouched (getMonth : Z -> Z) (s : Sim)
    (sc : string) (id : positive) :
  sc <> currentScenario s ->
  oget sc (co2Data (simulationStep getMonth s).2) = oget sc (co2Data s) /\
  oget sc (co2Data (processShipments s).2) = oget sc (co2Data s) /\
  oget sc (co2Data (updateNodeStates getMonth s).2) = oget sc (co2Data s) /\
  oget sc (co2Data (fireTimer id s).2) = oget sc (co2Data s) /\
  currentScenario (simulationStep getMonth s).2 = currentScenario s.
Proof.
  intros Hne.
  split; [by apply (others_kept_simulationStep getMonth sc s)|].
  split; [by apply (others_kept_processShipments sc s)|].
  split; [by apply (others_kept_updateNodeStates getMonth sc s)|].
  split; [by apply (others_kept_fireTimer sc id s)|].
  apply (others_kept_simulationStep getMonth sc s).
Qed.

Lemma inactive_scenarios_untouched_witness :
  oget "green_rail" (co2Data (processShipments demo).2) =
  Some zeroEmissions.
Proof.
  exact (proj1 (proj2 (inactive_scenarios_untouched utcMonth demo "green_rail"
                         1%positive ltac:(discriminate)))).
Defined.

(** ** What the comparison series hold *)

Lemma demo_emitting_well_formed : well_formed demo_emitting.
Proof.
  split; [exact demo_nodes_configured|].
  split; [exact demo_routes_configured|]. repeat split; by eexists.
Qed.

(** C3, as stated, fails: the sum is not appended to the scenario's
    comparison series.  On the example with 5 units recorded for the
    baseline, the first tick leaves the baseline comparison series holding
    the day label 0 and nothing else; the sum 5 went to the first data set
    of the line chart. *)
Lemma comparison_series_hold_labels_only :
  exists s',
    simulationStep utcMonth demo_emitting = (Some tt, s') /\
    (Z.rem (floor (simulationTime s')) 60 =? 0)%Z = true /\
    oget "baseline" (co2Data s') = Some (<["truck" := Num 5]> zeroEmissions) /\
    baseline (scenarioComparison s') = [0%Z] /\
    labels (charts s') = [0%Z] /\
    dataset0 (charts s') = [Num (5 + 0 + 0)].
Proof.
  destruct (simulationStep_charts utcMonth demo_emitting eq_refl
              (or_introl eq_refl) demo_emitting_well_formed)
    as (s' & Hrun & Htime & Hif).
  pose proof (others_kept_simulationStep utcMonth "baseline" demo_emitting)
    as [_ Hkept].
  rewrite Hrun in Hkept. cbn [snd] in Hkept.
  specialize (Hkept ltac:(discriminate)).
  rewrite Htime in Hif. simpl in Hif.
  rewrite floor_first_tick, round_first_tick in Hif. simpl in Hif.
  destruct Hif as (b & g & l & Hb & _ & _ & Hcmp & Hlabels & Hd0 & _).
  exists s'. split; [exact Hrun|]. rewrite Htime. simpl.
  rewrite floor_first_tick. split; [reflexivity|].
  split; [exact Hkept|]. rewrite Hcmp. split; [reflexivity|].
  split; [exact Hlabels|].
  rewrite Hd0. rewrite Hkept in Hb. injection Hb as <-.
  reflexivity.
Qed.

(** ** A tick without a map *)

Lemma set_theMap_same s : set_theMap (theMap s) s = s.
Proof. by destruct s. Qed.

Lemma simulationStep_no_map getMonth s :
  isPlaying s = true -> theMap s = false -> windowMap s = false ->
  simulationStep getMonth s = (Some tt, s).
Proof.
  intros Hplay Hmap Hwin. unfold simulationStep, try_catch.
  rewrite run_gets, Hplay. change (negb true) with false. cbv iota.
  rewrite run_gets, Hmap. change (negb false) with true. cbv iota.
  rewrite run_modify, run_gets. cbn [theMap set_theMap]. rewrite Hwin.
  change (negb false) with true. cbv iota.
  rewrite <- Hmap at 1. by rewrite set_theMap_same.
Qed.

Lemma set_frames_same s : set_frames (frames s) s = s.
Proof. by destruct s. Qed.

Lemma run_cons getMonth e es s :
  run getMonth (e :: es) s = run getMonth es (handle getMonth e s).2.
Proof. reflexivity. Qed.

Lemma handle_Frame getMonth s :
  handle getMonth Frame s =
  match frames s with
  | O => (Some tt, s)
  | S n => simulationStep getMonth (set_frames n s)
  end.
Proof. cbn [handle]. rewrite run_gets. by destruct (frames s). Qed.

(** X15.  While the simulation is paused, or no map can be found, a tick
    returns without doing anything and without requesting the next frame -
    in the second case although [isPlaying] is [true].  So the pending
    frames run out one by one and nothing else changes: the loop has
    stopped. *)
Theorem stalled_tick_ends_loop (getMonth : Z -> Z) (s : Sim) (n : nat) :
  stalled s ->
  simulationStep getMonth s = (Some tt, s) /\
  run getMonth (repeat Frame n) s = set_frames (frames s - n) s.
Proof.
  assert (Hstep : forall s, stalled s -> simulationStep getMonth s = (Some tt, s)).
  { intros s0 [Hpaused|[Hmap Hwin]].
    - unfold simulationStep, try_catch. by rewrite run_gets, Hpaused.
    - destruct (isPlaying s0) eqn:Hplay; [by apply simulationStep_no_map|].
      unfold simulationStep, try_catch. by rewrite run_gets, Hplay. }
  intros Hs. split; [by apply Hstep|].
  revert s Hs. induction n as [|n IH]; intros s Hs.
  - simpl. by rewrite Nat.sub_0_r, set_frames_same.
  - cbn [repeat]. rewrite run_cons, handle_Frame.
    destruct (frames s) as [|f] eqn:Hf.
    + cbn [snd]. rewrite IH by done. by rewrite Hf.
    + rewrite Hstep by done. cbn [snd]. rewrite IH by done. reflexivity.
Qed.

Lemma stalled_tick_ends_loop_witness :
  run utcMonth (repeat Frame 3)
    (set_frames 1 (set_windowMap false (set_theMap false demo_playing))) =
  set_frames (1 - 3)
    (set_frames 1 (set_windowMap false (set_theMap false demo_playing))).
Proof.
  exact (proj2 (stalled_tick_ends_loop utcMonth
                  (set_frames 1 (set_windowMap false
                                   (set_theMap false demo_playing)))
                  3 (or_intror (conj eq_refl eq_refl)))).
Defined.

(** ** A tick that fails *)

Lemma simulationStep_advances getMonth s :
  isPlaying s = true -> theMap s = true \/ windowMap s = true ->
  simulationStep getMonth s =
  try_catch
    (updateNodeStates getMonth ;;
     processShipments ;;
     updateDisplay ;;
     time ← gets simulationTime;
     (if (Z.rem (floor time) 60 =? 0)%Z then updateCharts else mret tt) ;;
     requestAnimationFrame)
    (modify (set_isPlaying false)) (advanced s).
Proof.
  intros Hplay Hmap. unfold simulationStep, try_catch, advanced.
  rewrite run_gets, Hplay. change (negb true) with false. cbv iota.
  rewrite run_gets.
  destruct (theMap s) eqn:Hmap0; change (negb true) with false;
    change (negb false) with true; cbv iota.
  - rewrite run_ret, run_gets, Hmap0. change (negb true) with false. cbv iota.
    by rewrite run_gets, !run_modify.
  - destruct Hmap as [|Hwin]; [done|].
    rewrite run_modify, run_gets. rewrite Hwin.
    change (negb (theMap (set_theMap true s))) with false. cbv iota.
    by rewrite run_gets, !run_modify.
Qed.

Lemma forEach_throws (Inv : Sim -> Prop) ks f k :
  k ∈ ks ->
  (forall s, Inv s -> (f k s).1 = None) ->
  (forall k', respects (keeps Inv) (f k')) ->
  forall s, Inv s -> (forEach ks f s).1 = None.
Proof.
  intros Hin Hthrow Hkeep. induction ks as [|k0 ks IH]; intros s Hinv.
  { by apply elem_of_nil in Hin. }
  cbn [forEach]. rewrite run_bind.
  pose proof (Hkeep k0 s Hinv) as Hinv1.
  destruct (f k0 s) as [[[]|] s1] eqn:Hrun; [|done].
  apply elem_of_cons in Hin as [->|Hin].
  - specialize (Hthrow s Hinv). by rewrite Hrun in Hthrow.
  - by apply IH.
Qed.

Lemma node_update_assignNode id f :
  respects (same node_update_view) (assignNode id f).
Proof.
  apply respects_assignNode; [apply _|].
  intros s node Hnode. unfold same, node_update_view, shape_view. simpl.
  by rewrite (okeys_oset _ _ node).
Qed.

Lemma node_update_updateNode multiplier nodeId :
  respects (same node_update_view) (updateNode multiplier nodeId).
Proof.
  unfold updateNode, updateScenarioRates. respect; apply node_update_assignNode.
Qed.

Lemma node_update_updateNodeStates getMonth :
  respects (same node_update_view) (updateNodeStates getMonth).
Proof.
  unfold updateNodeStates. respect. apply node_update_updateNode.
Qed.

Lemma updateNodeStates_throws getMonth s nodeId :
  nodeId ∈ okeys (nodeState s) -> nodesData s !! nodeId = None ->
  (updateNodeStates getMonth s).1 = None.
Proof.
  intros Hin Hnone. unfold updateNodeStates. rewrite !run_gets.
  apply (forEach_throws (fun s' => nodesData s' !! nodeId = None) _ _ nodeId);
    [done| | |done].
  - intros s' Hs'. unfold updateNode.
    by rewrite (run_read_fail (fun s => nodesData s !! nodeId) _ _ Hs').
  - intros k'. eapply respects_weaken; [|apply node_update_updateNode].
    intros s1 s2 Hsame Hs1. unfold same, node_update_view, shape_view in Hsame.
    injection Hsame as _ _ _ _ _ _ _ Hn _ _ _ _ _ _ _ _ _ _ _ _.
    by rewrite Hn.
Qed.

(** X16.  When a node has a state but no definition, the node update of a
    tick throws; the tick catches it and stops the simulation: [isPlaying]
    is cleared and no further frame is requested, while the clock has
    already advanced; no shipment is processed and no chart is redrawn. *)
Theorem tick_error_pauses (getMonth : Z -> Z) (s : Sim) (nodeId : string) :
  isPlaying s = true -> theMap s = true \/ windowMap s = true ->
  nodeId ∈ okeys (nodeState s) -> nodesData s !! nodeId = None ->
  exists s',
    simulationStep getMonth s = (Some tt, s') /\
    isPlaying s' = false /\
    frames s' = frames s /\
    simulationTime s' = simulationTime s + 1 / 60 * simulationSpeed s /\
    timers s' = timers s /\
    co2Data s' = co2Data s /\
    charts s' = charts s /\
    okeys (nodeState s') = okeys (nodeState s).
Proof.
  intros Hplay Hmap Hin Hnone.
  rewrite simulationStep_advances by done. unfold try_catch.
  rewrite run_bind.
  pose proof (updateNodeStates_throws getMonth (advanced s) nodeId) as Hthrow.
  pose proof (node_update_updateNodeStates getMonth (advanced s)) as Hsame.
  destruct (updateNodeStates getMonth (advanced s)) as [[[]|] s1].
  { exfalso. enough (Some tt = None) by done. apply Hthrow.
    - unfold advanced. by destruct (theMap s).
    - unfold advanced. by destruct (theMap s). }
  cbn [snd] in Hsame. unfold same, node_update_view, shape_view in Hsame.
  injection Hsame as _ _ _ _ _ Htime _ _ _ _ _ Hcharts _ _ Hframes Hkeys _
    Ht _ Hco2.
  eexists. split; [reflexivity|]. cbn [modify snd].
  split; [done|]. simpl.
  rewrite Hframes, Htime, Ht, Hco2, Hcharts, Hkeys.
  unfold advanced. by destruct (theMap s).
Qed.

Lemma tick_error_pauses_witness :
  exists s',
    simulationStep utcMonth demo_undefined = (Some tt, s') /\
    isPlaying s' = false /\ frames s' = 0%nat.
Proof.
  destruct (tick_error_pauses utcMonth demo_undefined "N9_NEW" eq_refl
              (or_introl eq_refl)
              ltac:(simpl; do 2 apply list_elem_of_further;
                    apply list_elem_of_here)
              ltac:(simpl; by rewrite !lookup_insert_ne))
    as (s' & Hrun & Hplay & Hframes & _).
  exists s'. split; [exact Hrun|]. split; [exact Hplay|exact Hframes].
Defined.

(** ** Frames while playing *)

Lemma well_formed_fields s s' :
  nodeState s' = nodeState s -> nodesData s' = nodesData s ->
  routesData s' = routesData s -> co2Data s' = co2Data s ->
  currentScenario s' = currentScenario s ->
  well_formed s -> well_formed s'.
Proof.
  intros Hns Hnd Hr Hco2 Hsc. unfold well_formed, nodes_configured,
    routes_configured, scenarios_present.
  by rewrite Hns, Hnd, Hr, Hco2, Hsc.
Qed.

Lemma simulationStep_keeps_running getMonth s :
  running s ->
  running (simulationStep getMonth s).2 /\
  frames (simulationStep getMonth s).2 = S (frames s).
Proof.
  intros (Hplay & Hmap & Hwf).
  destruct (simulationStep_runs getMonth s Hplay Hmap Hwf)
    as (s2 & acc & b & g & l & [Hwf2 Hshape] & _ & _ & _ & _ & ->).
  cbn [snd].
  unfold shape_view in Hshape.
  injection Hshape as Hp _ _ _ _ _ _ _ _ _ _ _ Hm _ Hf _ _.
  assert (Hready : theMap s2 = true).
  { rewrite Hm. unfold advanced. destruct (theMap s) eqn:Hmap0; [by simpl|].
    simpl. by destruct Hmap. }
  assert (Hplay2 : isPlaying s2 = true).
  { rewrite Hp. unfold advanced. by destruct (theMap s). }
  assert (Hframes : frames s2 = frames s).
  { rewrite Hf. unfold advanced. by destruct (theMap s). }
  split; [|by simpl; rewrite Hframes].
  destruct (Z.rem _ _ =? 0)%Z; [unfold charted; case_bool_decide|].
  all: split; [exact Hplay2|split; [by left|]].
  all: by apply (well_formed_fields s2).
Qed.

Lemma frames_keep_running getMonth k s :
  running s ->
  running (run getMonth (repeat Frame k) s) /\
  frames (run getMonth (repeat Frame k) s) = frames s.
Proof.
  revert s. induction k as [|k IH]; intros s Hrun; [done|].
  cbn [repeat]. rewrite run_cons, handle_Frame.
  destruct (frames s) as [|f] eqn:Hf.
  - cbn [snd]. destruct (IH s Hrun) as [Hr Hfr]. split; [done|congruence].
  - assert (Hrun' : running (set_frames f s)).
    { destruct Hrun as (Hplay & Hmap & Hwf). split; [done|]. split; [done|].
      by apply (well_formed_fields s). }
    destruct (simulationStep_keeps_running getMonth _ Hrun') as [Hr Hfr].
    destruct (IH _ Hr) as [Hr' Hfr']. split; [done|].
    by rewrite Hfr', Hfr.
Qed.

(** X17.  While the simulation runs, every frame that fires requests the
    next one, so the number of pending frames stays what it is.  Pausing
    cancels no pending frame and resuming requests a new one: after a pause
    and a resume with no frame in between there is one more pending frame
    than before, and it stays that way, so that from then on one more tick
    runs per display refresh. *)
Theorem resume_adds_a_frame_loop (getMonth : Z -> Z) (s : Sim) (k : nat) :
  running s ->
  frames (run getMonth (repeat Frame k) s) = frames s /\
  frames (run getMonth (Toggle :: Toggle :: repeat Frame k) s) = S (frames s) /\
  isPlaying (run getMonth (Toggle :: Toggle :: repeat Frame k) s) = true /\
  isPlaying (run getMonth [Toggle] s) = false /\
  frames (run getMonth [Toggle] s) = frames s.
Proof.
  intros Hrun. split; [by apply frames_keep_running|].
  pose proof Hrun as (Hplay & Hmap & Hwf).
  assert (Hpause : handle getMonth Toggle s = (Some tt, set_isPlaying false s)).
  { cbn [handle]. unfold toggleSimulation, stopSimulation.
    rewrite run_modify, run_gets. cbn [isPlaying set_isPlaying].
    by rewrite Hplay. }
  assert (Hresume : handle getMonth Toggle (set_isPlaying false s) =
                    simulationStep getMonth (set_isPlaying true s)).
  { cbn [handle]. unfold toggleSimulation, startSimulation.
    by rewrite run_modify, run_gets. }
  assert (Hrun' : running (set_isPlaying true s)).
  { split; [done|]. split; [done|]. by apply (well_formed_fields s). }
  destruct (simulationStep_keeps_running getMonth _ Hrun') as [Hr Hfr].
  destruct (frames_keep_running getMonth k _ Hr) as [Hr' Hfr'].
  rewrite !run_cons, Hpause. cbn [snd]. rewrite Hresume.
  split; [by rewrite Hfr', Hfr|]. split; [apply Hr'|]. by split.
Qed.

Lemma demo_playing_running : running demo_playing.
Proof.
  split; [done|]. split; [by left|]. apply demo_playing_well_formed.
Qed.

Lemma resume_adds_a_frame_loop_witness :
  frames (run utcMonth (Toggle :: Toggle :: repeat Frame 2)
            (set_frames 1 demo_playing)) = 2%nat.
Proof.
  assert (Hrun : running (set_frames 1 demo_playing)).
  { destruct demo_playing_running as (Hplay & Hmap & Hwf).
    split; [exact Hplay|]. split; [exact Hmap|].
    exact (well_formed_fields demo_playing (set_frames 1 demo_playing)
             eq_refl eq_refl eq_refl eq_refl eq_refl Hwf). }
  exact (proj1 (proj2 (resume_adds_a_frame_loop utcMonth
                         (set_frames 1 demo_playing) 2 Hrun))).
Defined.

(** ** The elapsed-time display *)

Lemma floor_bounds x : IZR (floor x) <= x < IZR (floor x) + 1.
Proof. unfold floor. destruct (base_Int_part x). lra. Qed.

Lemma floor_unique x z : IZR z <= x < IZR z + 1 -> floor x = z.
Proof.
  intros [Hlo Hhi]. unfold floor. symmetry. apply Int_part_spec. lra.
Qed.

Lemma trunc_nonneg x : 0 <= x -> trunc x = floor x.
Proof. intros Hx. unfold trunc, floor. by destruct (Rle_dec 0 x). Qed.

(** X18.  For a simulation time [t >= 0] the display shows minutes and
    seconds between 0 and 59 and a non-negative number of hours (which is
    not wrapped at 24), and together they are the whole seconds of [t]. *)
Theorem display_clock_splits_seconds (t : R) :
  0 <= t ->
  (0 <= hours t)%Z /\
  (0 <= minutes t < 60)%Z /\
  (0 <= seconds t < 60)%Z /\
  (3600 * hours t + 60 * minutes t + seconds t = floor t)%Z.
Proof.
  intros Ht. unfold hours, minutes, seconds, js_rem.
  rewrite !trunc_nonneg by lra.
  pose proof (floor_bounds (t / 3600)) as Hh.
  set (h := floor (t / 3600)) in *.
  pose proof (floor_bounds ((t - 3600 * IZR h) / 60)) as Hm.
  set (m := floor ((t - 3600 * IZR h) / 60)) in *.
  assert (Hq : floor (t / 60) = (60 * h + m)%Z).
  { apply floor_unique. rewrite plus_IZR, mult_IZR. lra. }
  rewrite Hq.
  pose proof (floor_bounds (t - 60 * IZR (60 * h + m))) as Hs.
  set (sec := floor (t - 60 * IZR (60 * h + m))) in *.
  rewrite plus_IZR, mult_IZR in Hs.
  assert (H0h : (-1 < h)%Z) by (apply lt_IZR; lra).
  assert (H0m : (-1 < m)%Z) by (apply lt_IZR; lra).
  assert (Hm60 : (m < 60)%Z) by (apply lt_IZR; lra).
  assert (H0s : (-1 < sec)%Z) by (apply lt_IZR; lra).
  assert (Hs60 : (sec < 60)%Z) by (apply lt_IZR; lra).
  split; [lia|]. split; [lia|]. split; [lia|].
  symmetry. apply floor_unique.
  rewrite !plus_IZR, !mult_IZR. lra.
Qed.

Lemma display_clock_splits_seconds_witness :
  (0 <= minutes 3725.5 < 60)%Z /\
  (3600 * hours 3725.5 + 60 * minutes 3725.5 + seconds 3725.5 =
   floor 3725.5)%Z.
Proof.
  pose proof (display_clock_splits_seconds 3725.5 ltac:(lra))
    as (_ & Hm & _ & Hsum).
  split; [exact Hm|exact Hsum].
Defined.

(** ** The inspector *)

Lemma nodesData_assignNode id f : respects (same nodesData) (assignNode id f).
Proof. apply respects_assignNode; [apply _|]. by intros s node _. Qed.

Lemma nodesData_assignVehicle id f :
  respects (same nodesData) (assignVehicle id f).
Proof. apply respects_assignVehicle; [apply _|]. by intros s v. Qed.

Lemma nodesData_simulationStep getMonth :
  respects (same nodesData) (simulationStep getMonth).
Proof.
  unfold simulationStep, updateNodeStates, updateNode, updateScenarioRates,
    processShipments, processRoute, updateDisplay, updateCharts,
    requestAnimationFrame, setTimeout.
  respect; try apply nodesData_assignNode; try done.
  all: by intros s.
Qed.

Lemma nodesData_handle getMonth e : respects (same nodesData) (handle getMonth e).
Proof.
  destruct e; cbn [handle]; try apply nodesData_simulationStep.
  - respect; [done|]. apply nodesData_simulationStep.
  - unfold fireTimer, runCallback, clearTimeout, shipmentArrival, animate,
      resetVehiclePosition, onVehicleArrival, clearTimeout, setTimeout.
    respect; try apply nodesData_assignNode; try apply nodesData_assignVehicle;
      try done.
    all: by intros s.
  - unfold toggleSimulation, startSimulation, stopSimulation.
    respect; try done. apply nodesData_simulationStep.
  - by respect.
  - by respect.
  - by respect.
  - unfold updateNodeStates, updateNode, updateScenarioRates.
    respect; apply nodesData_assignNode.
  - unfold processShipments, processRoute, setTimeout.
    respect; try apply nodesData_assignNode; try done.
  - unfold startVehicleMovement, animate, onVehicleArrival, setTimeout.
    respect; try apply nodesData_assignVehicle; try done.
    all: by intros s.
  - unfold resetSimulation, stopSimulation, resetNode, resetScenario,
      updateDisplay, updateCharts.
    respect; try apply nodesData_assignNode; done.
Qed.

Lemma nodesData_run getMonth events s :
  nodesData (run getMonth events s) = nodesData s.
Proof.
  revert s. induction events as [|e events IH]; intros s; [done|].
  rewrite run_cons, IH. apply (nodesData_handle getMonth e s).
Qed.


(** ** Stock stays within [0, capacity], resets included *)

Section StockBoundsEvents.

Variable getMonth : Z -> Z.
Variable c : R.
Variable nodeId : string.

Lemma bounds_fields s s' :
  routesData s' = routesData s -> nodeState s' = nodeState s ->
  timers s' = timers s -> nodesData s' = nodesData s ->
  keeps (bounds_inv c nodeId) s s'.
Proof.
  intros Hr Hn Ht Hd [Hinv Hinit]. split.
  - by apply (quiet_keeps_stock c nodeId s s'); [apply quiet_fields|].
  - unfold initial_ok. by rewrite Hd.
Qed.

(** A reset writes the configured initial stock back, whatever it is. *)
Lemma resetNode_keeps_bounds id : respects (keeps (bounds_inv c nodeId)) (resetNode id).
Proof.
  intros s [Hinv Hinit].
  destruct (oget id (nodeState s)) as [node|] eqn:Hnode; cycle 1.
  { unfold resetNode.
    by rewrite (run_read_fail (fun s => oget id (nodeState s)) _ _ Hnode). }
  destruct (nodesData s !! id) as [data|] eqn:Hdata; cycle 1.
  { unfold resetNode.
    rewrite (run_read (fun s => oget id (nodeState s)) _ _ _ Hnode).
    by rewrite (run_read_fail (fun s => nodesData s !! id) _ _ Hdata). }
  rewrite (resetNode_runs id node data s Hnode Hdata). cbn [snd].
  split; [|exact Hinit].
  destruct Hinv as (Hroutes & Harr & n & Hn & Hc & Hs).
  split; [done|]. split; [done|]. unfold stock_in_range. simpl.
  rewrite oget_oset. destruct (decide (id = nodeId)) as [->|Hne].
  - assert (n = node) as -> by congruence.
    eexists. split; [done|]. simpl. split; [done|]. by apply Hinit.
  - by exists n.
Qed.

Lemma resetSimulation_keeps_bounds :
  respects (keeps (bounds_inv c nodeId)) resetSimulation.
Proof.
  unfold resetSimulation, stopSimulation, resetScenario, updateDisplay,
    updateCharts.
  respect; try apply resetNode_keeps_bounds; by apply bounds_fields.
Qed.

Lemma handle_keeps_bounds e :
  respects (keeps (bounds_inv c nodeId)) (handle getMonth e).
Proof.
  assert (Hrest : e <> ResetButton ->
                  respects (keeps (bounds_inv c nodeId)) (handle getMonth e)).
  { intros Hne s [Hinv Hinit]. split.
    - by apply handle_keeps_stock.
    - unfold initial_ok. by rewrite (nodesData_handle getMonth e s). }
  destruct e; try (by apply Hrest).
  apply resetSimulation_keeps_bounds.
Qed.

Lemma run_keeps_bounds events s :
  bounds_inv c nodeId s -> bounds_inv c nodeId (run getMonth events s).
Proof.
  revert s. induction events as [|e events IH]; intros s Hinv; [done|].
  rewrite run_cons. apply IH. by apply handle_keeps_bounds.
Qed.

End StockBoundsEvents.

(** C1, as the code has it.  Take any node whose stock starts within
    [0, capacity], in a simulation whose routes have non-negative
    capacities, whose pending shipments have non-negative sizes and where
    the node's configured initial stock lies within [0, capacity].  After
    any sequence of events (node updates, shipment passes, whole ticks,
    animation frames, timers firing (the deferred arrivals among them), the
    user's controls and resets) the node still exists with the same
    capacity and a stock within [0, capacity]. *)
Theorem stock_stays_within_capacity (getMonth : Z -> Z) (s : Sim)
    (nodeId : string) (node : NodeState) (events : list Event) :
  routes_ok s -> arrivals_ok s ->
  (forall data, nodesData s !! nodeId = Some data ->
                0 <= initial_stock data <= capacity node) ->
  oget nodeId (nodeState s) = Some node ->
  0 <= stock node <= capacity node ->
  exists node',
    oget nodeId (nodeState (run getMonth events s)) = Some node' /\
    capacity node' = capacity node /\
    0 <= stock node' <= capacity node'.
Proof.
  intros Hroutes Harrivals Hinit Hnode Hstock.
  destruct (run_keeps_bounds getMonth (capacity node) nodeId events s)
    as ((_ & _ & node' & Hnode' & Hcap & Hstock') & _).
  { split; [|exact Hinit]. split; [done|]. split; [done|]. by exists node. }
  exists node'. by rewrite Hcap.
Qed.

Lemma demo_initial_ok nodeId c0 :
  (nodeId = "N1_SWE" -> 500 <= c0) -> (nodeId = "N4_RET" -> 100 <= c0) ->
  initial_ok c0 nodeId demo.
Proof.
  intros H1 H4 data Hdata. unfold demo in Hdata. cbn [nodesData] in Hdata.
  apply lookup_insert_Some in Hdata as [[<- <-]|[_ Hdata]].
  { simpl. specialize (H1 eq_refl). lra. }
  apply lookup_singleton_Some in Hdata as [<- <-].
  simpl. specialize (H4 eq_refl). lra.
Qed.

(** A tick, a second shipment pass, the arrival of the first shipment and
    a reset on the example network. *)
Lemma stock_stays_within_capacity_witness :
  routes_ok demo_playing /\ arrivals_ok demo_playing /\
  oget "N4_RET" (nodeState demo_playing) =
    Some {| stock := 50; capacity := 200; production_rate := 0;
            sales_rate := 0; inbound_rate := 0; outbound_rate := 0 |} /\
  0 <= 50 <= 200 /\
  exists node',
    oget "N4_RET"
      (nodeState (run utcMonth
                    [CallSimulationStep; CallProcessShipments;
                     TimerFires 1%positive; ResetButton] demo_playing)) =
      Some node' /\
    capacity node' = 200 /\
    0 <= stock node' <= capacity node'.
Proof.
  split; [exact demo_routes_ok|]. split; [exact demo_arrivals_ok|].
  split; [reflexivity|]. split; [lra|].
  apply (stock_stays_within_capacity utcMonth demo_playing "N4_RET"
           {| stock := 50; capacity := 200; production_rate := 0;
              sales_rate := 0; inbound_rate := 0; outbound_rate := 0 |}).
  - exact demo_routes_ok.
  - exact demo_arrivals_ok.
  - apply (demo_initial_ok "N4_RET" 200); [discriminate|intros _; lra].
  - reflexivity.
  - simpl. lra.
Defined.

Lemma demo_returns_shipment : Rmin (-100) 950 = -100.
Proof. unfold Rmin. destruct (Rle_dec _ _); lra. Qed.

Lemma demo_overfull_nodes_configured : nodes_configured demo_overfull.
Proof.
  intros nodeId Hin. simpl in Hin.
  repeat (apply elem_of_cons in Hin as [->|Hin]; [by eexists|]).
  by apply elem_of_nil in Hin.
Qed.

(** C1, as stated, fails.  A route of negative capacity ships a negative
    amount: on the example the factory, at 950 of 1000 units, is left with
    1050 by a single shipment pass.  And a reset writes the configured
    initial stock into the node without looking at its capacity: a factory
    of capacity 1000 configured with 5000 units holds 5000 after a reset. *)
Lemma stock_leaves_bounds :
  (exists node node',
     oget "N1_SWE" (nodeState demo_returns) = Some node /\
     0 <= stock node <= capacity node /\
     oget "N1_SWE"
       (nodeState (run utcMonth [CallProcessShipments] demo_returns)) =
       Some node' /\
     capacity node' = capacity node /\ stock node' = 1050 /\
     capacity node' < stock node') /\
  (exists node node',
     oget "N1_SWE" (nodeState demo_overfull) = Some node /\
     0 <= stock node <= capacity node /\
     oget "N1_SWE" (nodeState (run utcMonth [ResetButton] demo_overfull)) =
       Some node' /\
     capacity node' = capacity node /\ stock node' = 5000 /\
     capacity node' < stock node').
Proof.
  split.
  - eexists _, _. split; [reflexivity|]. split; [simpl; lra|].
    rewrite run_cons. cbn [run fold_left handle].
    unfold processShipments. rewrite run_gets.
    change (okeys (routesData demo_returns)) with ["returns"].
    cbn [forEach]. rewrite run_bind.
    rewrite (processRoute_ships "returns"
      {| from := "N1_SWE"; to := "N4_RET"; vehicle := "truck";
         route_capacity := -100; speed := 80; emission := 0.1;
         frequency := 24 |}
      {| stock := 950; capacity := 1000; production_rate := 0;
         sales_rate := 0; inbound_rate := 0; outbound_rate := 0 |}
      {| type := "manufacturing"; initial_stock := 500; coords := (59, 18) |}
      {| type := "retail"; initial_stock := 100; coords := (52, 13) |}
      zeroEmissions demo_returns); try reflexivity; [|simpl; lra].
    cbn [snd]. unfold shipped, shipmentSizeOf, mret, M_ret.
    cbn [snd nodeState set_nodeState set_timers set_nextTimer from stock
         route_capacity].
    rewrite oget_oset_eq. split; [reflexivity|].
    cbn [stock capacity set_stock set_outbound_rate].
    rewrite demo_returns_shipment. split; [reflexivity|]. split; lra.
  - destruct (resetSimulation_runs demo_overfull
                demo_overfull_nodes_configured demo_scenarios_present)
      as (nodes & co2 & Hrun & _ & Hnodes & _).
    destruct (Hnodes "N1_SWE") as (node' & data & Hnode' & Hdata & Hstock & _).
    { simpl. apply list_elem_of_here. }
    pose proof (static_resetSimulation demo_overfull) as Hstatic.
    rewrite Hrun in Hstatic. cbn [snd] in Hstatic.
    unfold same, static_view in Hstatic.
    injection Hstatic as Hframe.
    apply (view_lookup node_frame (nodeState demo_overfull) nodes "N1_SWE") in Hframe.
    cbn [nodeState set_nodeState snapshot set_charts set_scenarioComparison
         set_co2Data] in Hframe.
    eexists _, node'. split; [reflexivity|]. split; [simpl; lra|].
    rewrite run_cons. cbn [run fold_left handle]. rewrite Hrun. cbn [snd].
    split; [exact Hnode'|].
    assert (Hd : data = {| type := "manufacturing"; initial_stock := 5000;
                           coords := (59, 18) |}).
    { unfold demo_overfull in Hdata. cbn [nodesData set_nodesData] in Hdata.
      rewrite lookup_insert_eq in Hdata. by injection Hdata. }
    assert (Hcap : capacity node' = 1000).
    { simpl in Hframe. rewrite Hnode' in Hframe. simpl in Hframe.
      by injection Hframe. }
    rewrite Hstock, Hd, Hcap. simpl. split; [done|]. split; [done|]. lra.
Qed.

(** X19.  For a node that has a definition, a positive capacity, a stock
    within it and a configured initial stock within it, the inspector
    never throws and the stock level it shows is between 0 and 100 percent,
    whatever events have happened since, resets included (given routes of
    non-negative capacity and arrivals of non-negative size); it changes
    nothing. *)
Theorem inspector_level_in_range (getMonth : Z -> Z) (s : Sim)
    (nodeId : string) (node : NodeState) (data : NodeData)
    (events : list Event) :
  routes_ok s -> arrivals_ok s ->
  oget nodeId (nodeState s) = Some node ->
  nodesData s !! nodeId = Some data ->
  0 <= stock node <= capacity node -> 0 < capacity node ->
  0 <= initial_stock data <= capacity node ->
  exists level,
    inspectFacility nodeId (run getMonth events s) =
      (Some level, run getMonth events s) /\
    0 <= level <= 100.
Proof.
  intros Hroutes Harr Hnode Hdata Hrange Hcap Hinit.
  destruct (run_keeps_bounds getMonth (capacity node) nodeId events s)
    as ((_ & _ & node' & Hnode' & Hcap' & Hrange') & _).
  { split; [split; [done|]; split; [done|]; by exists node|].
    intros data' Hdata'. by assert (data' = data) as -> by congruence. }
  eexists. split.
  - unfold inspectFacility.
    erewrite (run_read (fun s => nodesData s !! nodeId))
      by (rewrite nodesData_run; exact Hdata).
    erewrite (run_read (fun s => oget nodeId (nodeState s))) by exact Hnode'.
    reflexivity.
  - rewrite Hcap'.
    assert (Hq : 0 <= stock node' / capacity node <= 1).
    { split.
      - apply Rmult_le_pos; [lra|]. left. by apply Rinv_0_lt_compat.
      - apply (Rmult_le_reg_r (capacity node)); [done|].
        unfold Rdiv. rewrite Rmult_assoc, Rinv_l by lra. lra. }
    lra.
Qed.

Lemma inspector_level_in_range_witness :
  exists level,
    inspectFacility "N4_RET"
      (run utcMonth [CallSimulationStep; CallProcessShipments;
                     TimerFires 1%positive; ResetButton] demo_playing) =
      (Some level,
       run utcMonth [CallSimulationStep; CallProcessShipments;
                     TimerFires 1%positive; ResetButton] demo_playing) /\
    0 <= level <= 100.
Proof.
  exact (inspector_level_in_range utcMonth demo_playing "N4_RET"
           {| stock := 50; capacity := 200; production_rate := 0;
              sales_rate := 0; inbound_rate := 0; outbound_rate := 0 |}
           {| type := "retail"; initial_stock := 100; coords := (52, 13) |}
           [CallSimulationStep; CallProcessShipments; TimerFires 1%positive;
            ResetButton]
           demo_routes_ok demo_arrivals_ok eq_refl eq_refl
           ltac:(simpl; lra) ltac:(simpl; lra) ltac:(simpl; lra)).
Defined.

(** ** Creating a marker *)

(** X20.  [createMovingMarker] returns [null] and changes nothing when the
    route has no coordinates or fewer than two, and when the map library
    fails; when the coordinates are there but the route is not defined it
    throws, again without changing anything. *)
Theorem createMovingMarker_rejects (leaflet : bool)
    (routeId vehicleType : string) (s : Sim) :
  (routeCoordinates s !! routeId = None ->
   createMovingMarker leaflet routeId vehicleType s = (Some None, s)) /\
  (forall routeCoords,
     routeCoordinates s !! routeId = Some routeCoords ->
     (length routeCoords < 2)%nat ->
     createMovingMarker leaflet routeId vehicleType s = (Some None, s)) /\
  (forall routeCoords,
     routeCoordinates s !! routeId = Some routeCoords ->
     (2 <= length routeCoords)%nat ->
     oget routeId (routesData s) = None ->
     createMovingMarker leaflet routeId vehicleType s = (None, s)) /\
  (forall routeCoords route,
     routeCoordinates s !! routeId = Some routeCoords ->
     oget routeId (routesData s) = Some route ->
     createMovingMarker false routeId vehicleType s = (Some None, s)).
Proof.
  unfold createMovingMarker. repeat split.
  all: rewrite run_gets; cbv beta.
  - by intros ->.
  - intros coords -> Hlen.
    by assert ((length coords <? 2)%nat = true) as -> by by apply Nat.ltb_lt.
  - intros coords -> Hlen Hroute.
    assert ((length coords <? 2)%nat = false) as -> by by apply Nat.ltb_ge.
    by rewrite (run_read_fail (fun s => oget routeId (routesData s)) _ _ Hroute).
  - intros coords route -> Hroute.
    destruct (length coords <? 2)%nat; [done|].
    by rewrite (run_read (fun s => oget routeId (routesData s)) _ _ _ Hroute).
Qed.

Lemma createMovingMarker_runs routeId vehicleType s first second rest route :
  routeCoordinates s !! routeId = Some (first :: second :: rest) ->
  oget routeId (routesData s) = Some route ->
  createMovingMarker true routeId vehicleType s =
  (Some (Some first),
   set_movingMarkers
     (<[routeId :=
          {| marker := first; vehicleType := vehicleType;
             routeCoords := first :: second :: rest;
             duration := calculateRouteDistance (first :: second :: rest) /
                         speed route * 3600000 / simulationSpeed s;
             distance := calculateRouteDistance (first :: second :: rest);
             isMoving := false; currentPosition := 0;
             animationId := None |}]> (movingMarkers s)) s).
Proof.
  intros Hcoords Hroute. unfold createMovingMarker.
  rewrite run_gets, Hcoords. cbn [length Nat.ltb Nat.leb].
  by rewrite (run_read (fun s => oget routeId (routesData s)) _ _ _ Hroute).
Qed.

(** X21.  For a defined route with [n >= 2] coordinates, and no animation
    step of that route pending, [createMovingMarker] registers a parked
    vehicle on the first waypoint whose travel time is
    [distance / speed * 3600000 / simulationSpeed], the distance being the
    length of the route, and leaves the other vehicles alone.  Started,
    this vehicle reaches the end of the route after [n - 1] steps of
    [duration / (n - 1)] each - with two waypoints, after one step of the
    whole duration. *)
Theorem created_marker_completes_journey (routeId vehicleType : string)
    (s : Sim) (routeCoords : list (R * R)) (route : Route) :
  routeCoordinates s !! routeId = Some routeCoords ->
  (2 <= length routeCoords)%nat ->
  oget routeId (routesData s) = Some route ->
  timers_fresh s -> steps_owned s ->
  (forall t d, t ∈ timers s -> timer_cb t <> AnimateCb routeId d) ->
  exists first s' v,
    createMovingMarker true routeId vehicleType s = (Some (Some first), s') /\
    routeCoords !! 0%nat = Some first /\
    movingMarkers s' !! routeId = Some v /\
    marker v = first /\ isMoving v = false /\ currentPosition v = 0%nat /\
    distance v = calculateRouteDistance routeCoords /\
    duration v =
      calculateRouteDistance routeCoords / speed route * 3600000 /
      simulationSpeed s /\
    (forall other, other <> routeId ->
       movingMarkers s' !! other = movingMarkers s !! other) /\
    (forall k, (k + 2 <= length routeCoords)%nat ->
       en_route routeId routeCoords
         (duration v / INR (length routeCoords - 1)) (S k)
         (driven routeId k s')) /\
    arrived routeId routeCoords (driven routeId (length routeCoords - 1) s').
Proof.
  intros Hcoords Hlen Hroute Hfresh Hown Hnone.
  destruct routeCoords as [|first [|second rest]]; [simpl in Hlen; lia..|].
  set (coords := first :: second :: rest) in *.
  eexists first, _, _. split.
  { by apply createMovingMarker_runs. }
  split; [done|].
  cbn [movingMarkers set_movingMarkers]. rewrite lookup_insert_eq.
  split; [reflexivity|]. cbn [marker isMoving currentPosition distance duration].
  repeat (split; [reflexivity|]).
  split. { intros other Hne. by rewrite lookup_insert_ne. }
  match goal with |- context [driven routeId _ ?s1] => set (s' := s1) end.
  match goal with |- context [INR _] =>
    match goal with |- context [en_route _ _ (?d / _)] => set (dur := d) end
  end.
  set (v := {| marker := first; vehicleType := vehicleType;
               routeCoords := coords; duration := dur;
               distance := calculateRouteDistance coords; isMoving := false;
               currentPosition := 0; animationId := None |}).
  assert (Hv : movingMarkers s' !! routeId = Some v)
    by (unfold s'; simpl; apply lookup_insert_eq).
  assert (Hfresh' : timers_fresh s') by exact Hfresh.
  assert (Hown' : steps_owned s').
  { intros t r d Hin Hcb. unfold s' in *. simpl in Hin |- *.
    destruct (decide (r = routeId)) as [->|Hne].
    - by destruct (Hnone t d Hin).
    - rewrite lookup_insert_ne by done. by apply (Hown t r d). }
  split.
  - intros k Hk.
    apply (driven_en_route routeId s' v k Hv eq_refl Hfresh' Hown' Hk).
  - replace (length coords - 1)%nat with (S (length coords - 2))
      by (simpl; lia).
    unfold driven. cbn [Nat.iter].
    eapply en_route_arrives.
    + apply (driven_en_route routeId s' v (length coords - 2)
               Hv eq_refl Hfresh' Hown'). simpl. lia.
    + simpl. lia.
Qed.

Lemma created_marker_completes_journey_witness :
  exists first s' v,
    createMovingMarker true "sweden_store" "truck" demo =
      (Some (Some first), s') /\
    movingMarkers s' !! "sweden_store" = Some v /\
    marker v = first /\
    arrived "sweden_store" [(59, 18); (55, 15); (52, 13)]
      (driven "sweden_store" 2 s').
Proof.
  destruct (created_marker_completes_journey "sweden_store" "truck" demo
              [(59, 18); (55, 15); (52, 13)]
              {| from := "N1_SWE"; to := "N4_RET"; vehicle := "truck";
                 route_capacity := 100; speed := 80; emission := 0.1;
                 frequency := 24 |}
              (lookup_singleton_eq _ _) (le_S _ _ (le_n 2)) eq_refl demo_fresh
              ltac:(intros t r d Hin; simpl in Hin; by apply elem_of_nil in Hin)
              ltac:(intros t d Hin; simpl in Hin; by apply elem_of_nil in Hin))
    as (first & s' & v & Hrun & _ & Hv & Hm & _ & _ & _ & _ & _ & _ & Harr).
  exists first, s', v.
  split; [exact Hrun|]. split; [exact Hv|]. split; [exact Hm|exact Harr].
Defined.

(** ** Random departures *)

#[export] Instance under_way_kept_preorder : PreOrder under_way_kept.
Proof.
  split.
  - by intros s routeId v.
  - intros s1 s2 s3 H12 H23 routeId v Hv Hmov.
    apply H23; [|done]. by apply H12.
Qed.

Lemma under_way_startVehicleMovement routeId :
  respects under_way_kept (startVehicleMovement routeId).
Proof.
  intros s.
  destruct (movingMarkers s !! routeId) as [v|] eqn:Hv; cycle 1.
  { rewrite startVehicleMovement_idles; [done|]. intros v. by rewrite Hv. }
  destruct (isMoving v) eqn:Hmov.
  { rewrite startVehicleMovement_idles; [done|].
    intros v' Hv'. left. congruence. }
  destruct (routeCoords v) as [|c0 [|c1 rest]] eqn:Hcoords.
  1,2: rewrite startVehicleMovement_idles; [done|];
       intros v' Hv'; right; assert (v' = v) as -> by congruence;
       rewrite Hcoords; simpl; lia.
  erewrite startVehicleMovement_starts by done. cbn [snd].
  intros other w Hw Hwmov. simpl.
  rewrite lookup_insert_ne; [done|]. intros <-. congruence.
Qed.

Lemma under_way_updateMovingMarkers random :
  respects under_way_kept (updateMovingMarkers random).
Proof.
  unfold updateMovingMarkers. respect.
  apply under_way_startVehicleMovement.
Qed.

Lemma owned_updateMovingMarkers random :
  respects (keeps steps_owned) (updateMovingMarkers random).
Proof.
  unfold updateMovingMarkers. respect.
  intros s Hown. by apply startVehicleMovement_keeps_owned.
Qed.

Lemma forEach_idle ks f s :
  (forall k, k ∈ ks -> f k s = (Some tt, s)) -> forEach ks f s = (Some tt, s).
Proof.
  induction ks as [|k ks IH]; intros Hidle; [done|].
  cbn [forEach]. rewrite run_bind, (Hidle k) by apply list_elem_of_here.
  apply IH. intros k' Hin. apply Hidle. by apply list_elem_of_further.
Qed.

(** X22.  [updateMovingMarkers] never throws, and whatever numbers the
    random generator yields it leaves every vehicle that is under way
    exactly as it is and keeps every pending animation step with its
    owner.  It does nothing at all while no map is known, and nothing at
    simulation time 0, when every start chance is 0. *)
Theorem random_departures_spare_moving_vehicles (random : string -> R)
    (s : Sim) :
  (updateMovingMarkers random s).1 = Some tt /\
  under_way_kept s (updateMovingMarkers random s).2 /\
  (steps_owned s -> steps_owned (updateMovingMarkers random s).2) /\
  (theMap s = false -> updateMovingMarkers random s = (Some tt, s)) /\
  (simulationTime s = 0 -> (forall routeId, 0 <= random routeId) ->
   updateMovingMarkers random s = (Some tt, s)).
Proof.
  split.
  { unfold updateMovingMarkers, try_catch.
    match goal with |- (match ?body with _ => _ end).1 = _ =>
      by destruct body as [[[]|] s']
    end. }
  split; [apply under_way_updateMovingMarkers|].
  split; [apply owned_updateMovingMarkers|].
  split.
  { intros Hmap. unfold updateMovingMarkers, try_catch.
    by rewrite run_gets, Hmap. }
  intros Htime Hdraw. unfold updateMovingMarkers, try_catch.
  rewrite run_gets. destruct (theMap s); [|done].
  change (negb true) with false. cbv iota. rewrite run_gets.
  rewrite forEach_idle; [done|].
  intros routeId Hin. apply oget_is_Some in Hin as [route Hroute].
  rewrite !run_gets, Hroute.
  destruct (movingMarkers s !! routeId) as [v|]; [|done].
  destruct (isMoving v); [done|].
  change (negb false) with true. cbv iota.
  change (prop_of (Some route) ≫= ?k) with (mret route ≫= k).
  rewrite run_ret, run_gets, Htime.
  destruct (Rlt_dec _ _) as [Hlt|_]; [|done].
  specialize (Hdraw routeId). lra.
Qed.

(** ** A reset that fails *)

Lemma node_update_resetNode nodeId :
  respects (same node_update_view) (resetNode nodeId).
Proof. unfold resetNode. respect; apply node_update_assignNode. Qed.

(** X23.  When a node has a state but no definition, a reset throws in
    the middle: the clock, the date and [isPlaying] have been reset (and
    the nodes that come earlier in key order), but the emissions
    accumulators, the comparison series and the charts are left as they
    were. *)
Theorem reset_fails_half_way (s : Sim) (nodeId : string) :
  nodeId ∈ okeys (nodeState s) -> nodesData s !! nodeId = None ->
  exists s',
    resetSimulation s = (None, s') /\
    simulationTime s' = 0 /\ currentDate s' = startDate s /\
    isPlaying s' = false /\
    co2Data s' = co2Data s /\
    scenarioComparison s' = scenarioComparison s /\
    charts s' = charts s /\
    okeys (nodeState s') = okeys (nodeState s).
Proof.
  intros Hin Hnone. unfold resetSimulation, stopSimulation.
  rewrite run_ret, !run_modify, run_gets.
  set (s0 := set_isPlaying false
               (set_simulationTime 0 (set_currentDate (startDate s) s))).
  change (okeys (nodeState s0)) with (okeys (nodeState s)) at 1.
  rewrite run_bind.
  assert (Hthrow : (forEach (okeys (nodeState s)) resetNode s0).1 = None).
  { apply (forEach_throws (fun s' => nodesData s' !! nodeId = None) _ _ nodeId);
      [done| | |done].
    - intros s' Hs'. unfold resetNode.
      destruct (oget nodeId (nodeState s')) as [node|] eqn:Hnode.
      + rewrite (run_read (fun s => oget nodeId (nodeState s)) _ _ _ Hnode).
        by rewrite (run_read_fail (fun s => nodesData s !! nodeId) _ _ Hs').
      + by rewrite (run_read_fail (fun s => oget nodeId (nodeState s)) _ _ Hnode).
    - intros k'. eapply respects_weaken; [|apply node_update_resetNode].
      intros s1' s2' Hv Hs1. unfold same, node_update_view, shape_view in Hv.
      injection Hv as _ _ _ _ _ _ _ Hn _ _ _ _ _ _ _ _ _ _ _ _.
      by rewrite Hn. }
  pose proof (respects_forEach (same node_update_view)
                (okeys (nodeState s)) resetNode node_update_resetNode s0)
    as Hsame.
  destruct (forEach (okeys (nodeState s)) resetNode s0) as [[[]|] s1];
    [done|].
  cbn [snd] in Hsame. unfold same, node_update_view, shape_view in Hsame.
  injection Hsame as Hplay _ _ _ Hdate Htime _ _ _ _ Hcmp Hcharts _ _ _ Hkeys _
    _ _ Hco2.
  exists s1. split; [reflexivity|].
  by rewrite Htime, Hdate, Hplay, Hco2, Hcmp, Hcharts, Hkeys.
Qed.

Lemma reset_fails_half_way_witness :
  exists s',
    resetSimulation demo_undefined = (None, s') /\
    simulationTime s' = 0 /\ isPlaying s' = false /\
    co2Data s' = co2Data demo_undefined.
Proof.
  destruct (reset_fails_half_way demo_undefined "N9_NEW"
              ltac:(simpl; do 2 apply list_elem_of_further;
                    apply list_elem_of_here)
              ltac:(simpl; by rewrite !lookup_insert_ne))
    as (s' & Hrun & Htime & _ & Hplay & Hco2 & _).
  exists s'. split; [exact Hrun|]. split; [exact Htime|].
  split; [exact Hplay|exact Hco2].
Defined.

(** ** The date follows the clock *)

Lemma trunc_IZR z : trunc (IZR z) = z.
Proof.
  unfold trunc. destruct (Rle_dec 0 (IZR z)).
  - symmetry. apply Int_part_spec. lra.
  - rewrite <- opp_IZR.
    assert (Int_part (IZR (- z)) = (- z)%Z) as ->
      by (symmetry; apply Int_part_spec; lra).
    lia.
Qed.

Lemma clock_assignNode id f : respects (same clock_view) (assignNode id f).
Proof. apply respects_assignNode; [apply _|]. by intros s node _. Qed.

Lemma clock_assignVehicle id f : respects (same clock_view) (assignVehicle id f).
Proof. apply respects_assignVehicle; [apply _|]. by intros s v. Qed.

Lemma clock_tick_body getMonth :
  respects (same clock_view)
    (try_catch
       (updateNodeStates getMonth ;;
        processShipments ;;
        updateDisplay ;;
        time ← gets simulationTime;
        (if (Z.rem (floor time) 60 =? 0)%Z then updateCharts else mret tt) ;;
        requestAnimationFrame)
       (modify (set_isPlaying false))).
Proof.
  unfold updateNodeStates, updateNode, updateScenarioRates,
    processShipments, processRoute, updateDisplay, updateCharts,
    requestAnimationFrame, setTimeout.
  respect; try apply clock_assignNode; try done.
  all: by intros s.
Qed.

Lemma synced_same s s' :
  clock_view s' = clock_view s -> date_synced s -> date_synced s'.
Proof.
  unfold clock_view, date_synced. intros H. injection H as -> -> ->. done.
Qed.

Lemma simulationStep_synced getMonth s :
  date_synced s -> date_synced (simulationStep getMonth s).2.
Proof.
  intros Hs.
  destruct (isPlaying s) eqn:Hplay; cycle 1.
  { unfold simulationStep, try_catch. by rewrite run_gets, Hplay. }
  destruct (theMap s) eqn:Hmap; [|destruct (windowMap s) eqn:Hwin].
  3: by rewrite simulationStep_no_map.
  all: rewrite simulationStep_advances by auto.
  all: eapply synced_same; [apply (clock_tick_body getMonth (advanced s))|].
  all: unfold date_synced, advanced; rewrite Hmap; reflexivity.
Qed.

Lemma clock_fireTimer id : respects (same clock_view) (fireTimer id).
Proof.
  unfold fireTimer, runCallback, clearTimeout, shipmentArrival, animate,
    resetVehiclePosition, onVehicleArrival, clearTimeout, setTimeout.
  respect; try apply clock_assignNode; try apply clock_assignVehicle; try done.
  all: by intros s.
Qed.

Lemma clock_startVehicleMovement routeId :
  respects (same clock_view) (startVehicleMovement routeId).
Proof.
  unfold startVehicleMovement, animate, onVehicleArrival, setTimeout.
  respect; try apply clock_assignVehicle; try done.
  all: by intros s.
Qed.

Lemma clock_reset_rest :
  respects (same clock_view)
    (nodeIds ← gets (fun s => okeys (nodeState s));
     forEach nodeIds resetNode ;;
     scenarios ← gets (fun s => okeys (co2Data s));
     forEach scenarios resetScenario ;;
     modify (set_scenarioComparison emptyComparison) ;;
     updateDisplay ;;
     updateCharts).
Proof.
  unfold resetNode, resetScenario, updateDisplay, updateCharts.
  respect; try apply clock_assignNode; done.
Qed.

Lemma resetSimulation_synced s : date_synced (resetSimulation s).2.
Proof.
  unfold resetSimulation, stopSimulation.
  rewrite run_ret, !run_modify.
  eapply synced_same; [apply clock_reset_rest|].
  unfold date_synced. simpl. rewrite Rmult_0_l, Rplus_0_r.
  by rewrite trunc_IZR.
Qed.

Lemma handle_synced getMonth e s :
  date_synced s -> date_synced (handle getMonth e s).2.
Proof.
  intros Hs. destruct e; cbn [handle].
  - rewrite run_gets. destruct (frames s); [done|]. rewrite run_modify.
    by apply simulationStep_synced.
  - eapply synced_same; [apply (clock_fireTimer id s)|done].
  - unfold toggleSimulation, startSimulation, stopSimulation.
    rewrite run_modify, run_gets.
    destruct (isPlaying (set_isPlaying _ s)); [|done].
    by apply simulationStep_synced.
  - done.
  - done.
  - done.
  - eapply synced_same; [|exact Hs].
    revert s Hs. intros s _. revert s.
    change (respects (same clock_view) (updateNodeStates getMonth)).
    unfold updateNodeStates, updateNode, updateScenarioRates.
    respect; apply clock_assignNode.
  - eapply synced_same; [|exact Hs].
    revert s Hs. intros s _. revert s.
    change (respects (same clock_view) processShipments).
    unfold processShipments, processRoute, setTimeout.
    respect; try apply clock_assignNode; try done.
  - by apply simulationStep_synced.
  - eapply synced_same; [apply (clock_startVehicleMovement routeId s)|done].
  - apply resetSimulation_synced.
Qed.

(** X24.  The date always follows the clock: in the initial state, after
    any events and after a reset - even one that throws half way -
    [currentDate] is the start date plus [simulationTime] in milliseconds,
    truncated to a whole number. *)
Theorem date_follows_clock (getMonth : Z -> Z) (t0 : Z) (w : bool)
    (events : list Event) :
  date_synced (ikeaSimulation t0 w) /\
  date_synced (run getMonth events (ikeaSimulation t0 w)) /\
  (forall s, date_synced s -> date_synced (run getMonth events s)) /\
  (forall s, date_synced (resetSimulation s).2).
Proof.
  assert (Hinit : date_synced (ikeaSimulation t0 w)).
  { unfold date_synced. simpl. rewrite Rmult_0_l, Rplus_0_r.
    by rewrite trunc_IZR. }
  assert (Hrun : forall s, date_synced s -> date_synced (run getMonth events s)).
  { induction events as [|e events IH]; intros s Hs; [done|].
    rewrite run_cons. by apply IH, handle_synced. }
  split; [done|]. split; [by apply Hrun|]. split; [done|].
  apply resetSimulation_synced.
Qed.

(** ** Cumulative emissions never decrease *)

Lemma no_less_refl v : no_less v v.
Proof. destruct v; simpl; [done| |done]. eexists. split; [done|lra]. Qed.

Lemma no_less_trans a b c : no_less a b -> no_less b c -> no_less a c.
Proof.
  destruct a as [|x|]; simpl; [done| |].
  - intros (y & -> & Hxy) (z & -> & Hyz). exists z. split; [done|lra].
  - by intros ->.
Qed.

#[export] Instance emissions_grow_preorder : PreOrder emissions_grow.
Proof.
  split.
  - intros s Hok. split; [done|]. intros sc acc key v Hacc Hv.
    exists acc, v. split; [done|]. split; [done|]. apply no_less_refl.
  - intros s1 s2 s3 H12 H23 Hok.
    destruct (H12 Hok) as [Hok2 Hg12]. destruct (H23 Hok2) as [Hok3 Hg23].
    split; [done|]. intros sc acc key v Hacc Hv.
    destruct (Hg12 sc acc key v Hacc Hv) as (acc2 & v2 & Hacc2 & Hv2 & Hle2).
    destruct (Hg23 sc acc2 key v2 Hacc2 Hv2) as (acc3 & v3 & Hacc3 & Hv3 & Hle3).
    exists acc3, v3. split; [done|]. split; [done|].
    by eapply no_less_trans.
Qed.

Lemma emissions_same s s' :
  emissions_view s' = emissions_view s -> emissions_grow s s'.
Proof.
  unfold emissions_view. intros H. injection H as Hr Hn Hc.
  intros Hok. unfold emissions_ok. rewrite Hr, Hc. split; [done|].
  intros sc acc key v Hacc Hv.
  exists acc, v. split; [done|]. split; [done|]. apply no_less_refl.
Qed.

Lemma emissions_assignNode id f : respects emissions_grow (assignNode id f).
Proof.
  apply respects_assignNode; [apply _|]. intros s node _.
  by apply emissions_same.
Qed.

Lemma emissions_assignVehicle id f : respects emissions_grow (assignVehicle id f).
Proof.
  apply respects_assignVehicle; [apply _|]. intros s v.
  by apply emissions_same.
Qed.

Lemma emissions_processRoute routeId : respects emissions_grow (processRoute routeId).
Proof.
  intros s.
  destruct (processRoute_cases routeId s)
    as [->|(route & source & a & b & acc0 & Hroute & _ & Hgt & _ & _ & Hacc0 & ->)];
    [reflexivity|].
  cbn [snd]. intros Hok. split; [exact Hok|].
  destruct (Hok _ _ Hroute) as [Hcap Hem].
  assert (He : 0 <= emissionsOf route source a b).
  { unfold emissionsOf, routeDistance.
    pose proof (shipmentSizeOf_bounds route source Hcap Hgt) as [Hsize _].
    pose proof (calculateDistance_nonneg (coords a).1 (coords a).2
                  (coords b).1 (coords b).2) as Hd.
    apply Rmult_le_pos; [|done]. by apply Rmult_le_pos. }
  intros sc acc key v Hacc Hv. unfold shipped.
  cbn [co2Data set_co2Data set_nodeState set_timers set_nextTimer].
  destruct (decide (currentScenario s = sc)) as [<-|Hsc]; cycle 1.
  { rewrite oget_oset_ne by done. exists acc, v.
    split; [done|]. split; [done|]. apply no_less_refl. }
  rewrite oget_oset_eq. assert (acc = acc0) as -> by congruence.
  destruct (decide (vehicle route = key)) as [<-|Hkey].
  - eexists _, _. split; [done|].
    rewrite lookup_insert_eq. split; [done|].
    unfold getv. rewrite Hv. simpl.
    destruct v as [|x|]; simpl; [done| |done].
    eexists. split; [done|]. lra.
  - eexists _, _. split; [done|].
    rewrite lookup_insert_ne by done. split; [exact Hv|]. apply no_less_refl.
Qed.

Lemma emissions_simulationStep getMonth :
  respects emissions_grow (simulationStep getMonth).
Proof.
  unfold simulationStep, updateNodeStates, updateNode, updateScenarioRates,
    processShipments, updateDisplay, updateCharts, requestAnimationFrame.
  respect; try apply emissions_assignNode; try by apply emissions_same.
  apply emissions_processRoute.
Qed.

Lemma emissions_handle getMonth e :
  e <> ResetButton -> respects emissions_grow (handle getMonth e).
Proof.
  intros Hreset.
  destruct e; cbn [handle]; try apply emissions_simulationStep; [| | | | | | | | |done].
  - respect; [by apply emissions_same|]. apply emissions_simulationStep.
  - unfold fireTimer, runCallback, clearTimeout, shipmentArrival, animate,
      resetVehiclePosition, onVehicleArrival, clearTimeout, setTimeout.
    respect; try apply emissions_assignNode; try apply emissions_assignVehicle;
      try by apply emissions_same.
    all: intros s; by apply emissions_same.
  - unfold toggleSimulation, startSimulation, stopSimulation.
    respect; try by apply emissions_same. apply emissions_simulationStep.
  - respect. by apply emissions_same.
  - respect. by apply emissions_same.
  - respect. by apply emissions_same.
  - unfold updateNodeStates, updateNode, updateScenarioRates.
    respect; apply emissions_assignNode.
  - unfold processShipments. respect. apply emissions_processRoute.
  - unfold startVehicleMovement, animate, onVehicleArrival, setTimeout.
    respect; try apply emissions_assignVehicle; try by apply emissions_same.
    all: intros s; by apply emissions_same.
Qed.

Lemma emissions_run getMonth events s :
  ResetButton ∉ events -> emissions_grow s (run getMonth events s).
Proof.
  revert s. induction events as [|e events IH]; intros s Hreset; [reflexivity|].
  apply not_elem_of_cons in Hreset as [Hne Hreset].
  rewrite run_cons. etransitivity; [by apply (emissions_handle getMonth e)|].
  by apply IH.
Qed.

(** X25.  With routes of non-negative capacity and emission factor, no
    event other than a reset lowers a recorded total: after any events with
    no reset among them, a slot of an accumulator that held a number holds
    a number at least as large or [NaN], and a slot that held [NaN] holds
    [NaN].  (The real-valued distance of this model is never [NaN], so here
    the slot always keeps a number; the statement leaves room for the
    [NaN] that the code's own distance can be, see [Doubles].) *)
Theorem cumulative_emissions_never_decrease (getMonth : Z -> Z) (s : Sim)
    (events : list Event) (sc key : string) (acc : gmap string jsval)
    (v : jsval) :
  emissions_ok s -> ResetButton ∉ events ->
  oget sc (co2Data s) = Some acc -> acc !! key = Some v ->
  exists acc' v',
    oget sc (co2Data (run getMonth events s)) = Some acc' /\
    acc' !! key = Some v' /\
    (forall x, v = Num x -> v' = NaN \/ exists y, v' = Num y /\ x <= y) /\
    (v = NaN -> v' = NaN).
Proof.
  intros Hok Hreset Hacc Hv.
  destruct (emissions_run getMonth events s Hreset Hok) as [_ Hgrow].
  destruct (Hgrow sc acc key v Hacc Hv) as (acc' & v' & Hacc' & Hv' & Hle).
  exists acc', v'. split; [done|]. split; [done|]. split.
  - intros x ->. by right.
  - by intros ->.
Qed.

Lemma demo_emissions_ok : emissions_ok demo.
Proof.
  intros routeId route Hroute. simpl in Hroute.
  repeat case_decide; simplify_eq; simpl; lra.
Qed.

Lemma cumulative_emissions_never_decrease_witness :
  exists acc' v',
    oget "baseline"
      (co2Data (run utcMonth [CallProcessShipments; CallProcessShipments] demo)) =
      Some acc' /\
    acc' !! "truck" = Some v' /\
    (v' = NaN \/ exists y, v' = Num y /\ 0 <= y).
Proof.
  assert (Hreset : ResetButton ∉ [CallProcessShipments; CallProcessShipments]).
  { intros H. repeat (apply elem_of_cons in H as [H|H]; [discriminate|]).
    by apply elem_of_nil in H. }
  destruct (cumulative_emissions_never_decrease utcMonth demo
              [CallProcessShipments; CallProcessShipments]
              "baseline" "truck" zeroEmissions (Num 0)
              demo_emissions_ok Hreset eq_refl eq_refl)
    as (acc' & v' & Hacc' & Hv' & Hnum & _).
  exists acc', v'. split; [exact Hacc'|]. split; [exact Hv'|].
  exact (Hnum 0 eq_refl).
Defined.

(** ** The line chart stays rectangular *)

Lemma chart_keeps_same s s' :
  chart_view s' = chart_view s -> keeps chart_sound s s'.
Proof.
  unfold chart_view, keeps, chart_sound, series_aligned.
  intros H. injection H as -> -> ->. done.
Qed.

Lemma chart_assignNode id f : respects (keeps chart_sound) (assignNode id f).
Proof.
  apply respects_assignNode; [apply _|]. intros s node _.
  by apply chart_keeps_same.
Qed.

Lemma chart_assignVehicle id f : respects (keeps chart_sound) (assignVehicle id f).
Proof.
  apply respects_assignVehicle; [apply _|]. intros s v.
  by apply chart_keeps_same.
Qed.

Lemma chart_processRoute routeId : respects (keeps chart_sound) (processRoute routeId).
Proof.
  intros s.
  destruct (processRoute_cases routeId s)
    as [->|(route & source & a & b & acc & _ & _ & _ & _ & _ & Hacc & ->)];
    [reflexivity|].
  apply chart_keeps_same. unfold chart_view, shipped. simpl.
  by rewrite (okeys_oset _ _ acc).
Qed.

Lemma okeys_oset_elem {V} k k' (v : V) o : k' ∈ okeys o -> k' ∈ okeys (oset k v o).
Proof.
  rewrite <- !oget_is_Some, oget_oset. intros H. case_decide; [by eexists|done].
Qed.

Lemma chart_resetScenario scenario :
  respects (keeps chart_sound) (resetScenario scenario).
Proof.
  intros s (H0 & H1 & H2 & Hal & Hb & Hg & Hl). unfold resetScenario. simpl.
  repeat (split; [done|]). unfold chart_sound. simpl.
  split; [by apply okeys_oset_elem|]. split; by apply okeys_oset_elem.
Qed.

Lemma chart_updateCharts : respects (keeps chart_sound) updateCharts.
Proof.
  intros s Hs.
  destruct (oget (currentScenario s) (co2Data s)) as [acc|] eqn:Hacc; cycle 1.
  { unfold updateCharts. rewrite run_gets.
    by rewrite (run_read_fail (fun s0 => oget (currentScenario s) (co2Data s0))
                  _ _ Hacc). }
  destruct Hs as (H0 & H1 & H2 & Hal & Hb & Hg & Hl).
  pose proof Hb as [b Hb']%oget_is_Some.
  pose proof Hg as [g Hg']%oget_is_Some.
  pose proof Hl as [l Hl']%oget_is_Some.
  rewrite (updateCharts_runs acc b g l s Hacc Hb' Hg' Hl'). cbn [snd].
  pose proof (charted_keeps_aligned acc b g l s Hal) as Hal'.
  unfold chart_sound. split; [|split; [|split; [|split; [exact Hal'|]]]].
  all: unfold charted; case_bool_decide; simpl; rewrite ?length_app; simpl;
    try done; lia.
Qed.

Lemma chart_simulationStep getMonth :
  respects (keeps chart_sound) (simulationStep getMonth).
Proof.
  unfold simulationStep, updateNodeStates, updateNode, updateScenarioRates,
    processShipments, updateDisplay, requestAnimationFrame.
  respect; try apply chart_assignNode; try by apply chart_keeps_same.
  - apply chart_processRoute.
  - apply chart_updateCharts.
Qed.

Lemma chart_resetSimulation : respects (keeps chart_sound) resetSimulation.
Proof.
  unfold resetSimulation, stopSimulation, resetNode, updateDisplay.
  respect; try apply chart_assignNode; try by apply chart_keeps_same.
  - apply chart_resetScenario.
  - intros (H0 & H1 & H2 & _ & Hb & Hg & Hl). by repeat split.
  - apply chart_updateCharts.
Qed.

Lemma chart_handle getMonth e : respects (keeps chart_sound) (handle getMonth e).
Proof.
  destruct e; cbn [handle]; try apply chart_simulationStep.
  - respect; [by apply chart_keeps_same|]. apply chart_simulationStep.
  - unfold fireTimer, runCallback, clearTimeout, shipmentArrival, animate,
      resetVehiclePosition, onVehicleArrival, clearTimeout, setTimeout.
    respect; try apply chart_assignNode; try apply chart_assignVehicle;
      try by apply chart_keeps_same.
    all: intros s; by apply chart_keeps_same.
  - unfold toggleSimulation, startSimulation, stopSimulation.
    respect; try by apply chart_keeps_same. apply chart_simulationStep.
  - respect. by apply chart_keeps_same.
  - respect. by apply chart_keeps_same.
  - respect. by apply chart_keeps_same.
  - unfold updateNodeStates, updateNode, updateScenarioRates.
    respect; apply chart_assignNode.
  - unfold processShipments. respect. apply chart_processRoute.
  - unfold startVehicleMovement, animate, onVehicleArrival, setTimeout.
    respect; try apply chart_assignVehicle; try by apply chart_keeps_same.
    all: intros s; by apply chart_keeps_same.
  - apply chart_resetSimulation.
Qed.

(** X26.  The line chart stays rectangular.  From the initial state on,
    whatever events and resets happen, each of the three data sets of the
    scenario chart has exactly one value per label, and the three
    comparison series carry the same labels. *)
Theorem line_chart_stays_rectangular (getMonth : Z -> Z) (t0 : Z) (w : bool)
    (events : list Event) :
  chart_sound (ikeaSimulation t0 w) /\
  chart_sound (run getMonth events (ikeaSimulation t0 w)) /\
  (forall s, chart_sound s ->
     chart_sound (run getMonth events s) /\
     chart_sound (resetSimulation (run getMonth events s)).2).
Proof.
  assert (Hinit : chart_sound (ikeaSimulation t0 w)).
  { unfold chart_sound, series_aligned. simpl. repeat split; try done.
    - apply list_elem_of_here.
    - apply list_elem_of_further, list_elem_of_here.
    - do 2 apply list_elem_of_further. apply list_elem_of_here. }
  assert (Hrun : forall s, chart_sound s -> chart_sound (run getMonth events s)).
  { induction events as [|e events IH]; intros s Hs; [done|].
    rewrite run_cons. apply IH. by apply (chart_handle getMonth e s). }
  split; [done|]. split; [by apply Hrun|].
  intros s Hs. split; [by apply Hrun|].
  apply chart_resetSimulation. by apply Hrun.
Qed.

(** ** A shipment in flight at a reset *)

(** X27.  A shipment that is on its way when the simulation is reset still
    arrives: the reset leaves its timer pending, and when the timer fires
    the destination, just reset to its initial stock, takes the shipment
    up to its capacity and shows it as inbound rate. *)
Theorem shipment_in_flight_survives_reset (s : Sim) (id : positive)
    (t : Timer) (toNode : string) (size : R) :
  nodes_configured s -> scenarios_present s ->
  find (fun t => bool_decide (timer_id t = id)) (timers s) = Some t ->
  timer_cb t = ArrivalCb toNode size ->
  toNode ∈ okeys (nodeState s) ->
  exists s1 s2 node data,
    resetSimulation s = (Some tt, s1) /\
    t ∈ timers s1 /\
    fireTimer id s1 = (Some tt, s2) /\
    nodesData s !! toNode = Some data /\
    oget toNode (nodeState s2) = Some node /\
    stock node = Rmin (capacity node) (initial_stock data + size) /\
    inbound_rate node = 0 + size /\
    simulationTime s2 = 0 /\ isPlaying s2 = false.
Proof.
  intros Hcfg Hscen Hfind Hcb Hin.
  destruct (resetSimulation_runs s Hcfg Hscen)
    as (nodes & co2 & Hrun & _ & Hnodes & _).
  destruct (Hnodes toNode Hin) as (node & data & Hnode & Hdata & Hstock & Hinb & _).
  eexists _, _, _, data. split; [exact Hrun|].
  split.
  { simpl. apply find_some in Hfind as [Ht _]. by apply list_elem_of_In. }
  erewrite fireTimer_runs by exact Hfind. rewrite Hcb. cbn [runCallback].
  unfold shipmentArrival. rewrite run_assignNode_twice.
  erewrite run_assignNode by exact Hnode.
  split; [reflexivity|]. split; [exact Hdata|].
  cbn [nodeState set_nodeState]. rewrite oget_oset_eq.
  split; [reflexivity|].
  cbn [stock capacity inbound_rate set_stock set_inbound_rate].
  by rewrite Hstock, Hinb.
Qed.

Lemma shipment_in_flight_survives_reset_witness :
  exists s1 s2 node,
    resetSimulation demo_in_flight = (Some tt, s1) /\
    fireTimer 1%positive s1 = (Some tt, s2) /\
    oget "N4_RET" (nodeState s2) = Some node /\
    stock node = Rmin (capacity node) (100 + 100).
Proof.
  destruct (shipment_in_flight_survives_reset demo_in_flight 1%positive
              {| timer_id := 1%positive; timer_delay := 1000;
                 timer_cb := ArrivalCb "N4_RET" 100 |}
              "N4_RET" 100 demo_nodes_configured demo_scenarios_present
              eq_refl eq_refl
              ltac:(simpl; apply list_elem_of_further, list_elem_of_here))
    as (s1 & s2 & node & data & Hrun & _ & Hfire & Hdata & Hnode & Hstock & _).
  exists s1, s2, node. split; [exact Hrun|]. split; [exact Hfire|].
  split; [exact Hnode|].
  assert (Hd : data = {| type := "retail"; initial_stock := 100;
                         coords := (52, 13) |}).
  { unfold demo_in_flight, demo in Hdata. cbn [nodesData set_nextTimer set_timers]
      in Hdata.
    rewrite lookup_insert_ne in Hdata by discriminate.
    rewrite lookup_singleton_eq in Hdata. by injection Hdata. }
  rewrite Hd in Hstock. exact Hstock.
Defined.
